(** * I-79 incident pipeline: a shallow embedding of [scripts/fetch_i79_incidents.py]

    The development follows the layout of the script: text helpers standing for
    the Python [str] methods the script calls, a small backtracking matcher for
    the regular expressions it passes to [re.search], the fatality estimator,
    the location resolver, the WV511 delay-listing scanner, the manual-override
    engine and the merge performed by [build_dataset].

    Text is modelled as [string] over 8-bit characters: every table and every
    pattern of the script is ASCII, and the character classes below are the
    ASCII restrictions of Python's ([str.lower], [str.isspace], [\d], [\w]):
    on ASCII text they are what the interpreter computes.  The module
    [Unicode] gives the location resolver and the scanner of the delay
    listing on sequences of code points, with the look-ups into the character
    database as parameters. *)

From Stdlib Require Import String Ascii List ZArith NArith Bool Arith Lia.
From Stdlib Require Import DecimalString PrimFloat FloatOps SpecFloat.
From Stdlib Require Import Sorted Permutation.

Set Warnings "-inexact-float,-register-all".
Import ListNotations.

Open Scope string_scope.
Open Scope list_scope.

(* ===================================================================== *)
(** ** Python string helpers                                              *)
(* ===================================================================== *)

Module PyStr.

Definition code (c : ascii) : N := N_of_ascii c.

Definition in_range (lo hi : N) (c : ascii) : bool :=
  (N.leb lo (code c) && N.leb (code c) hi)%bool.

(** [str.isspace] on ASCII: TAB..CR, FS..US and the blank. *)
Definition is_space (c : ascii) : bool :=
  (in_range 9 13 c || in_range 28 32 c)%bool.

Definition is_digit (c : ascii) : bool := in_range 48 57 c.
Definition is_upper (c : ascii) : bool := in_range 65 90 c.
Definition is_lower (c : ascii) : bool := in_range 97 122 c.
Definition is_alpha (c : ascii) : bool := (is_upper c || is_lower c)%bool.

(** The class [\w]: letters, digits and the underscore. *)
Definition is_word (c : ascii) : bool :=
  (is_alpha c || is_digit c || N.eqb (code c) 95)%bool.

Definition lower_char (c : ascii) : ascii :=
  if is_upper c then ascii_of_N (code c + 32) else c.

Definition upper_char (c : ascii) : ascii :=
  if is_lower c then ascii_of_N (code c - 32) else c.

(** [s.lower()] *)
Fixpoint lower (s : string) : string :=
  match s with
  | EmptyString => EmptyString
  | String c s' => String (lower_char c) (lower s')
  end.

(** [s.startswith(p)] *)
Definition startswith (s p : string) : bool := String.prefix p s.

(** [sub in s] *)
Fixpoint contains (sub s : string) : bool :=
  if String.prefix sub s then true
  else match s with
       | EmptyString => false
       | String _ s' => contains sub s'
       end.

(** [any(term in s for term in terms)] *)
Definition any_in (terms : list string) (s : string) : bool :=
  existsb (fun term => contains term s) terms.

Fixpoint lstrip (s : string) : string :=
  match s with
  | EmptyString => EmptyString
  | String c s' => if is_space c then lstrip s' else s
  end.

(** [s.rstrip()] *)
Fixpoint rstrip (s : string) : string :=
  match s with
  | EmptyString => EmptyString
  | String c s' =>
      match rstrip s' with
      | EmptyString => if is_space c then EmptyString else String c EmptyString
      | r => String c r
      end
  end.

(** [s.strip()] *)
Definition strip (s : string) : string := rstrip (lstrip s).

Fixpoint drop (n : nat) (s : string) : string :=
  match n, s with
  | O, _ => s
  | S n', String _ s' => drop n' s'
  | S _, EmptyString => EmptyString
  end.

(** [s[:n]] *)
Fixpoint take (n : nat) (s : string) : string :=
  match n, s with
  | S n', String c s' => String c (take n' s')
  | _, _ => EmptyString
  end.

(** [s.replace(old, new, 1)]: only the first occurrence is replaced. *)
Fixpoint replace_first (old new s : string) : string :=
  if String.prefix old s then (new ++ drop (String.length old) s)%string
  else match s with
       | EmptyString => EmptyString
       | String c s' => String c (replace_first old new s')
       end.

(** [s.split(sep, 1)] for a one-character separator: one or two pieces. *)
Fixpoint split1 (sep : ascii) (s : string) : list string :=
  match s with
  | EmptyString => [EmptyString]
  | String c s' =>
      if Ascii.eqb c sep then [EmptyString; s']
      else match split1 sep s' with
           | h :: t => String c h :: t
           | [] => [String c EmptyString]
           end
  end.

(** [s.title()]: a letter that follows a letter is lower-cased, any other
    letter is upper-cased. *)
Fixpoint title_from (prev_cased : bool) (s : string) : string :=
  match s with
  | EmptyString => EmptyString
  | String c s' =>
      String (if is_alpha c then (if prev_cased then lower_char c else upper_char c) else c)
             (title_from (is_alpha c) s')
  end.

Definition title (s : string) : string := title_from false s.

(** Truthiness of a string: [bool(s)] *)
Definition nonempty (s : string) : bool :=
  match s with EmptyString => false | _ => true end.

(** [a or b] on strings *)
Definition or_else (a b : string) : string := if nonempty a then a else b.

(** [s.isascii()] *)
Fixpoint is_ascii (s : string) : bool :=
  match s with
  | EmptyString => true
  | String c s' => (N.ltb (code c) 128 && is_ascii s')%bool
  end.

(** [int(s)] for a string made of decimal digits (a regex capture of [\d+]). *)
Fixpoint digits_value (acc : Z) (s : string) : Z :=
  match s with
  | EmptyString => acc
  | String c s' => digits_value (10 * acc + Z.of_N (code c - 48)) s'
  end.

End PyStr.

(* ===================================================================== *)
(** ** Regular expressions as used by [re.search]                         *)
(* ===================================================================== *)

Module Re.

Import PyStr.

(** The fragment of the [re] syntax that occurs in the script.  [Grp] is the
    (single) capturing group; non-capturing groups need no constructor. *)
Inductive re : Type :=
| Eps : re
| Lit : string -> re                 (* a literal run of characters *)
| Plus : (ascii -> bool) -> re       (* [c+] for a character class, greedy *)
| Seq : re -> re -> re
| Or : re -> re -> re                (* [a|b], left alternative first *)
| Grp : re -> re                     (* [( ... )] *)
| Bnd : re.                          (* [\b] *)

(** [r?], greedy *)
Definition Opt (r : re) : re := Or r Eps.

Declare Scope re_scope.
Delimit Scope re_scope with re.
Infix ";;" := Seq (at level 61, right associativity) : re_scope.
Infix "<|>" := Or (at level 62, right associativity) : re_scope.

(** A position in the subject: the character just before it (if any), its
    index, and the text that remains. *)
Record cursor := { prev : option ascii; pos : nat; rest : string }.

Definition advance (c : ascii) (s' : string) (cu : cursor) : cursor :=
  {| prev := Some c; pos := S (pos cu); rest := s' |}.

Definition word_before (cu : cursor) : bool :=
  match prev cu with Some c => is_word c | None => false end.

Definition word_after (cu : cursor) : bool :=
  match rest cu with String c _ => is_word c | EmptyString => false end.

Definition at_boundary (cu : cursor) : bool := xorb (word_before cu) (word_after cu).

(** Consume the literal [l]; the result is the cursor after it. *)
Fixpoint eat (l : string) (cu : cursor) : option cursor :=
  match l with
  | EmptyString => Some cu
  | String a l' =>
      match rest cu with
      | String c s' => if Ascii.eqb a c then eat l' (advance c s' cu) else None
      | EmptyString => None
      end
  end.

Section Matcher.
(** The matcher is written in continuation-passing style so that a failure
    of what follows makes an earlier choice point try its next option, as
    the backtracking engine of [re] does.  The continuation receives the
    text consumed, the cursor reached and the capture so far. *)
Context {R : Type}.

Definition cont := string -> cursor -> option string -> option R.

(** [c+]: take as many characters as possible, then give them back one
    by one. *)
Fixpoint plus_run (p : ascii -> bool) (s : string) (pv : option ascii) (n : nat)
         (k : string -> cursor -> option R) : option R :=
  match s with
  | EmptyString => None
  | String c s' =>
      if p c then
        match plus_run p s' (Some c) (S n) (fun t cu => k (String c t) cu) with
        | Some x => Some x
        | None => k (String c EmptyString) {| prev := Some c; pos := S n; rest := s' |}
        end
      else None
  end.

Fixpoint rmatch (r : re) (cu : cursor) (g : option string) (k : cont) : option R :=
  match r with
  | Eps => k EmptyString cu g
  | Lit l => match eat l cu with
             | Some cu' => k l cu' g
             | None => None
             end
  | Plus p => plus_run p (rest cu) (prev cu) (pos cu) (fun t cu' => k t cu' g)
  | Seq a b => rmatch a cu g (fun ta cu' g' =>
                 rmatch b cu' g' (fun tb cu'' g'' => k (ta ++ tb)%string cu'' g''))
  | Or a b => match rmatch a cu g k with
              | Some x => Some x
              | None => rmatch b cu g k
              end
  | Grp a => rmatch a cu g (fun t cu' _ => k t cu' (Some t))
  | Bnd => if at_boundary cu then k EmptyString cu g else None
  end.
End Matcher.

(** What [re.search] exposes of a match: [start()] and [group(1)]. *)
Record match_obj := { m_start : nat; m_group1 : string }.

(** An anchored attempt at one cursor. *)
Definition match_here (r : re) (cu : cursor) : option match_obj :=
  rmatch r cu None (fun _ _ g =>
    Some {| m_start := pos cu;
            m_group1 := match g with Some t => t | None => EmptyString end |}).

(** [re.search]: the attempt is made at every position from left to right,
    the end of the subject included. *)
Fixpoint search_from (r : re) (pv : option ascii) (n : nat) (s : string) : option match_obj :=
  match match_here r {| prev := pv; pos := n; rest := s |} with
  | Some m => Some m
  | None => match s with
            | EmptyString => None
            | String c s' => search_from r (Some c) (S n) s'
            end
  end.

Definition search (r : re) (s : string) : option match_obj := search_from r None 0 s.

(** The cursor [i] characters further on, if the subject is that long. *)
Fixpoint cursor_from (pv : option ascii) (n : nat) (s : string) (i : nat) : option cursor :=
  match i with
  | O => Some {| prev := pv; pos := n; rest := s |}
  | S i' => match s with
            | EmptyString => None
            | String c s' => cursor_from (Some c) (S n) s' i'
            end
  end.

(** [r] matches in [s] with its match starting at index [i]. *)
Definition matches_at (r : re) (s : string) (i : nat) : bool :=
  match cursor_from None 0 s i with
  | Some cu => match match_here r cu with Some _ => true | None => false end
  | None => false
  end.

(** Patterns without a capturing group. *)
Fixpoint capture_free (r : re) : bool :=
  match r with
  | Eps | Lit _ | Plus _ | Bnd => true
  | Seq a b | Or a b => (capture_free a && capture_free b)%bool
  | Grp _ => false
  end.

End Re.

(* ===================================================================== *)
(** ** Module-level tables                                                *)
(* ===================================================================== *)

Definition INCIDENT_TERMS : list string :=
  ["accident"; "crash"; "wreck"; "collision"; "vehicle fire"; "rolled over";
   "rollover"; "tractor trailer"; "traffic backup"].

Definition SPELLED_NUMBERS : list (string * Z) :=
  [("one", 1%Z); ("two", 2%Z); ("three", 3%Z); ("four", 4%Z); ("five", 5%Z); ("six", 6%Z)].

Definition CONSTRUCTION_TERMS : list string :=
  ["construction"; "work zone"; "bridge work"; "bridge deck repairs"; "paving";
   "lane closure"; "detour"; "road work"; "maintenance"].

(* ===================================================================== *)
(** ** Fatality estimator                                                 *)
(* ===================================================================== *)

(** The estimator as a total function: its value on every text on which
    [extract_fatalities] returns.  The conversion [int(match.group(1))] of
    an oversized capture, on which it raises instead, is in [Estimator]
    below. *)
Module Fatalities.

Import PyStr Re.
Open Scope re_scope.

Definition fatal_clues : list string :=
  ["fatal"; "killed"; "died"; "dead"; "medical examiner called";
   "pronounced dead"; "dead at the scene"; "dead at scene"].

Definition digits : re := Plus is_digit.
Definition spaces : re := Plus is_space.

(** [(\d+)\s+(?:people|person|victims?)\s+(?:were\s+)?killed] *)
Definition pat_people_killed : re :=
  Grp digits ;; spaces ;;
  (Lit "people" <|> Lit "person" <|> (Lit "victim" ;; Opt (Lit "s"))) ;;
  spaces ;; Opt (Lit "were" ;; spaces) ;; Lit "killed".

(** [(\d+)\s+dead] *)
Definition pat_dead : re := Grp digits ;; spaces ;; Lit "dead".

(** [killed\s+(\d+)] *)
Definition pat_killed : re := Lit "killed" ;; spaces ;; Grp digits.

(** [(\d+)\s+fatalit] *)
Definition pat_fatalit : re := Grp digits ;; spaces ;; Lit "fatalit".

Definition patterns : list re := [pat_people_killed; pat_dead; pat_killed; pat_fatalit].

Definition number_words : list string := ["one"; "two"; "three"; "four"; "five"; "six"].

(** [(one|two|three|four|five|six)] without its parentheses *)
Definition number_word : re :=
  Lit "one" <|> Lit "two" <|> Lit "three" <|> Lit "four" <|> Lit "five" <|> Lit "six".

(** [\b(one|two|three|four|five|six)\s+dead\b] *)
Definition pat_word_dead : re := Bnd ;; Grp number_word ;; spaces ;; Lit "dead" ;; Bnd.

(** [\b(one|two|three|four|five|six)\s+(?:person|people)\s+(?:was|were)\s+killed\b] *)
Definition pat_word_killed : re :=
  Bnd ;; Grp number_word ;; spaces ;; (Lit "person" <|> Lit "people") ;; spaces ;;
  (Lit "was" <|> Lit "were") ;; spaces ;; Lit "killed" ;; Bnd.

(** [0 < value <= 10] *)
Definition accepted (value : Z) : bool := ((0 <? value) && (value <=? 10))%Z.

(** The [for pattern in patterns] loop: the first pattern whose leftmost match
    carries an accepted count returns; a rejected count moves on to the next
    pattern.  [None] means that the loop fell through. *)
Fixpoint numeric_count (ps : list re) (lowered : string) : option Z :=
  match ps with
  | [] => None
  | pattern :: ps' =>
      match search pattern lowered with
      | Some m =>
          let value := digits_value 0 (m_group1 m) in
          if accepted value then Some value else numeric_count ps' lowered
      | None => numeric_count ps' lowered
      end
  end.

(** [SPELLED_NUMBERS[word]].  The subscript is only evaluated on a capture of
    [number_word], whose alternatives are the keys of the table, see
    [spelled_capture]; the default is never taken. *)
Fixpoint spelled (table : list (string * Z)) (word : string) : Z :=
  match table with
  | [] => 0%Z
  | (k, v) :: table' => if String.eqb k word then v else spelled table' word
  end.

Definition extract_fatalities (text : string) : Z :=
  let lowered := lower text in
  if negb (any_in fatal_clues lowered) then 0%Z
  else
    match numeric_count patterns lowered with
    | Some value => value
    | None =>
        match search pat_word_dead lowered with
        | Some word_match => spelled SPELLED_NUMBERS (m_group1 word_match)
        | None =>
            match search pat_word_killed lowered with
            | Some word_match => spelled SPELLED_NUMBERS (m_group1 word_match)
            | None => 1%Z
            end
        end
    end.

End Fatalities.

(* ===================================================================== *)
(** ** Python values, exceptions and insertion-ordered dictionaries       *)
(* ===================================================================== *)

(** A [dict] with string keys: its items in insertion order.  Assigning to a
    key that is present keeps its place, a new key goes to the end. *)
Module Dict.

Fixpoint get {V : Type} (k : string) (d : list (string * V)) : option V :=
  match d with
  | [] => None
  | (k', v) :: d' => if String.eqb k' k then Some v else get k d'
  end.

(** [d[k] = v] *)
Fixpoint set {V : Type} (k : string) (v : V) (d : list (string * V)) : list (string * V) :=
  match d with
  | [] => [(k, v)]
  | (k', v') :: d' => if String.eqb k' k then (k', v) :: d' else (k', v') :: set k v d'
  end.

Definition keys {V : Type} (d : list (string * V)) : list string := map fst d.

(** [list(d.values())] *)
Definition values {V : Type} (d : list (string * V)) : list V := map snd d.

(** [d.get(k, default)] *)
Definition get_default {V : Type} (k : string) (default : V) (d : list (string * V)) : V :=
  match get k d with Some v => v | None => default end.

End Dict.

(** The values a decoded JSON document is made of, which are also the values
    the dynamically typed slots of an [Incident] can hold. *)
Inductive pyval : Type :=
| PNone : pyval
| PBool : bool -> pyval
| PInt : Z -> pyval
| PFloat : float -> pyval
| PStr : string -> pyval
| PList : list pyval -> pyval
| PDict : list (string * pyval) -> pyval.

Inductive exn : Type :=
| TypeError | ValueError | OverflowError | AttributeError.

Inductive result (A : Type) : Type :=
| Ok : A -> result A
| Raise : exn -> result A.

Arguments Ok {A} _.
Arguments Raise {A} _.

Definition bind {A B : Type} (m : result A) (f : A -> result B) : result B :=
  match m with
  | Ok a => f a
  | Raise e => Raise e
  end.

Notation "x <- m ;; k" := (bind m (fun x => k))
  (at level 100, m at next level, right associativity).

(** A [for] loop whose body may raise: the first exception leaves the loop. *)
Fixpoint for_each {A S : Type} (body : S -> A -> result S) (xs : list A) (st : S) : result S :=
  match xs with
  | [] => Ok st
  | x :: xs' => st' <- body st x ;; for_each body xs' st'
  end.

Module Py.

Import PyStr.

(** [bool(v)] *)
Definition truthy (v : pyval) : bool :=
  match v with
  | PNone => false
  | PBool b => b
  | PInt z => negb (Z.eqb z 0)
  | PFloat f => negb (PrimFloat.eqb f 0%float)
  | PStr s => nonempty s
  | PList l => match l with [] => false | _ => true end
  | PDict d => match d with [] => false | _ => true end
  end.

(** The white space that [int] skips around a literal (C [isspace]): TAB..CR
    and the blank, not FS..US. *)
Definition is_literal_space (c : ascii) : bool :=
  (in_range 9 13 c || N.eqb (code c) 32)%bool.

Fixpoint skip_literal_space (s : string) : string :=
  match s with
  | EmptyString => EmptyString
  | String c s' => if is_literal_space c then skip_literal_space s' else s
  end.

Fixpoint drop_literal_space (s : string) : string :=
  match s with
  | EmptyString => EmptyString
  | String c s' =>
      match drop_literal_space s' with
      | EmptyString => if is_literal_space c then EmptyString else String c EmptyString
      | r => String c r
      end
  end.

(** The digits of an integer literal; single underscores may separate them. *)
Fixpoint literal_digits (acc : Z) (after_digit : bool) (s : string) : option Z :=
  match s with
  | EmptyString => if after_digit then Some acc else None
  | String c s' =>
      if is_digit c then literal_digits (10 * acc + Z.of_N (code c - 48)) true s'
      else if (N.eqb (code c) 95 && after_digit)%bool then literal_digits acc false s'
      else None
  end.

Fixpoint digit_count (s : string) : nat :=
  match s with
  | EmptyString => O
  | String c s' => if is_digit c then S (digit_count s') else digit_count s'
  end.

(** [sys.int_info.default_max_str_digits]: [int] refuses a decimal literal
    of more digits with a ValueError. *)
Definition INT_MAX_STR_DIGITS : nat := 4300.

(** [int(s)] on text: surrounding white space, an optional sign, digits. *)
Definition int_of_text (s : string) : result Z :=
  let body := drop_literal_space (skip_literal_space s) in
  let signed :=
    match body with
    | String "-" t => option_map Z.opp (literal_digits 0 false t)
    | String "+" t => literal_digits 0 false t
    | _ => literal_digits 0 false body
    end in
  match signed with
  | Some z => if Nat.ltb INT_MAX_STR_DIGITS (digit_count body) then Raise ValueError else Ok z
  | None => Raise ValueError
  end.

(** [int(f)] on a float: truncation toward zero. *)
Definition int_of_float (f : float) : result Z :=
  match Prim2SF f with
  | S754_zero _ => Ok 0%Z
  | S754_finite sign m e =>
      let magnitude := if (0 <=? e)%Z then Z.shiftl (Zpos m) e else Z.shiftr (Zpos m) (- e) in
      Ok (if sign then (- magnitude)%Z else magnitude)
  | S754_infinity _ => Raise OverflowError
  | S754_nan => Raise ValueError
  end.

(** [int(v)] *)
Definition to_int (v : pyval) : result Z :=
  match v with
  | PInt z => Ok z
  | PBool b => Ok (if b then 1%Z else 0%Z)
  | PFloat f => int_of_float f
  | PStr s => int_of_text s
  | PNone | PList _ | PDict _ => Raise TypeError
  end.

Definition str_of_int (z : Z) : string :=
  DecimalString.NilEmpty.string_of_int (Z.to_int z).

(** [str(v)]; the text of a float, a list or a dict is left to [repr]. *)
Definition to_str (repr : pyval -> string) (v : pyval) : string :=
  match v with
  | PStr s => s
  | PNone => "None"
  | PBool true => "True"
  | PBool false => "False"
  | PInt z => str_of_int z
  | PFloat _ | PList _ | PDict _ => repr v
  end.

(** [v is None] *)
Definition is_none (v : pyval) : bool :=
  match v with PNone => true | _ => false end.

(** What a [for] statement iterates over: the items of a list, the keys of a
    dict, the characters of a string; anything else is not iterable. *)
Definition iterate (v : pyval) : result (list pyval) :=
  match v with
  | PList l => Ok l
  | PDict d => Ok (map (fun kv => PStr (fst kv)) d)
  | PStr s => Ok (map (fun c => PStr (String c EmptyString)) (list_ascii_of_string s))
  | PNone | PBool _ | PInt _ | PFloat _ => Raise TypeError
  end.

End Py.

(* ===================================================================== *)
(** ** The estimator and its conversion of a capture                      *)
(* ===================================================================== *)

(** [extract_fatalities] as the interpreter runs it.  A numeric capture is
    converted with [int(match.group(1))] before the guard looks at the value,
    and [int] raises a ValueError on a capture of more than
    [INT_MAX_STR_DIGITS] digits; nothing in the function catches it.
    [Fatalities.extract_fatalities] is the value of this function whenever it
    returns. *)
Module Estimator.

Import PyStr.

(** [int(match.group(1))] on a capture of [(\d+)] *)
Definition int_of_capture (capture : string) : result Z :=
  if Nat.ltb Py.INT_MAX_STR_DIGITS (String.length capture) then Raise ValueError
  else Ok (digits_value 0 capture).

(** The [for pattern in patterns] loop. *)
Fixpoint numeric_count (ps : list Re.re) (lowered : string) : result (option Z) :=
  match ps with
  | [] => Ok None
  | pattern :: ps' =>
      match Re.search pattern lowered with
      | Some m =>
          value <- int_of_capture (Re.m_group1 m) ;;
          if Fatalities.accepted value then Ok (Some value) else numeric_count ps' lowered
      | None => numeric_count ps' lowered
      end
  end.

Definition extract_fatalities (text : string) : result Z :=
  let lowered := lower text in
  if negb (any_in Fatalities.fatal_clues lowered) then Ok 0%Z
  else
    found <- numeric_count Fatalities.patterns lowered ;;
    match found with
    | Some value => Ok value
    | None =>
        match Re.search Fatalities.pat_word_dead lowered with
        | Some word_match => Ok (Fatalities.spelled SPELLED_NUMBERS (Re.m_group1 word_match))
        | None =>
            match Re.search Fatalities.pat_word_killed lowered with
            | Some word_match => Ok (Fatalities.spelled SPELLED_NUMBERS (Re.m_group1 word_match))
            | None => Ok 1%Z
            end
        end
    end.

(** A count that no report would carry but a feed can: 4301 digits. *)
Definition oversized_count : string := String.concat "" (repeat "1" 4301).

End Estimator.

(* ===================================================================== *)
(** ** The Incident record and what the script takes from outside         *)
(* ===================================================================== *)

Record Incident : Type := mkIncident {
  id : string;
  title : string;
  url : string;
  source : string;
  published_at : string;
  summary : string;
  location_text : string;
  lat : pyval;                       (* float | None *)
  lon : pyval;                       (* float | None *)
  construction_related : bool;
  suspected_fatalities : Z;
  source_type : string;
  verification_status : string;
  verified_fatalities : pyval;       (* int | None *)
  notes : string
}.

(** Field assignments [incident.f = v]. *)
Definition set_construction_related (i : Incident) (v : bool) : Incident :=
  mkIncident (id i) (title i) (url i) (source i) (published_at i) (summary i) (location_text i)
    (lat i) (lon i) v (suspected_fatalities i) (source_type i) (verification_status i)
    (verified_fatalities i) (notes i).

Definition set_suspected_fatalities (i : Incident) (v : Z) : Incident :=
  mkIncident (id i) (title i) (url i) (source i) (published_at i) (summary i) (location_text i)
    (lat i) (lon i) (construction_related i) v (source_type i) (verification_status i)
    (verified_fatalities i) (notes i).

Definition set_verified_fatalities (i : Incident) (v : pyval) : Incident :=
  mkIncident (id i) (title i) (url i) (source i) (published_at i) (summary i) (location_text i)
    (lat i) (lon i) (construction_related i) (suspected_fatalities i) (source_type i)
    (verification_status i) v (notes i).

Definition set_verification_status (i : Incident) (v : string) : Incident :=
  mkIncident (id i) (title i) (url i) (source i) (published_at i) (summary i) (location_text i)
    (lat i) (lon i) (construction_related i) (suspected_fatalities i) (source_type i) v
    (verified_fatalities i) (notes i).

Definition set_notes (i : Incident) (v : string) : Incident :=
  mkIncident (id i) (title i) (url i) (source i) (published_at i) (summary i) (location_text i)
    (lat i) (lon i) (construction_related i) (suspected_fatalities i) (source_type i)
    (verification_status i) (verified_fatalities i) v.

(** The library calls of the script that are kept abstract: digests, date
    parsing against the clock and calendar, and [repr] of non-text values. *)
Record Library : Type := {
  sha1_hexdigest : string -> string;     (* hashlib.sha1(s.encode("utf-8")).hexdigest() *)
  parse_date : string -> string;
  parse_date_raises : string -> option exn;
      (* the exception with which parse_date leaves on this text, if any: it
         calls email.utils.parsedate_to_datetime outside any try *)
  parse_wp_date : string -> string;
  parse_iso_date : string -> string;
  parse_wv511_date : string -> string;
  before_cutoff : string -> bool;        (* published_at parses to a time before the cutoff *)
  repr : pyval -> string
}.

Definition WV511_DELAY_URL : string := "https://www.wv511.org/TravelConditions/TravelDelay.aspx".

Definition NON_EVENT_TITLE_TERMS : list string :=
  ["discusses what might cause"; "what might cause accidents"; "safety tips";
   "how to avoid"; "why crashes happen"].

Definition WDTV_URL_HINT_TERMS : list string := ["i-79"; "interstate-79"].

Definition NORTH_CENTRAL_COUNTIES : list string :=
  ["monongalia county"; "marion county"; "harrison county"].

Definition LOCATION_HINTS : list (string * (float * float)) :=
  [("morgantown", (39.6295, -79.9559)%float);
   ("star city", (39.6579, -79.9862)%float);
   ("fairmont", (39.4851, -80.1426)%float);
   ("white hall", (39.4443, -80.1723)%float);
   ("bridgeport", (39.2865, -80.2562)%float);
   ("clarksburg", (39.2806, -80.3445)%float);
   ("weston", (39.0384, -80.4673)%float);
   ("stonewood", (39.2462, -80.3009)%float);
   ("lost creek", (39.1615, -80.3731)%float);
   ("monongalia county", (39.6525, -80.0041)%float);
   ("marion county", (39.4568, -80.1542)%float);
   ("harrison county", (39.3032, -80.3781)%float)].

(** [x in collection] for a collection of strings *)
Definition str_in (x : string) (xs : list string) : bool := existsb (String.eqb x) xs.

Definition likely_relevant (text : string) : bool :=
  let lowered := PyStr.lower text in
  let mentions_i79 :=
    (PyStr.contains "i-79" lowered || PyStr.contains "interstate 79" lowered
     || PyStr.contains "i 79" lowered)%bool in
  let mentions_incident := PyStr.any_in INCIDENT_TERMS lowered in
  (mentions_i79 && mentions_incident)%bool.

Definition is_north_central_context (text : string) : bool :=
  let lowered := PyStr.lower text in
  let county_hit := PyStr.any_in NORTH_CENTRAL_COUNTIES lowered in
  let county_alias_hit := PyStr.any_in ["mon county"; "marion co"; "harrison co"] lowered in
  let city_hit :=
    PyStr.any_in ["morgantown"; "fairmont"; "bridgeport"; "clarksburg"; "white hall"; "weston"]
                 lowered in
  (county_hit || county_alias_hit || city_hit)%bool.

Definition text_to_bool (value : string) : bool :=
  let lowered := PyStr.lower (PyStr.strip value) in
  str_in lowered ["1"; "true"; "yes"; "y"].

(* ===================================================================== *)
(** ** Location resolver                                                  *)
(* ===================================================================== *)

Module Location.

Import PyStr Re.
Open Scope re_scope.

Definition county_names : list string :=
  ["monongalia county"; "marion county"; "harrison county"].

(** [rf"\b{re.escape(place)}\b"] *)
Definition county_pattern (place : string) : re := Bnd ;; Lit place ;; Bnd.

(** The first loop: one [(match.start(), place)] per county that matches. *)
Fixpoint collect_matches (places : list string) (lowered : string) : list (nat * string) :=
  match places with
  | [] => []
  | place :: places' =>
      match search (county_pattern place) lowered with
      | Some m => (m_start m, place) :: collect_matches places' lowered
      | None => collect_matches places' lowered
      end
  end.

(** [sorted(xs, key=lambda x: x[0])]: stable, ascending. *)
Fixpoint insert_by_start (x : nat * string) (sorted : list (nat * string)) : list (nat * string) :=
  match sorted with
  | [] => [x]
  | y :: sorted' =>
      if Nat.leb (fst x) (fst y) then x :: sorted else y :: insert_by_start x sorted'
  end.

Definition sorted_by_start (xs : list (nat * string)) : list (nat * string) :=
  fold_right insert_by_start [] xs.

(** The second loop: the first entry of the table, in table order, whose key
    occurs in the text. *)
Fixpoint first_hint (table : list (string * (float * float))) (lowered : string)
  : option (string * (float * float)) :=
  match table with
  | [] => None
  | (place, coords) :: table' =>
      if contains place lowered then Some (place, coords) else first_hint table' lowered
  end.

Definition unspecified : string * pyval * pyval := ("Unspecified stretch", PNone, PNone).

(** [LOCATION_HINTS[best]] is only evaluated on one of [county_names], all of
    which are keys of the table (see [county_names_in_table]). *)
Definition infer_location (text : string) : string * pyval * pyval :=
  let lowered := lower text in
  let county_matches := collect_matches county_names lowered in
  match sorted_by_start county_matches with
  | (_, best) :: _ =>
      match Dict.get best LOCATION_HINTS with
      | Some (la, lo) => (title best, PFloat la, PFloat lo)
      | None => unspecified
      end
  | [] =>
      match first_hint LOCATION_HINTS lowered with
      | Some (place, (la, lo)) => (title place, PFloat la, PFloat lo)
      | None => unspecified
      end
  end.

End Location.

(* ===================================================================== *)
(** ** Identity, the delay-listing scanner and the source adapters        *)
(* ===================================================================== *)

Section Pipeline.

Variable L : Library.

Local Open Scope string_scope.

Definition incident_id (url title : string) : string :=
  PyStr.take 12 (sha1_hexdigest L (url ++ "|" ++ title)).

(** *** [parse_wv511_i79_incidents] *)

(** The four labelled values collected for one block. *)
Record block : Type := mkBlock {
  last_updated : string;
  county : string;
  description : string;
  comments : string                  (* the local [notes] *)
}.

Definition empty_block : block := mkBlock "" "" "" "".

(** [probe.split(":", 1)[1].strip()]; the subscript is only evaluated on a
    line that starts with a label ending in a colon. *)
Definition field_value (probe : string) : string :=
  PyStr.strip (nth 1 (PyStr.split1 ":" probe) "").

(** The inner [while j < len(lines)] loop, started on [lines[j:]].  It stops
    at the end of the input or at the first line that opens another route's
    section or another I-79 block, and returns the final [j]. *)
Fixpoint scan_block (probes : list string) (j : nat) (b : block) : nat * block :=
  match probes with
  | [] => (j, b)
  | probe :: probes' =>
      if PyStr.startswith probe "Last Updated:" then
        scan_block probes' (S j)
          (mkBlock (field_value probe) (county b) (description b) (comments b))
      else if PyStr.startswith probe "County:" then
        scan_block probes' (S j)
          (mkBlock (last_updated b) (field_value probe) (description b) (comments b))
      else if PyStr.startswith probe "Description:" then
        scan_block probes' (S j)
          (mkBlock (last_updated b) (county b) (field_value probe) (comments b))
      else if PyStr.startswith probe "Comments:" then
        scan_block probes' (S j)
          (mkBlock (last_updated b) (county b) (description b) (field_value probe))
      else if (PyStr.startswith probe "I-" && negb (PyStr.startswith probe "I-79"))%bool then (j, b)
      else if PyStr.startswith probe "I-79" then (j, b)
      else scan_block probes' (S j) b
  end.

(** The block that starts at line [i]: where its scan ends and what it holds. *)
Definition block_at (lines : list string) (i : nat) : nat * block :=
  scan_block (skipn (i + 1) lines) (i + 1) empty_block.

Definition event_title_of (line : string) : string :=
  PyStr.or_else (PyStr.strip (PyStr.replace_first "I-79" "" line)) "Traffic Event".

Definition blob_of (event_title : string) (b : block) : string :=
  PyStr.strip ("I-79 " ++ event_title ++ " " ++ description b ++ " " ++ comments b).

(** The [Incident(...)] built for an accepted block. *)
Definition wv511_incident (event_title : string) (b : block) : Incident :=
  let blob := blob_of event_title b in
  let '(location, la, lo) := Location.infer_location (county b ++ " " ++ blob) in
  let fatalities := Fatalities.extract_fatalities blob in
  let is_construction := PyStr.any_in CONSTRUCTION_TERMS (PyStr.lower blob) in
  let title := PyStr.strip ("I-79 " ++ event_title) in
  let pseudo_url := WV511_DELAY_URL ++ "#i79-" ++ PyStr.take 10 (sha1_hexdigest L blob) in
  {| id := incident_id pseudo_url title;
     title := title;
     url := WV511_DELAY_URL;
     source := "wv511.org";
     published_at := parse_wv511_date L (last_updated b);
     summary := description b;
     location_text := PyStr.or_else (county b) location;
     lat := la;
     lon := lo;
     construction_related := is_construction;
     suspected_fatalities := fatalities;
     source_type := "official_wv511";
     verification_status := "official";
     verified_fatalities := PNone;
     notes := comments b |}.

(** Post-block validation: [None] stands for the two [continue] statements. *)
Definition block_incident (event_title : string) (b : block) : option Incident :=
  if negb (str_in (PyStr.lower (county b)) NORTH_CENTRAL_COUNTIES) then None
  else if (PyStr.nonempty (description b) && negb (PyStr.contains "i-79" (PyStr.lower (description b))))%bool
       then None
  else Some (wv511_incident event_title b).

(** One iteration of the outer loop at index [i] on the line [lines[i]]:
    the next index and the incidents appended. *)
Definition scan_step (lines : list string) (i : nat) (line : string) (incidents : list Incident)
  : nat * list Incident :=
  if negb (PyStr.startswith line "I-79") then (i + 1, incidents)
  else
    let '(j, b) := block_at lines i in
    match block_incident (event_title_of line) b with
    | None => (Nat.max (i + 1) j, incidents)
    | Some incident => (Nat.max (i + 1) j, (incidents ++ [incident])%list)
    end.

(** The outer [while i < len(lines)] loop, with a bound on the number of
    iterations; [None] means that the bound was reached first. *)
Fixpoint scan_loop (fuel : nat) (lines : list string) (i : nat) (incidents : list Incident)
  : option (list Incident) :=
  match nth_error lines i with
  | None => Some incidents
  | Some line =>
      match fuel with
      | O => None
      | S fuel' =>
          let '(i', incidents') := scan_step lines i line incidents in
          scan_loop fuel' lines i' incidents'
      end
  end.

(** One iteration per line is always enough, see [scan_loop_enough_fuel]. *)
Definition parse_wv511_i79_incidents (lines : list string) : list Incident :=
  match scan_loop (length lines) lines 0 [] with
  | Some incidents => incidents
  | None => []
  end.

(** An incident built from a block of [lines] whose County value is one of
    the three counties. *)
Definition from_in_scope_block (lines : list string) (incident : Incident) : Prop :=
  exists i line,
    nth_error lines i = Some line /\
    PyStr.startswith line "I-79" = true /\
    str_in (PyStr.lower (county (snd (block_at lines i)))) NORTH_CENTRAL_COUNTIES = true /\
    incident = wv511_incident (event_title_of line) (snd (block_at lines i)).

(** *** Adapters *)

(** A row of [iter_feed_items]. *)
Record feed_item : Type := mkFeedItem {
  item_title : string;
  item_link : string;
  item_description : string;
  item_pub_date : string;
  item_source : string
}.

(** A WordPress post after [clean_text] has been applied to its fields. *)
Record wboy_post : Type := mkPost {
  post_title : string;
  post_link : string;
  post_excerpt : string;
  post_content : string;
  post_date_gmt : string
}.

(** A sitemap entry, with the metadata read from the article page when the
    page could be fetched. *)
Record page_meta : Type := mkMeta {
  og_title : string;
  og_description : string;
  published_time : string;
  title_tag : string
}.

Record sitemap_entry : Type := mkEntry {
  article_url : string;
  lastmod : string;
  page : option page_meta
}.

Definition to_wboy_incident (post : wboy_post) : option Incident :=
  let title := post_title post in
  let link := post_link post in
  let excerpt := post_excerpt post in
  let content := post_content post in
  let blob := PyStr.strip (title ++ " " ++ excerpt ++ " " ++ content) in
  let title_excerpt_blob := PyStr.strip (title ++ " " ++ excerpt) in
  let fatality_blob := PyStr.strip (title ++ " " ++ excerpt ++ " " ++ PyStr.take 350 content) in
  let title_lower := PyStr.lower title in
  if (negb (PyStr.nonempty title) || negb (PyStr.nonempty link))%bool then None
  else if PyStr.any_in NON_EVENT_TITLE_TERMS title_lower then None
  else if negb (likely_relevant title_excerpt_blob) then None
  else if negb (is_north_central_context blob) then None
  else
    let '(location, la, lo) := Location.infer_location blob in
    Some {| id := incident_id link title;
            title := title;
            url := link;
            source := "wboy.com";
            published_at := parse_wp_date L (post_date_gmt post);
            summary := PyStr.or_else excerpt (PyStr.take 420 content);
            location_text := location;
            lat := la;
            lon := lo;
            construction_related := PyStr.any_in CONSTRUCTION_TERMS (PyStr.lower blob);
            suspected_fatalities := Fatalities.extract_fatalities fatality_blob;
            source_type := "news_archive";
            verification_status := "unverified";
            verified_fatalities := PNone;
            notes := "" |}.

Definition to_wdtv_incident (entry : sitemap_entry) : option Incident :=
  match page entry with
  | None => None
  | Some meta =>
      let title := og_title meta in
      let summary := og_description meta in
      let published_raw := PyStr.or_else (published_time meta) (lastmod entry) in
      let title := PyStr.or_else title (title_tag meta) in
      if negb (PyStr.nonempty title) then None
      else
        let blob := title ++ " " ++ summary ++ " " ++ article_url entry in
        if negb (likely_relevant blob) then None
        else if negb (is_north_central_context blob) then None
        else
          let '(location, la, lo) := Location.infer_location blob in
          Some {| id := incident_id (article_url entry) title;
                  title := title;
                  url := article_url entry;
                  source := "wdtv.com";
                  published_at := parse_iso_date L published_raw;
                  summary := summary;
                  location_text := location;
                  lat := la;
                  lon := lo;
                  construction_related := PyStr.any_in CONSTRUCTION_TERMS (PyStr.lower blob);
                  suspected_fatalities := Fatalities.extract_fatalities (title ++ " " ++ summary);
                  source_type := "news_archive_wdtv";
                  verification_status := "unverified";
                  verified_fatalities := PNone;
                  notes := "" |}
  end.

Fixpoint fetch_wdtv_historical_incidents (entries : list sitemap_entry) : list Incident :=
  match entries with
  | [] => []
  | entry :: entries' =>
      if negb (PyStr.any_in WDTV_URL_HINT_TERMS (PyStr.lower (article_url entry)))
      then fetch_wdtv_historical_incidents entries'
      else
        match to_wdtv_incident entry with
        | None => fetch_wdtv_historical_incidents entries'
        | Some incident =>
            if (PyStr.nonempty (published_at incident) && before_cutoff L (published_at incident))%bool
            then fetch_wdtv_historical_incidents entries'
            else incident :: fetch_wdtv_historical_incidents entries'
        end
  end.

End Pipeline.

(* ===================================================================== *)
(** ** Manual overrides and the merge of [build_dataset]                  *)
(* ===================================================================== *)

Section Merge.

Variable L : Library.

Local Open Scope string_scope.

Definition str (v : pyval) : string := Py.to_str (repr L) v.

(** [{incident.id: incident for incident in incidents}] *)
Definition index_by_id (incidents : list Incident) : list (string * Incident) :=
  fold_left (fun by_id incident => Dict.set (id incident) incident by_id) incidents [].

(** The body of the first loop once [incident] and the dict [patch] are at
    hand: the five guarded assignments, in the order of the script. *)
Definition apply_patch (incident : Incident) (patch : list (string * pyval)) : result Incident :=
  let incident :=
    match Dict.get "construction_related" patch with
    | Some v => set_construction_related incident (Py.truthy v)
    | None => incident
    end in
  incident <-
    match Dict.get "suspected_fatalities" patch with
    | Some v => n <- Py.to_int v ;; Ok (set_suspected_fatalities incident n)
    | None => Ok incident
    end ;;
  incident <-
    match Dict.get "verified_fatalities" patch with
    | Some value =>
        if Py.is_none value then Ok (set_verified_fatalities incident PNone)
        else n <- Py.to_int value ;; Ok (set_verified_fatalities incident (PInt n))
    | None => Ok incident
    end ;;
  let incident :=
    match Dict.get "verification_status" patch with
    | Some v => set_verification_status incident (str v)
    | None => incident
    end in
  let incident :=
    match Dict.get "notes" patch with
    | Some v => set_notes incident (str v)
    | None => incident
    end in
  Ok incident.

(** One iteration of [for incident_id_key, patch in ....items()].  The
    incident is patched in place: it keeps its key and its position. *)
Definition override_step (by_id : list (string * Incident)) (item : string * pyval)
  : result (list (string * Incident)) :=
  let '(incident_id_key, patch) := item in
  match Dict.get incident_id_key by_id, patch with
  | Some incident, PDict patch_items =>
      patched <- apply_patch incident patch_items ;;
      Ok (Dict.set incident_id_key patched by_id)
  | _, _ => Ok by_id
  end.

(** The [Incident(...)] built from one element of [manual_incidents]; [None]
    stands for the two [continue] statements. *)
Definition manual_incident (raw : pyval) : result (option Incident) :=
  match raw with
  | PDict raw =>
      let title := PyStr.strip (str (Dict.get_default "title" (PStr "") raw)) in
      let url :=
        PyStr.or_else (PyStr.strip (str (Dict.get_default "url" (PStr "manual://local") raw)))
                      "manual://local" in
      if negb (PyStr.nonempty title) then Ok None
      else
        let text_blob := title ++ " " ++ str (Dict.get_default "summary" (PStr "") raw) in
        let '(location, la, lo) := Location.infer_location text_blob in
        fatalities <- Py.to_int (Dict.get_default "suspected_fatalities" (PInt 0) raw) ;;
        Ok (Some
          {| id := incident_id L url title;
             title := title;
             url := url;
             source := str (Dict.get_default "source" (PStr "manual") raw);
             published_at := str (Dict.get_default "published_at" (PStr "") raw);
             summary := str (Dict.get_default "summary" (PStr "") raw);
             location_text := str (Dict.get_default "location_text" (PStr location) raw);
             lat := Dict.get_default "lat" la raw;
             lon := Dict.get_default "lon" lo raw;
             construction_related :=
               text_to_bool (str (Dict.get_default "construction_related" (PStr "false") raw));
             suspected_fatalities := fatalities;
             source_type := str (Dict.get_default "source_type" (PStr "manual") raw);
             verification_status := str (Dict.get_default "verification_status" (PStr "verified") raw);
             verified_fatalities := Dict.get_default "verified_fatalities" PNone raw;
             notes := str (Dict.get_default "notes" (PStr "") raw) |})
  | _ => Ok None
  end.

(** One iteration of [for raw in ...]: [by_id[incident.id] = incident]. *)
Definition manual_step (by_id : list (string * Incident)) (raw : pyval)
  : result (list (string * Incident)) :=
  made <- manual_incident raw ;;
  match made with
  | Some incident => Ok (Dict.set (id incident) incident by_id)
  | None => Ok by_id
  end.

(** [payload.get("incident_overrides", {}).items()] *)
Definition override_items (payload : list (string * pyval)) : result (list (string * pyval)) :=
  match Dict.get "incident_overrides" payload with
  | None => Ok []
  | Some (PDict items) => Ok items
  | Some _ => Raise AttributeError
  end.

Definition apply_manual_overrides (incidents : list Incident) (payload : list (string * pyval))
  : result (list Incident) :=
  let by_id := index_by_id incidents in
  items <- override_items payload ;;
  by_id <- for_each override_step items by_id ;;
  raws <- Py.iterate (Dict.get_default "manual_incidents" (PList []) payload) ;;
  by_id <- for_each manual_step raws by_id ;;
  Ok (Dict.values by_id).

(** *** [build_dataset] *)

(** The body of the loop over feed items; the state is the list under
    construction and the [seen] set. *)
Definition feed_step (st : list Incident * list string) (item : feed_item)
  : list Incident * list string :=
  let '(incidents, seen) := st in
  let blob := item_title item ++ " " ++ item_description item in
  if negb (likely_relevant blob) then st
  else
    let url := item_link item in
    if negb (PyStr.nonempty url) then st
    else
      let iid := incident_id L url (item_title item) in
      if str_in iid seen then st
      else
        let '(location, la, lo) := Location.infer_location blob in
        ((incidents ++
          [{| id := iid;
              title := item_title item;
              url := url;
              source := item_source item;
              published_at := parse_date L (item_pub_date item);
              summary := item_description item;
              location_text := location;
              lat := la;
              lon := lo;
              construction_related := PyStr.any_in CONSTRUCTION_TERMS (PyStr.lower blob);
              suspected_fatalities := Fatalities.extract_fatalities blob;
              source_type := "news";
              verification_status := "unverified";
              verified_fatalities := PNone;
              notes := "" |}])%list,
         iid :: seen).

(** [parse_date(raw)] with the way it can fail. *)
Definition run_parse_date (raw : string) : result string :=
  match parse_date_raises L raw with
  | Some e => Raise e
  | None => Ok (parse_date L raw)
  end.

(** The body of the loop over feed items as the interpreter runs it: the
    estimator and [parse_date] may raise, and nothing in [build_dataset]
    catches what they raise.  [feed_step] is its value when it returns. *)
Definition feed_step_run (st : list Incident * list string) (item : feed_item)
  : result (list Incident * list string) :=
  let '(incidents, seen) := st in
  let blob := item_title item ++ " " ++ item_description item in
  if negb (likely_relevant blob) then Ok st
  else
    let url := item_link item in
    if negb (PyStr.nonempty url) then Ok st
    else
      let iid := incident_id L url (item_title item) in
      if str_in iid seen then Ok st
      else
        let '(location, la, lo) := Location.infer_location blob in
        fatalities <- Estimator.extract_fatalities blob ;;
        published <- run_parse_date (item_pub_date item) ;;
        Ok ((incidents ++
             [{| id := iid;
                 title := item_title item;
                 url := url;
                 source := item_source item;
                 published_at := published;
                 summary := item_description item;
                 location_text := location;
                 lat := la;
                 lon := lo;
                 construction_related := PyStr.any_in CONSTRUCTION_TERMS (PyStr.lower blob);
                 suspected_fatalities := fatalities;
                 source_type := "news";
                 verification_status := "unverified";
                 verified_fatalities := PNone;
                 notes := "" |}])%list,
            iid :: seen).

(** The body shared by the two archive loops: skip an id already seen. *)
Definition archive_step (st : list Incident * list string) (incident : Incident)
  : list Incident * list string :=
  let '(incidents, seen) := st in
  if str_in (id incident) seen then st
  else ((incidents ++ [incident])%list, id incident :: seen).

Definition wboy_step (st : list Incident * list string) (post : wboy_post)
  : list Incident * list string :=
  match to_wboy_incident L post with
  | None => st
  | Some incident => archive_step st incident
  end.

(** What one run reads from outside: the items of the feeds that could be
    fetched, the lines of the delay page (none if it could not be fetched),
    the sitemap entries, the search posts and the overrides document. *)
Record sources : Type := mkSources {
  feed_items : list feed_item;
  wv511_lines : list string;
  wdtv_entries : list sitemap_entry;
  wboy_posts : list wboy_post;
  manual_overrides : list (string * pyval)
}.

(** [build_dataset] down to the call of [apply_manual_overrides]: the list
    handed to the override engine. *)
Definition collect (src : sources) : list Incident :=
  let '(incidents, seen) := fold_left feed_step (feed_items src) ([], []) in
  let incidents := (incidents ++ parse_wv511_i79_incidents L (wv511_lines src))%list in
  let '(incidents, seen) :=
    fold_left archive_step (fetch_wdtv_historical_incidents L (wdtv_entries src))
              (incidents, seen) in
  let '(incidents, seen) := fold_left wboy_step (wboy_posts src) (incidents, seen) in
  incidents.

(** [incidents.sort(key=lambda x: x.published_at or "", reverse=True)]:
    stable, descending. *)
Fixpoint insert_newest_first (x : Incident) (sorted : list Incident) : list Incident :=
  match sorted with
  | [] => [x]
  | y :: sorted' =>
      if String.leb (published_at y) (published_at x) then x :: sorted
      else y :: insert_newest_first x sorted'
  end.

Definition sort_newest_first (incidents : list Incident) : list Incident :=
  fold_right insert_newest_first [] incidents.

(** The ["incidents"] of the dataset, before [to_dict]. *)
Definition build_dataset (src : sources) : result (list Incident) :=
  incidents <- apply_manual_overrides (collect src) (manual_overrides src) ;;
  Ok (sort_newest_first incidents).

(** *** Notions used to state the properties of the merge *)

(** [lat] and [lon] are both [None] or both set. *)
Definition coords_paired (incident : Incident) : Prop :=
  Py.is_none (lat incident) = Py.is_none (lon incident).

(** The last incident of a list that carries the id [k]. *)
Definition last_with_id (k : string) (incidents : list Incident) : option Incident :=
  find (fun incident => String.eqb (id incident) k) (rev incidents).

Definition find_by_id (k : string) (incidents : list Incident) : option Incident :=
  find (fun incident => String.eqb (id incident) k) incidents.

(** The ids named by the [incident_overrides] of a payload. *)
Definition patched_ids (payload : list (string * pyval)) : list string :=
  match override_items payload with
  | Ok items => Dict.keys items
  | Raise _ => []
  end.

(** The elements of [manual_incidents]. *)
Definition manual_records (payload : list (string * pyval)) : list pyval :=
  match Py.iterate (Dict.get_default "manual_incidents" (PList []) payload) with
  | Ok raws => raws
  | Raise _ => []
  end.

(** The ids of the incidents that the manual records give rise to. *)
Definition manual_ids (payload : list (string * pyval)) : list string :=
  flat_map (fun raw => match manual_incident raw with
                       | Ok (Some incident) => [id incident]
                       | _ => []
                       end)
           (manual_records payload).

(** A manual record that gives [lat] and [lon] together (both keys absent,
    or both present and both null or both non-null). *)
Definition coords_given_together (raw : pyval) : Prop :=
  match raw with
  | PDict d =>
      match Dict.get "lat" d, Dict.get "lon" d with
      | None, None => True
      | Some a, Some b => Py.is_none a = Py.is_none b
      | _, _ => False
      end
  | _ => True
  end.

(** An incident with paired coordinates, or the incident that one of the
    manual records [raws] gives rise to without giving its coordinates
    together. *)
Definition paired_or_split_by (raws : list pyval) (incident : Incident) : Prop :=
  coords_paired incident \/
  exists fields,
    In (PDict fields) raws /\
    manual_incident (PDict fields) = Ok (Some incident) /\
    ~ coords_given_together (PDict fields).

Definition values_paired (by_id : list (string * Incident)) : Prop :=
  Forall (fun kv => coords_paired (snd kv)) by_id.

(** A dict of incidents in which every incident sits under its own id. *)
Definition keyed_by_id (by_id : list (string * Incident)) : Prop :=
  NoDup (Dict.keys by_id) /\ Forall (fun kv => id (snd kv) = fst kv) by_id.

End Merge.

(** A library instance to evaluate the pipeline on concrete inputs: the
    digest reverses its argument and the date parsers return theirs. *)
Definition sample_library : Library :=
  {| sha1_hexdigest := fun s => string_of_list_ascii (rev (list_ascii_of_string s));
     parse_date := fun s => s;
     parse_date_raises := fun _ => None;
     parse_wp_date := fun s => s;
     parse_iso_date := fun s => s;
     parse_wv511_date := fun s => s;
     before_cutoff := fun _ => false;
     repr := fun _ => "" |}.

(** The sample page of the repository's tests. *)
Definition SAMPLE_WV511_LINES : list string :=
  ["I-79 Possible Delay";
   "Last Updated: 02/15/2025 10:30:00 AM";
   "County: Marion County";
   "Description: I-79 southbound lane closure near Fairmont due to crash.";
   "Comments: Use caution";
   "I-77 Some Other Event";
   "County: Kanawha County";
   "Description: I-77 construction.";
   "I-79 Road Work";
   "Last Updated: 02/15/2025 11:00:00 AM";
   "County: Monongalia County";
   "Description: I-79 lane closure for paving near Morgantown."].

(** The incident of the repository's override tests, with a verified count,
    and a second incident under the same id. *)
Definition base_incident : Incident :=
  {| id := "aabbccddeeff";
     title := "Test crash";
     url := "https://example.com/article";
     source := "example.com";
     published_at := "2025-01-01T00:00:00+00:00";
     summary := "A crash on I-79.";
     location_text := "Marion County";
     lat := PFloat 39.4568;
     lon := PFloat (-80.1542);
     construction_related := false;
     suspected_fatalities := 0;
     source_type := "news";
     verification_status := "unverified";
     verified_fatalities := PInt 2;
     notes := "" |}.

Definition later_incident : Incident :=
  {| id := "aabbccddeeff";
     title := "Test crash, second report";
     url := "https://example.com/article";
     source := "example.com";
     published_at := "2025-01-02T00:00:00+00:00";
     summary := "A crash on I-79.";
     location_text := "Marion County";
     lat := PFloat 39.4568;
     lon := PFloat (-80.1542);
     construction_related := false;
     suspected_fatalities := 1;
     source_type := "news";
     verification_status := "unverified";
     verified_fatalities := PNone;
     notes := "" |}.

Definition clearing_patch : list (string * pyval) :=
  [("verified_fatalities", PNone); ("notes", PStr "Confirmed by WVSP")].

(** A feed item whose link is the pseudo-URL that the delay-listing parser
    builds for the block ["I-79 crash"], and whose title is that block's. *)
Definition colliding_feed_item (L : Library) : feed_item :=
  {| item_title := "I-79 crash";
     item_link := WV511_DELAY_URL ++ "#i79-" ++ PyStr.take 10 (sha1_hexdigest L "I-79 crash");
     item_description := "Crash reported by a viewer.";
     item_pub_date := "";
     item_source := "example.com" |}.

Definition empty_payload : list (string * pyval) :=
  [("incident_overrides", PDict []); ("manual_incidents", PList [])].

(** One run in which the feed and the delay listing each give a candidate,
    under the same id. *)
Definition colliding_sources (L : Library) : sources :=
  {| feed_items := [colliding_feed_item L];
     wv511_lines := ["I-79 crash"; "County: Marion County"];
     wdtv_entries := [];
     wboy_posts := [];
     manual_overrides := empty_payload |}.

(** One run with the feed item and the delay page of the repository's tests. *)
Definition feed_sources : sources :=
  {| feed_items :=
       [mkFeedItem "I-79 crash near Fairmont" "https://www.wboy.com/news/i79-crash-fairmont"
          "A crash on I-79 southbound in Marion County." "Mon, 10 Feb 2025 14:30:00 +0000"
          "wboy.com";
        mkFeedItem "Construction update on I-79" "https://www.wdtv.com/news/i79-construction"
          "Lane closures expected through the weekend." "Tue, 11 Feb 2025 09:00:00 +0000"
          "wdtv.com"];
     wv511_lines := SAMPLE_WV511_LINES;
     wdtv_entries := [];
     wboy_posts := [];
     manual_overrides := empty_payload |}.

(** A search post and a sitemap entry that pass the filters. *)
Definition sample_post : wboy_post :=
  {| post_title := "Two dead after I-79 crash near Fairmont";
     post_link := "https://www.wboy.com/news/i-79-crash-fairmont";
     post_excerpt := "A crash on I-79 southbound in Marion County.";
     post_content := "State police said two people were killed.";
     post_date_gmt := "2025-02-10T14:30:00" |}.

Definition sample_entries : list sitemap_entry :=
  [ {| article_url := "https://www.wdtv.com/2025/02/10/weather-update";
       lastmod := "2025-02-10T10:00:00Z";
       page := Some (mkMeta "I-79 wreck in Clarksburg" "" "" "") |};
    {| article_url := "https://www.wdtv.com/2025/02/10/i-79-rollover-bridgeport";
       lastmod := "2025-02-10T12:00:00Z";
       page := None |};
    {| article_url := "https://www.wdtv.com/2025/02/11/interstate-79-crash-clarksburg";
       lastmod := "2025-02-11T08:00:00Z";
       page := Some (mkMeta "" "Tractor trailer crash closes I-79 near Clarksburg" ""
                       "I-79 closed after crash") |} ].

(** One run with a manual record that gives both coordinates. *)
Definition manual_sources : sources :=
  {| feed_items := [];
     wv511_lines := SAMPLE_WV511_LINES;
     wdtv_entries := [];
     wboy_posts := [];
     manual_overrides :=
       [("incident_overrides", PDict []);
        ("manual_incidents",
         PList [PDict [("title", PStr "Manual crash entry");
                       ("url", PStr "https://example.com/manual");
                       ("lat", PFloat 39.5); ("lon", PFloat (-80.1));
                       ("suspected_fatalities", PInt 1)]])] |}.

(** One run whose only input is a manual record that gives [lat] alone. *)
Definition lat_only_sources : sources :=
  {| feed_items := [];
     wv511_lines := [];
     wdtv_entries := [];
     wboy_posts := [];
     manual_overrides :=
       [("incident_overrides", PDict []);
        ("manual_incidents",
         PList [PDict [("title", PStr "I-79 crash at mile marker 120"); ("lat", PFloat 39.5)]])] |}.

(** One run in which the delay listing gives a candidate and the overrides
    document holds the manual record that gives [lat] alone. *)
Definition mixed_sources : sources :=
  {| feed_items := [];
     wv511_lines := ["I-79 crash"; "County: Marion County"];
     wdtv_entries := [];
     wboy_posts := [];
     manual_overrides := manual_overrides lat_only_sources |}.

(* ===================================================================== *)
(** ** Export, summary and the overrides document                         *)
(* ===================================================================== *)

(** [Incident.to_dict] *)
Definition to_dict (incident : Incident) : list (string * pyval) :=
  [("id", PStr (id incident));
   ("title", PStr (title incident));
   ("url", PStr (url incident));
   ("source", PStr (source incident));
   ("published_at", PStr (published_at incident));
   ("summary", PStr (summary incident));
   ("location_text", PStr (location_text incident));
   ("lat", lat incident);
   ("lon", lon incident);
   ("construction_related", PBool (construction_related incident));
   ("suspected_fatalities", PInt (suspected_fatalities incident));
   ("source_type", PStr (source_type incident));
   ("verification_status", PStr (verification_status incident));
   ("verified_fatalities", verified_fatalities incident);
   ("notes", PStr (notes incident))].

(** [effective_fatalities]: [isinstance(v, int)] holds for integers and, as
    [bool] is a subclass of [int], for booleans (which count as 1 and 0). *)
Definition effective_fatalities (incident : Incident) : Z :=
  match verified_fatalities incident with
  | PInt n => n
  | PBool b => if b then 1%Z else 0%Z
  | _ => suspected_fatalities incident
  end.

(** [sum(1 for i in incidents if cond(i))] *)
Definition count_if (cond : Incident -> bool) (incidents : list Incident) : nat :=
  length (filter cond incidents).

(** The ["summary"] of the dataset, without its time stamp. *)
Record summary_stats : Type := mkSummary {
  incident_count : nat;
  total_fatalities : Z;                    (* key "suspected_fatalities" *)
  construction_related_count : nat;
  official_source_count : nat;
  verified_count : nat
}.

Definition summarize (incidents : list Incident) : summary_stats :=
  {| incident_count := length incidents;
     total_fatalities := fold_left Z.add (map effective_fatalities incidents) 0%Z;
     construction_related_count := count_if construction_related incidents;
     official_source_count :=
       count_if (fun i => String.eqb (source_type i) "official_wv511") incidents;
     verified_count :=
       count_if (fun i => str_in (verification_status i) ["official"; "verified"]) incidents |}.

(** What [load_manual_overrides] finds on disk: no file; a file on which
    [read_text] or [json.loads] raises something other than
    [json.JSONDecodeError] (bytes that are not UTF-8, a document nested too
    deep, a number of too many digits); a file that is not JSON; or a decoded
    document. *)
Inductive overrides_file : Type :=
| NoFile : overrides_file
| Unreadable : exn -> overrides_file
| NotJson : overrides_file
| Decoded : pyval -> overrides_file.

(** [d.setdefault(k, default)], for its effect on [d]. *)
Definition setdefault (k : string) (default : pyval) (d : list (string * pyval))
  : list (string * pyval) :=
  match Dict.get k d with
  | Some _ => d
  | None => d ++ [(k, default)]
  end.

(** Only [json.JSONDecodeError] is caught. *)
Definition load_manual_overrides (file : overrides_file) : result (list (string * pyval)) :=
  match file with
  | NoFile => Ok empty_payload
  | Unreadable e => Raise e
  | NotJson => Ok empty_payload
  | Decoded (PDict payload) =>
      Ok (setdefault "manual_incidents" (PList [])
            (setdefault "incident_overrides" (PDict []) payload))
  | Decoded _ => Ok empty_payload
  end.

(** The state of the guarded loops: the incidents appended under the guard
    are [pre ++ post], around the unguarded [middle], and [seen] holds
    exactly their ids, each once. *)
Definition guarded (middle : list Incident) (st : list Incident * list string)
           (pre post : list Incident) : Prop :=
  fst st = pre ++ middle ++ post /\
  map id (pre ++ post) = rev (snd st) /\
  NoDup (snd st).

(** What an incident made from the sitemap entry [entry] looks like. *)
Definition from_sitemap_entry (L : Library) (entry : sitemap_entry) (incident : Incident) : Prop :=
  exists meta,
    page entry = Some meta /\
    url incident = article_url entry /\
    PyStr.any_in WDTV_URL_HINT_TERMS (PyStr.lower (url incident)) = true /\
    title incident = PyStr.or_else (og_title meta) (title_tag meta) /\
    title incident <> "" /\
    summary incident = og_description meta /\
    likely_relevant (title incident ++ " " ++ summary incident ++ " " ++ url incident) = true /\
    is_north_central_context (title incident ++ " " ++ summary incident ++ " " ++ url incident)
    = true /\
    published_at incident
    = parse_iso_date L (PyStr.or_else (published_time meta) (lastmod entry)) /\
    (published_at incident = "" \/ before_cutoff L (published_at incident) = false) /\
    id incident = incident_id L (url incident) (title incident) /\
    source_type incident = "news_archive_wdtv".

(** What an incident appended by the loop over the feed items looks like. *)
Definition from_feed_item (L : Library) (incident : Incident) : Prop :=
  likely_relevant (title incident ++ " " ++ summary incident) = true /\
  url incident <> "" /\
  id incident = incident_id L (url incident) (title incident) /\
  source_type incident = "news" /\
  verification_status incident = "unverified" /\
  verified_fatalities incident = PNone /\
  (0 <= suspected_fatalities incident <= 10)%Z.

(** An incident as the four sources make it, before any override: no
    verified count, an estimate between 0 and 10, and "official" exactly for
    delay-listing records. *)
Definition machine_made (incident : Incident) : Prop :=
  verified_fatalities incident = PNone /\
  (0 <= suspected_fatalities incident <= 10)%Z /\
  ((source_type incident = "official_wv511" /\ verification_status incident = "official") \/
   (source_type incident <> "official_wv511" /\ verification_status incident = "unverified")).

(** Newest first: [a] may stand before [b] in the sorted dataset. *)
Definition not_older (a b : Incident) : Prop :=
  String.leb (published_at b) (published_at a) = true.

(* ===================================================================== *)
(** ** Substitution and [clean_text]                                      *)
(* ===================================================================== *)

Module ReSub.

Import Re.

(** One anchored attempt, for its end.  After an empty match [re.sub] asks
    for a match at the same place that ends further on: [must_advance]. *)
Definition attempt (r : re) (must_advance : bool) (cu : cursor) : option nat :=
  rmatch r cu None (fun _ cu' _ =>
    if (must_advance && Nat.eqb (pos cu') (pos cu))%bool then None else Some (pos cu')).

(** [re.sub(r, repl, s)] for a replacement without group references.  The
    subject is walked from left to right; [inside] counts the characters
    that are still part of the match being replaced.  Where no match starts
    the character is copied. *)
Fixpoint sub_from (r : re) (repl : string) (pv : option ascii) (n : nat) (s : string)
         (inside : nat) : string :=
  match inside with
  | S inside' =>
      match s with
      | EmptyString => EmptyString
      | String c s' => sub_from r repl (Some c) (S n) s' inside'
      end
  | O =>
      let cu := {| prev := pv; pos := n; rest := s |} in
      match s with
      | EmptyString =>
          match attempt r false cu with
          | Some _ => repl
          | None => EmptyString
          end
      | String c s' =>
          let next := sub_from r repl (Some c) (S n) s' in
          match attempt r false cu with
          | None => String c (next 0)
          | Some e =>
              if Nat.eqb e n then
                (repl ++ match attempt r true cu with
                         | Some e' => repl ++ next (e' - n - 1)
                         | None => String c (next 0)
                         end)%string
              else (repl ++ next (e - n - 1))%string
          end
      end
  end.

Definition sub (r : re) (repl s : string) : string := sub_from r repl None 0 s 0.

End ReSub.

(** [<[^>]+>] *)
Definition not_gt (c : ascii) : bool := negb (Ascii.eqb c ">").

Definition TAG_PATTERN : Re.re := Re.Seq (Re.Lit "<") (Re.Seq (Re.Plus not_gt) (Re.Lit ">")).

(** [\s+] *)
Definition SPACE_PATTERN : Re.re := Re.Plus PyStr.is_space.

(** [clean_text]; [value or ""] turns [None] into the empty text. *)
Definition clean_text (value : option string) : string :=
  let value := match value with Some v => v | None => EmptyString end in
  let value := ReSub.sub TAG_PATTERN " " value in
  let value := ReSub.sub SPACE_PATTERN " " value in
  PyStr.strip value.

(** The length of the longest prefix whose characters are all in a class. *)
Fixpoint run (p : ascii -> bool) (s : string) : nat :=
  match s with
  | EmptyString => 0
  | String c s' => if p c then S (run p s') else 0
  end.

(** Blank characters stand alone and are plain blanks; [after_blank] tells
    whether the character before the text is one. *)
Fixpoint spaced (after_blank : bool) (s : string) : bool :=
  match s with
  | EmptyString => true
  | String c s' =>
      if PyStr.is_space c
      then (Ascii.eqb c " " && negb after_blank && spaced true s')%bool
      else spaced false s'
  end.

(** [">" in s] *)
Fixpoint has_gt (s : string) : bool :=
  match s with
  | EmptyString => false
  | String c s' => (Ascii.eqb c ">" || has_gt s')%bool
  end.

(** No [<] of the text opens a tag: each is followed at once by [>], or by
    no [>] at all. *)
Fixpoint tagless (s : string) : bool :=
  match s with
  | EmptyString => true
  | String c s' =>
      ((if Ascii.eqb c "<" then (String.prefix ">" s' || negb (has_gt s'))%bool else true)
       && tagless s')%bool
  end.

(* ===================================================================== *)
(** ** The archive iterators                                              *)
(* ===================================================================== *)

(** How a call of [fetch_json] ends: [HTTPError] with its status code, any
    other exception, or the decoded body. *)
Inductive api_response : Type :=
| HttpError : Z -> api_response
| OtherError : api_response
| Body : pyval -> api_response.

Definition WBOY_SEARCH_TERMS : list string :=
  ["i-79 accident"; "i-79 crash"; "interstate 79 wreck"; "i-79 marion county";
   "i-79 monongalia county"; "i-79 harrison county"].

(** [row.get("id")] when [row] is a dict and the value passes
    [isinstance(post_id, int)]: an integer, or a boolean, which is an
    integer to Python and equal to 1 or 0 in a set. *)
Definition post_id (row : pyval) : option Z :=
  match row with
  | PDict d =>
      match Dict.get "id" d with
      | Some (PInt n) => Some n
      | Some (PBool b) => Some (if b then 1 else 0)%Z
      | _ => None
      end
  | _ => None
  end.

(** The generator's state: [seen_post_ids] and the rows yielded so far, in
    the order they were yielded. *)
Record post_scan : Type := mkPostScan {
  seen_post_ids : list Z;
  posts : list pyval
}.

Definition take_row (st : post_scan) (row : pyval) : post_scan :=
  match post_id row with
  | Some n =>
      if existsb (Z.eqb n) (seen_post_ids st) then st
      else {| seen_post_ids := n :: seen_post_ids st; posts := posts st ++ [row] |}
  | None => st
  end.

(** The rows yielded so far are exactly those whose ids were put into
    [seen_post_ids], in the order they were put there, each id once. *)
Definition posts_indexed (st : post_scan) : Prop :=
  map post_id (posts st) = map Some (rev (seen_post_ids st)) /\ NoDup (seen_post_ids st).

(** A response that leaves the loop over the pages of a term. *)
Definition ends_term (response : api_response) : bool :=
  match response with
  | HttpError code => (code =? 400)%Z
  | OtherError => false
  | Body (PList (_ :: _)) => false
  | Body _ => true
  end.

Section WboyArchive.
(** The API as the script meets it: the answer to the request for a page of
    a term, which may also depend on how many requests went before. *)
Variable api : nat -> string -> nat -> api_response.

(** The loop over the pages of one term; [sent] counts the requests. *)
Fixpoint search_pages (term : string) (pages : list nat) (sent : nat) (st : post_scan)
  : nat * post_scan :=
  match pages with
  | [] => (sent, st)
  | page :: pages' =>
      match api sent term page with
      | HttpError code =>
          if (code =? 400)%Z then (S sent, st)
          else search_pages term pages' (S sent) st
      | OtherError => search_pages term pages' (S sent) st
      | Body (PList (row :: rows)) =>
          search_pages term pages' (S sent) (fold_left take_row (row :: rows) st)
      | Body _ => (S sent, st)
      end
  end.

Definition search_term (acc : nat * post_scan) (term : string) : nat * post_scan :=
  search_pages term (seq 1 14) (fst acc) (snd acc).

(** [iter_wboy_historical_posts], run to its end: the number of requests
    made and the rows yielded. *)
Definition iter_wboy_historical_posts : nat * post_scan :=
  fold_left search_term WBOY_SEARCH_TERMS (0, mkPostScan [] []).

End WboyArchive.

Definition WDTV_SITEMAP_INDEX_URL : string :=
  "https://www.wdtv.com/arc/outboundfeeds/sitemap-index/?outputType=xml".

Definition WDTV_NEWS_SITEMAP_BASE : string :=
  "https://www.wdtv.com/arc/outboundfeeds/sitemap/category/news/?outputType=xml".

(** What the script reads from a sitemap document: the [loc] text of its
    [sitemap] nodes, and the [loc] and [lastmod] texts of its [url] nodes
    (empty where the element is missing). *)
Record sitemap_doc : Type := mkDoc {
  sitemap_locs : list string;
  url_rows : list (string * string)
}.

Record entry_scan : Type := mkEntryScan {
  seen_urls : list string;
  entries : list (string * string)
}.

Definition take_entry (st : entry_scan) (row : string * string) : entry_scan :=
  let article_url := PyStr.strip (fst row) in
  let lastmod := PyStr.strip (snd row) in
  if (PyStr.nonempty article_url && negb (str_in article_url (seen_urls st)))%bool
  then {| seen_urls := article_url :: seen_urls st;
          entries := entries st ++ [(article_url, lastmod)] |}
  else st.

(** The entries yielded so far are those whose URLs were put into
    [seen_urls], in that order and each URL once; every yielded URL is
    non-empty, and both fields are stripped. *)
Definition entries_indexed (st : entry_scan) : Prop :=
  map fst (entries st) = rev (seen_urls st) /\
  NoDup (seen_urls st) /\
  Forall (fun e => fst e <> EmptyString /\
                   PyStr.strip (fst e) = fst e /\ PyStr.strip (snd e) = snd e)
         (entries st).

(** A page of the second pass that counts as empty: the request or the
    parse failed, or the document has no [url] node. *)
Definition empty_page (response : option sitemap_doc) : bool :=
  match response with
  | Some doc => match url_rows doc with [] => true | _ :: _ => false end
  | None => true
  end.

Definition page_url (offset : nat) : string :=
  (WDTV_NEWS_SITEMAP_BASE
   ++ (if Nat.eqb offset 0 then "" else "&from=" ++ Py.str_of_int (Z.of_nat offset)))%string.

(** [range(0, 5100, 100)] *)
Definition PAGE_OFFSETS : list nat := map (fun k => 100 * k) (seq 0 51).

Section WdtvArchive.
(** [parse_xml_bytes(fetch(url))]: nothing when the request raised or the
    bytes are not XML.  The answer may depend on the requests made before. *)
Variable web : nat -> string -> option sitemap_doc.

(** The body of the loop over the [sitemap] nodes of the index. *)
Definition read_child (acc : nat * entry_scan) (loc_text : string) : nat * entry_scan :=
  let loc := PyStr.strip loc_text in
  if negb (PyStr.nonempty loc) then acc
  else
    match web (fst acc) loc with
    | None => (S (fst acc), snd acc)
    | Some child => (S (fst acc), fold_left take_entry (url_rows child) (snd acc))
    end.

Definition first_pass : nat * entry_scan :=
  match web 0 WDTV_SITEMAP_INDEX_URL with
  | None => (1, mkEntryScan [] [])
  | Some root => fold_left read_child (sitemap_locs root) (1, mkEntryScan [] [])
  end.

(** The walk over the category pages. *)
Fixpoint walk_pages (offsets : list nat) (empty_pages : nat) (sent : nat) (st : entry_scan)
  : nat * entry_scan :=
  match offsets with
  | [] => (sent, st)
  | offset :: offsets' =>
      match web sent (page_url offset) with
      | None =>
          if Nat.leb 3 (S empty_pages) then (S sent, st)
          else walk_pages offsets' (S empty_pages) (S sent) st
      | Some root =>
          match url_rows root with
          | [] =>
              if Nat.leb 3 (S empty_pages) then (S sent, st)
              else walk_pages offsets' (S empty_pages) (S sent) st
          | rows => walk_pages offsets' 0 (S sent) (fold_left take_entry rows st)
          end
      end
  end.

(** [iter_wdtv_sitemap_entries], run to its end: the number of requests
    made and the entries yielded. *)
Definition iter_wdtv_sitemap_entries : nat * entry_scan :=
  walk_pages PAGE_OFFSETS 0 (fst first_pass) (snd first_pass).

End WdtvArchive.

(** A small API: two terms answer with overlapping pages, the rest with a
    400. *)
Definition sample_row (n : Z) (title : string) : pyval :=
  PDict [("id", PInt n); ("title", PStr title)].

Definition sample_api (sent : nat) (term : string) (page : nat) : api_response :=
  if (String.eqb term "i-79 accident" && Nat.eqb page 1)%bool
  then Body (PList [sample_row 7 "a"; PStr "stray"; sample_row 8 "b"; sample_row 7 "c"])
  else if (String.eqb term "i-79 accident" && Nat.eqb page 2)%bool
  then Body (PList [])
  else if (String.eqb term "i-79 crash" && Nat.eqb page 1)%bool
  then OtherError
  else if (String.eqb term "i-79 crash" && Nat.eqb page 2)%bool
  then Body (PList [sample_row 8 "b"; PDict [("id", PBool true)]; sample_row 9 "d"])
  else HttpError 400.

(** A small site: an index with one child sitemap, one category page, then
    nothing. *)
Definition sample_web (sent : nat) (url : string) : option sitemap_doc :=
  if String.eqb url WDTV_SITEMAP_INDEX_URL
  then Some (mkDoc [" https://www.wdtv.com/child.xml "; "  "] [])
  else if String.eqb url "https://www.wdtv.com/child.xml"
  then Some (mkDoc [] [(" https://www.wdtv.com/a ", "2024-01-01"); ("", "2024-01-02")])
  else if String.eqb url (page_url 0)
  then Some (mkDoc [] [("https://www.wdtv.com/a", "2023-01-01");
                       ("https://www.wdtv.com/b", " 2023-02-01 ")])
  else if String.eqb url (page_url 200)
  then Some (mkDoc [] [])
  else None.

(* ===================================================================== *)
(** ** Text as code points: the resolver and the delay listing            *)
(* ===================================================================== *)

(** A [str] is a sequence of code points, and [str.lower], [str.strip] and
    the class [\w] consult the character database of the interpreter.  The
    definitions above read text as 8-bit characters with the ASCII part of
    that database, which is what the interpreter does on ASCII text.  The
    location resolver and the scanner of the delay listing are given here on
    code points, with the look-ups into the database as parameters, so that
    what is proved of them holds on every text and for the database of the
    interpreter, whatever it is. *)
Module Unicode.

Definition text : Type := list N.

(** The code points of an ASCII literal of the script. *)
Definition of_ascii (s : string) : text := map N_of_ascii (list_ascii_of_string s).

Record Database : Type := {
  lower : text -> text;          (* str.lower *)
  is_space : N -> bool;          (* str.isspace: what str.strip removes *)
  is_word : N -> bool            (* the class \w of a str pattern *)
}.

(** [a == b] *)
Fixpoint eqb (a b : text) : bool :=
  match a, b with
  | [], [] => true
  | x :: a', y :: b' => (N.eqb x y && eqb a' b')%bool
  | _, _ => false
  end.

(** [s.startswith(p)] *)
Fixpoint startswith (s p : text) : bool :=
  match p, s with
  | [], _ => true
  | a :: p', c :: s' => (N.eqb a c && startswith s' p')%bool
  | _ :: _, [] => false
  end.

(** [sub in s] *)
Fixpoint contains (sub s : text) : bool :=
  if startswith s sub then true
  else match s with
       | [] => false
       | _ :: s' => contains sub s'
       end.

Definition nonempty (s : text) : bool :=
  match s with [] => false | _ => true end.

(** [a or b] *)
Definition or_else (a b : text) : text := if nonempty a then a else b.

(** [s.replace(old, new, 1)] *)
Fixpoint replace_first (old new s : text) : text :=
  if startswith s old then new ++ skipn (length old) s
  else match s with
       | [] => []
       | c :: s' => c :: replace_first old new s'
       end.

(** [s.split(sep, 1)] for a one-character separator: one or two pieces. *)
Fixpoint split1 (sep : N) (s : text) : list text :=
  match s with
  | [] => [[]]
  | c :: s' =>
      if N.eqb c sep then [[]; s']
      else match split1 sep s' with
           | h :: t => (c :: h) :: t
           | [] => [[c]]
           end
  end.

Section Resolver.

Variable U : Database.

Definition word_before (pv : option N) : bool :=
  match pv with Some c => is_word U c | None => false end.

Definition word_after (s : text) : bool :=
  match s with c :: _ => is_word U c | [] => false end.

(** [\b] between the character [pv] (if any) and the text [s] that follows. *)
Definition at_boundary (pv : option N) (s : text) : bool :=
  xorb (word_before pv) (word_after s).

(** Consume the literal [l]: the last character passed and what remains. *)
Fixpoint eat (l : text) (pv : option N) (s : text) : option (option N * text) :=
  match l with
  | [] => Some (pv, s)
  | a :: l' =>
      match s with
      | c :: s' => if N.eqb a c then eat l' (Some c) s' else None
      | [] => None
      end
  end.

(** One anchored attempt of [\bname\b].  The pattern is a literal between
    two assertions: an attempt has one way to succeed and nothing to
    backtrack over. *)
Definition word_here (name : text) (pv : option N) (s : text) : bool :=
  (at_boundary pv s &&
   match eat name pv s with
   | Some (pv', s') => at_boundary pv' s'
   | None => false
   end)%bool.

(** [re.search(rf"\b{re.escape(place)}\b", lowered)], for its
    [match.start()]: the attempt is made at every index from left to right,
    the end of the subject included. *)
Fixpoint word_search (name : text) (pv : option N) (n : nat) (s : text) : option nat :=
  if word_here name pv s then Some n
  else match s with
       | [] => None
       | c :: s' => word_search name (Some c) (S n) s'
       end.

(** The pattern of [name] matches in [s], preceded by [pv], with its match
    starting [i] characters further on. *)
Fixpoint word_at (name : text) (pv : option N) (s : text) (i : nat) : bool :=
  match i with
  | O => word_here name pv s
  | S i' => match s with
            | [] => false
            | c :: s' => word_at name (Some c) s' i'
            end
  end.

(** The first loop: one [(match.start(), place)] per county that matches. *)
Fixpoint collect_matches (places : list string) (lowered : text) : list (nat * string) :=
  match places with
  | [] => []
  | place :: places' =>
      match word_search (of_ascii place) None 0 lowered with
      | Some start => (start, place) :: collect_matches places' lowered
      | None => collect_matches places' lowered
      end
  end.

(** The second loop: the first entry of the table, in table order, whose key
    occurs in the text. *)
Fixpoint first_hint (table : list (string * (float * float))) (lowered : text)
  : option (string * (float * float)) :=
  match table with
  | [] => None
  | (place, coords) :: table' =>
      if contains (of_ascii place) lowered then Some (place, coords)
      else first_hint table' lowered
  end.

(** [infer_location]; the name returned is [title()] of a key of the table,
    which is ASCII, or the sentinel. *)
Definition infer_location (t : text) : string * pyval * pyval :=
  let lowered := lower U t in
  let county_matches := collect_matches Location.county_names lowered in
  match Location.sorted_by_start county_matches with
  | (_, best) :: _ =>
      match Dict.get best LOCATION_HINTS with
      | Some (la, lo) => (PyStr.title best, PFloat la, PFloat lo)
      | None => Location.unspecified
      end
  | [] =>
      match first_hint LOCATION_HINTS lowered with
      | Some (place, (la, lo)) => (PyStr.title place, PFloat la, PFloat lo)
      | None => Location.unspecified
      end
  end.

End Resolver.

(** The four labelled values collected for one block. *)
Record block : Type := mkBlock {
  last_updated : text;
  county : text;
  description : text;
  comments : text                    (* the local [notes] *)
}.

Definition empty_block : block := mkBlock [] [] [] [].

(** [county_lower in NORTH_CENTRAL_COUNTIES] *)
Definition in_scope (county_lower : text) : bool :=
  existsb (fun name => eqb county_lower (of_ascii name)) NORTH_CENTRAL_COUNTIES.

Section Scanner.

Variable U : Database.

(** The [Incident(...)] that the loop appends for an accepted block, with
    the statements that prepare its arguments, as a function of the locals
    they read: [event_title] and the four values of the block.  They may
    raise (the estimator does on an oversized count), which ends the loop.
    The scanner is the same loop whatever they compute. *)
Variable make_incident : text -> block -> result Incident.

Fixpoint lstrip (s : text) : text :=
  match s with
  | [] => []
  | c :: s' => if is_space U c then lstrip s' else s
  end.

Fixpoint rstrip (s : text) : text :=
  match s with
  | [] => []
  | c :: s' =>
      match rstrip s' with
      | [] => if is_space U c then [] else [c]
      | r => c :: r
      end
  end.

(** [s.strip()] *)
Definition strip (s : text) : text := rstrip (lstrip s).

(** [probe.split(":", 1)[1].strip()]; the subscript is only evaluated on a
    line that starts with a label ending in a colon. *)
Definition field_value (probe : text) : text :=
  strip (nth 1 (split1 58 probe) []).

(** The inner [while j < len(lines)] loop, started on [lines[j:]]. *)
Fixpoint scan_block (probes : list text) (j : nat) (b : block) : nat * block :=
  match probes with
  | [] => (j, b)
  | probe :: probes' =>
      if startswith probe (of_ascii "Last Updated:") then
        scan_block probes' (S j)
          (mkBlock (field_value probe) (county b) (description b) (comments b))
      else if startswith probe (of_ascii "County:") then
        scan_block probes' (S j)
          (mkBlock (last_updated b) (field_value probe) (description b) (comments b))
      else if startswith probe (of_ascii "Description:") then
        scan_block probes' (S j)
          (mkBlock (last_updated b) (county b) (field_value probe) (comments b))
      else if startswith probe (of_ascii "Comments:") then
        scan_block probes' (S j)
          (mkBlock (last_updated b) (county b) (description b) (field_value probe))
      else if (startswith probe (of_ascii "I-")
               && negb (startswith probe (of_ascii "I-79")))%bool then (j, b)
      else if startswith probe (of_ascii "I-79") then (j, b)
      else scan_block probes' (S j) b
  end.

(** The block that starts at line [i]: where its scan ends and what it holds. *)
Definition block_at (lines : list text) (i : nat) : nat * block :=
  scan_block (skipn (i + 1) lines) (i + 1) empty_block.

Definition event_title_of (line : text) : text :=
  or_else (strip (replace_first (of_ascii "I-79") [] line)) (of_ascii "Traffic Event").

(** Post-block validation: [None] stands for the two [continue] statements. *)
Definition block_incident (event_title : text) (b : block) : result (option Incident) :=
  if negb (in_scope (lower U (county b))) then Ok None
  else if (nonempty (description b)
           && negb (contains (of_ascii "i-79") (lower U (description b))))%bool
       then Ok None
  else incident <- make_incident event_title b ;; Ok (Some incident).

(** One iteration of the outer loop at index [i] on the line [lines[i]]:
    the next index and the incidents appended. *)
Definition scan_step (lines : list text) (i : nat) (line : text) (incidents : list Incident)
  : result (nat * list Incident) :=
  if negb (startswith line (of_ascii "I-79")) then Ok (i + 1, incidents)
  else
    let '(j, b) := block_at lines i in
    made <- block_incident (event_title_of line) b ;;
    match made with
    | None => Ok (Nat.max (i + 1) j, incidents)
    | Some incident => Ok (Nat.max (i + 1) j, incidents ++ [incident])
    end.

(** The outer [while i < len(lines)] loop, with a bound on the number of
    iterations; [None] means that the bound was reached first, [Some] holds
    the list returned or the exception that ended the loop. *)
Fixpoint scan_loop (fuel : nat) (lines : list text) (i : nat) (incidents : list Incident)
  : option (result (list Incident)) :=
  match nth_error lines i with
  | None => Some (Ok incidents)
  | Some line =>
      match fuel with
      | O => None
      | S fuel' =>
          match scan_step lines i line incidents with
          | Ok (i', incidents') => scan_loop fuel' lines i' incidents'
          | Raise e => Some (Raise e)
          end
      end
  end.

(** One iteration per line is always enough, see [out_of_scope_block_excluded]. *)
Definition parse_wv511_i79_incidents (lines : list text) : result (list Incident) :=
  match scan_loop (length lines) lines 0 [] with
  | Some outcome => outcome
  | None => Ok []
  end.

(** An incident made from a block of [lines] whose County value is in scope. *)
Definition from_in_scope_block (lines : list text) (incident : Incident) : Prop :=
  exists i line,
    nth_error lines i = Some line /\
    startswith line (of_ascii "I-79") = true /\
    in_scope (lower U (county (snd (block_at lines i)))) = true /\
    make_incident (event_title_of line) (snd (block_at lines i)) = Ok incident.

End Scanner.

(** Two databases to evaluate on.  [ascii_database] is the part of the
    interpreter's database below code point 128, [latin1_database] its part
    below 256; the code points beyond are in no class and have no case
    there, which is not so in the interpreter. *)
Definition between (lo hi c : N) : bool := (N.leb lo c && N.leb c hi)%bool.

Definition ascii_database : Database :=
  {| lower := map (fun c => if between 65 90 c then (c + 32)%N else c);
     is_space := fun c => (between 9 13 c || between 28 32 c)%bool;
     is_word := fun c =>
       (between 48 57 c || between 65 90 c || N.eqb c 95 || between 97 122 c)%bool |}.

Definition latin1_database : Database :=
  {| lower := map (fun c => if (between 65 90 c || between 192 214 c || between 216 222 c)%bool
                            then (c + 32)%N else c);
     is_space := fun c =>
       (between 9 13 c || between 28 32 c || N.eqb c 133 || N.eqb c 160)%bool;
     is_word := fun c =>
       (between 48 57 c || between 65 90 c || N.eqb c 95 || between 97 122 c
        || N.eqb c 170 || between 178 179 c || N.eqb c 181 || between 185 186 c
        || between 188 190 c || between 192 214 c || between 216 246 c
        || between 248 255 c)%bool |}.

End Unicode.

(** An ASCII text back as a string, and [wv511_incident] on the values of a
    block of ASCII text, with the exception of the estimator. *)
Definition text_to_string (t : Unicode.text) : string :=
  string_of_list_ascii (map ascii_of_N t).

Definition ascii_block (b : Unicode.block) : block :=
  {| last_updated := text_to_string (Unicode.last_updated b);
     county := text_to_string (Unicode.county b);
     description := text_to_string (Unicode.description b);
     comments := text_to_string (Unicode.comments b) |}.

Definition ascii_wv511_incident (L : Library) (event_title : Unicode.text) (b : Unicode.block)
  : result Incident :=
  _ <- Estimator.extract_fatalities (blob_of (text_to_string event_title) (ascii_block b)) ;;
  Ok (wv511_incident L (text_to_string event_title) (ascii_block b)).

(* ===================================================================== *)
(** * Properties                                                          *)
(* ===================================================================== *)

(** ** The matcher *)

Section MatcherFacts.

Import Re.

Lemma plus_run_calls (R : Type) (p : ascii -> bool) (s : string) :
  forall pv n (k : string -> cursor -> option R) x,
    plus_run p s pv n k = Some x -> exists t cu, k t cu = Some x.
Proof.
  induction s as [|c s' IH]; intros pv n k x H; simpl in H; [discriminate|].
  destruct (p c); [|discriminate].
  destruct (plus_run p s' (Some c) (S n) (fun t cu => k (String c t) cu)) as [y|] eqn:E.
  - inversion H; subst y. apply IH in E. destruct E as (t & cu & E). eauto.
  - eauto.
Qed.

(** A pattern without a group hands the capture it received to what follows. *)
Lemma capture_free_keeps (R : Type) (r : re) :
  capture_free r = true ->
  forall cu g (k : @cont R) x,
    rmatch r cu g k = Some x -> exists t cu', k t cu' g = Some x.
Proof.
  induction r as [|l|p|a IHa b IHb|a IHa b IHb|a IHa|]; intros F cu g k x H; simpl in *.
  - eauto.
  - destruct (eat l cu); [eauto|discriminate].
  - apply plus_run_calls in H. exact H.
  - apply andb_prop in F. destruct F as [Fa Fb].
    apply (IHa Fa) in H. destruct H as (ta & cu' & H).
    apply (IHb Fb) in H. destruct H as (tb & cu'' & H). eauto.
  - apply andb_prop in F. destruct F as [Fa Fb].
    destruct (rmatch a cu g k) as [y|] eqn:E.
    + inversion H; subst y. exact (IHa Fa _ _ _ _ E).
    + exact (IHb Fb _ _ _ _ H).
  - discriminate.
  - destruct (at_boundary cu); [eauto|discriminate].
Qed.

(** A successful attempt is an answer of the continuation. *)
Lemma rmatch_calls (R : Type) (r : re) :
  forall cu g (k : @cont R) x,
    rmatch r cu g k = Some x -> exists t cu' g', k t cu' g' = Some x.
Proof.
  induction r as [|l|p|a IHa b IHb|a IHa b IHb|a IHa|]; intros cu g k x H; simpl in *.
  - eauto.
  - destruct (eat l cu); [eauto|discriminate].
  - apply plus_run_calls in H. destruct H as (t & cu' & H). eauto.
  - apply IHa in H. destruct H as (ta & cu' & g' & H).
    apply IHb in H. destruct H as (tb & cu'' & g'' & H). eauto.
  - destruct (rmatch a cu g k) as [y|] eqn:E.
    + inversion H; subst y. exact (IHa _ _ _ _ E).
    + exact (IHb _ _ _ _ H).
  - apply IHa in H. destruct H as (t & cu' & g' & H). eauto.
  - destruct (at_boundary cu); [eauto|discriminate].
Qed.

Lemma match_here_start (r : re) (cu : cursor) (m : match_obj) :
  match_here r cu = Some m -> m_start m = pos cu.
Proof.
  unfold match_here. intros H. apply rmatch_calls in H.
  destruct H as (t & cu' & g' & H). inversion H. reflexivity.
Qed.

Lemma cursor_from_pos (s : string) :
  forall i pv n cu, cursor_from pv n s i = Some cu -> pos cu = n + i.
Proof.
  induction s as [|c s' IH]; intros [|i] pv n cu H; simpl in H;
    try discriminate; try (inversion H; simpl; lia).
  apply IH in H. lia.
Qed.

(** [search] returns the leftmost position at which an attempt succeeds. *)
Lemma search_from_leftmost (r : re) (s : string) :
  forall pv n m,
    search_from r pv n s = Some m ->
    exists i cu,
      cursor_from pv n s i = Some cu /\ match_here r cu = Some m /\
      forall j cu', j < i -> cursor_from pv n s j = Some cu' -> match_here r cu' = None.
Proof.
  induction s as [|c s' IH]; intros pv n m H; simpl in H;
    destruct (match_here r {| prev := pv; pos := n; rest := _ |}) as [m'|] eqn:E;
    try discriminate.
  - inversion H; subst m'. exists 0, {| prev := pv; pos := n; rest := "" |}.
    repeat split; try assumption. intros j cu' Hj. lia.
  - inversion H; subst m'. exists 0, {| prev := pv; pos := n; rest := String c s' |}.
    repeat split; try assumption. intros j cu' Hj. lia.
  - apply IH in H. destruct H as (i & cu & Hc & Hm & Hmin).
    exists (S i), cu. repeat split; try assumption.
    intros [|j] cu' Hj Hcu'; simpl in Hcu'.
    + inversion Hcu'; subst cu'. exact E.
    + apply (Hmin j); [lia|assumption].
Qed.

Lemma search_from_none (r : re) (s : string) :
  forall pv n, search_from r pv n s = None ->
    forall j cu, cursor_from pv n s j = Some cu -> match_here r cu = None.
Proof.
  induction s as [|c s' IH]; intros pv n H j cu Hc; simpl in H;
    destruct (match_here r {| prev := pv; pos := n; rest := _ |}) as [m'|] eqn:E;
    try discriminate.
  - destruct j; simpl in Hc; [|discriminate]. inversion Hc; subst cu. exact E.
  - destruct j as [|j]; simpl in Hc.
    + inversion Hc; subst cu. exact E.
    + exact (IH _ _ H j cu Hc).
Qed.

Lemma search_leftmost (r : re) (s : string) (m : match_obj) :
  search r s = Some m ->
  matches_at r s (m_start m) = true /\
  forall j, j < m_start m -> matches_at r s j = false.
Proof.
  unfold search, matches_at. intros H.
  apply search_from_leftmost in H. destruct H as (i & cu & Hc & Hm & Hmin).
  assert (Hs : m_start m = i).
  { rewrite (match_here_start _ _ _ Hm). apply cursor_from_pos in Hc. lia. }
  rewrite Hs. split.
  - rewrite Hc, Hm. reflexivity.
  - intros j Hj. destruct (cursor_from None 0 s j) as [cu'|] eqn:E; [|reflexivity].
    rewrite (Hmin j cu' Hj E). reflexivity.
Qed.

Lemma search_none (r : re) (s : string) :
  search r s = None -> forall j, matches_at r s j = false.
Proof.
  unfold search, matches_at. intros H j.
  destruct (cursor_from None 0 s j) as [cu|] eqn:E; [|reflexivity].
  rewrite (search_from_none _ _ _ _ H j cu E). reflexivity.
Qed.

(** A match anywhere makes [search] succeed, no further right. *)
Lemma search_finds (r : re) (s : string) (i : nat) :
  matches_at r s i = true -> exists m, search r s = Some m /\ m_start m <= i.
Proof.
  intros H. destruct (search r s) as [m|] eqn:E.
  - exists m. split; [reflexivity|].
    destruct (le_lt_dec (m_start m) i) as [Hle|Hlt]; [assumption|].
    apply search_leftmost in E. destruct E as [_ E].
    rewrite (E i Hlt) in H. discriminate.
  - rewrite (search_none _ _ E i) in H. discriminate.
Qed.

End MatcherFacts.

(** ** The fatality estimator *)

Section FatalityFacts.

Import Re Fatalities.

Lemma number_word_capture (R : Type) (cu : cursor) (g : option string) (k : @cont R) (x : R) :
  rmatch number_word cu g k = Some x ->
  exists w cu', In w number_words /\ k w cu' g = Some x.
Proof.
  unfold number_word, number_words. cbn [rmatch]. intros H.
  repeat match type of H with
         | match match eat ?l cu with _ => _ end with _ => _ end = _ =>
             destruct (eat l cu) as [?cu|];
             [ match type of H with
               | match k ?w ?c g with _ => _ end = _ =>
                   destruct (k w c g) as [?y|] eqn:?E;
                   [ inversion H; subst; exists w, c; split; [simpl; tauto | assumption] | ]
               end | ]
         end.
  all: try (destruct (eat "six" cu) as [cu6|]; [|discriminate];
            exists "six", cu6; split; [simpl; tauto | assumption]).
Qed.

(** Both spelled-number patterns capture one of the six words. *)
Lemma spelled_capture (tail : re) (s : string) (m : match_obj) :
  capture_free tail = true ->
  search (Seq Bnd (Seq (Grp number_word) tail)) s = Some m ->
  In (m_group1 m) number_words.
Proof.
  intros F H. unfold search in H. apply search_from_leftmost in H.
  destruct H as (i & cu & _ & H & _).
  unfold match_here in H. cbn [rmatch] in H.
  destruct (at_boundary cu); [|discriminate].
  apply number_word_capture in H. destruct H as (w & cu' & Hw & H).
  apply (capture_free_keeps _ _ F) in H. destruct H as (t & cu'' & H).
  inversion H. simpl. exact Hw.
Qed.

Lemma spelled_range (w : string) :
  In w number_words -> (1 <= spelled SPELLED_NUMBERS w <= 6)%Z.
Proof.
  unfold number_words. simpl.
  intros [H|[H|[H|[H|[H|[H|[]]]]]]]; subst w; vm_compute; split; discriminate.
Qed.

Lemma numeric_count_accepted (ps : list re) (lowered : string) (value : Z) :
  numeric_count ps lowered = Some value -> accepted value = true.
Proof.
  induction ps as [|pattern ps IH]; simpl; [discriminate|].
  destruct (search pattern lowered) as [m|]; [|exact IH].
  destruct (accepted (PyStr.digits_value 0 (m_group1 m))) eqn:E; [|exact IH].
  intros H. inversion H; subst value. exact E.
Qed.

Lemma accepted_range (value : Z) : accepted value = true <-> (0 < value <= 10)%Z.
Proof. unfold accepted. rewrite andb_true_iff, Z.ltb_lt, Z.leb_le. tauto. Qed.

(** With a fatal clue in the text the estimate is a count between 1 and 10. *)
Lemma estimate_with_clue (text : string) :
  PyStr.any_in fatal_clues (PyStr.lower text) = true ->
  (1 <= extract_fatalities text <= 10)%Z.
Proof.
  intros Hclue. unfold extract_fatalities. rewrite Hclue. cbn [negb].
  destruct (numeric_count patterns (PyStr.lower text)) as [value|] eqn:En.
  - apply numeric_count_accepted, accepted_range in En. lia.
  - destruct (search pat_word_dead (PyStr.lower text)) as [m|] eqn:E1.
    + apply spelled_capture in E1; [|reflexivity]. apply spelled_range in E1. lia.
    + destruct (search pat_word_killed (PyStr.lower text)) as [m|] eqn:E2.
      * apply spelled_capture in E2; [|reflexivity]. apply spelled_range in E2. lia.
      * lia.
Qed.

Lemma estimate_without_clue (text : string) :
  PyStr.any_in fatal_clues (PyStr.lower text) = false -> extract_fatalities text = 0%Z.
Proof. intros H. unfold extract_fatalities. rewrite H. reflexivity. Qed.

(** The total estimator is the value of the estimator whenever it returns. *)
Lemma estimator_numeric (ps : list re) (lowered : string) (found : option Z) :
  Estimator.numeric_count ps lowered = Ok found -> numeric_count ps lowered = found.
Proof.
  induction ps as [|pattern ps IH]; simpl; [intros H; inversion H; reflexivity|].
  destruct (search pattern lowered) as [m|]; [|exact IH].
  unfold Estimator.int_of_capture.
  destruct (Nat.ltb _ _); simpl; [discriminate|].
  destruct (accepted _); [intros H; inversion H; reflexivity|exact IH].
Qed.

Lemma estimator_returns (text : string) (n : Z) :
  Estimator.extract_fatalities text = Ok n -> extract_fatalities text = n.
Proof.
  unfold Estimator.extract_fatalities, extract_fatalities.
  destruct (negb _); [intros H; inversion H; reflexivity|].
  destruct (Estimator.numeric_count patterns (PyStr.lower text)) as [found|e] eqn:E;
    cbn [bind]; [|discriminate].
  rewrite (estimator_numeric _ _ _ E).
  destruct found as [value|]; [intros H; inversion H; reflexivity|].
  destruct (search pat_word_dead _); [intros H; inversion H; reflexivity|].
  destruct (search pat_word_killed _); intros H; inversion H; reflexivity.
Qed.

(** The only way out of the estimator other than a return is the ValueError
    of the conversion. *)
Lemma estimator_raises (text : string) (e : exn) :
  Estimator.extract_fatalities text = Raise e -> e = ValueError.
Proof.
  unfold Estimator.extract_fatalities.
  destruct (negb _); [discriminate|].
  assert (G : forall ps, Estimator.numeric_count ps (PyStr.lower text) = Raise e -> e = ValueError).
  { induction ps as [|pattern ps IH]; simpl; [discriminate|].
    destruct (search pattern _) as [m|]; [|exact IH].
    unfold Estimator.int_of_capture.
    destruct (Nat.ltb _ _); simpl; [intros H; inversion H; reflexivity|].
    destruct (accepted _); [discriminate|exact IH]. }
  destruct (Estimator.numeric_count patterns (PyStr.lower text)) as [found|e'] eqn:E; cbn [bind].
  - destruct found; [discriminate|].
    destruct (search pat_word_dead _); [discriminate|].
    destruct (search pat_word_killed _); discriminate.
  - intros H. inversion H; subst e'. exact (G _ E).
Qed.

(** C3 (a defect of the code).  On "15 dead in massive pileup" the second
    pattern captures 15 at index 0, the guard rejects it and the estimate is
    the single-fatality default 1, as the claim says.  But the guard is only
    reached after [int(match.group(1))]: on a headline whose count has 4301
    digits, which is above 10 as well, the first pattern captures the count
    at index 0 and the estimator raises ValueError instead of treating the
    count as unparsed and returning 1. *)
Theorem oversized_count_not_unparsed :
  search pat_dead (PyStr.lower "15 dead in massive pileup")
    = Some {| m_start := 0; m_group1 := "15" |} /\
  Estimator.extract_fatalities "15 dead in massive pileup" = Ok 1%Z /\
  search pat_people_killed
         (PyStr.lower (Estimator.oversized_count ++ " people killed in massive pileup"))
    = Some {| m_start := 0; m_group1 := Estimator.oversized_count |} /\
  String.length Estimator.oversized_count = 4301 /\
  Estimator.extract_fatalities (Estimator.oversized_count ++ " people killed in massive pileup")
    = Raise ValueError.
Proof.
  repeat split; vm_compute; reflexivity.
Qed.

(** C5 (a defect of the code).  A text with a fatal clue whose count has 4301
    digits is not estimated at 1 or more: the estimator raises ValueError. *)
Theorem clue_with_oversized_count :
  PyStr.any_in fatal_clues (PyStr.lower (Estimator.oversized_count ++ " people killed")) = true /\
  Estimator.extract_fatalities (Estimator.oversized_count ++ " people killed")
    = Raise ValueError.
Proof.
  split; vm_compute; reflexivity.
Qed.

(** C10 (a defect of the code).  On a text whose count has 4301 digits the
    estimator returns no integer at all: the first pattern matches at index
    0 and the conversion of its capture raises ValueError. *)
Theorem oversized_count_no_estimate :
  option_map m_start
    (search pat_people_killed
       (PyStr.lower (Estimator.oversized_count ++ " victims were killed on I-79"))) = Some 0 /\
  Estimator.extract_fatalities (Estimator.oversized_count ++ " victims were killed on I-79")
    = Raise ValueError.
Proof.
  split; vm_compute; reflexivity.
Qed.

End FatalityFacts.

(** ** The location resolver *)

Section LocationFacts.

Import Re Location.

Lemma collect_matches_In (places : list string) (lowered : string) (s : nat) (c : string) :
  In (s, c) (collect_matches places lowered) <->
  In c places /\ exists m, search (county_pattern c) lowered = Some m /\ m_start m = s.
Proof.
  induction places as [|place places IH]; simpl.
  - tauto.
  - destruct (search (county_pattern place) lowered) as [m|] eqn:E; simpl; rewrite IH.
    + split.
      * intros [H|[H1 H2]]; [|tauto]. inversion H; subst. split; [tauto|]. exists m. tauto.
      * intros [[H|H] (m' & Hm & Hs)]; [|right; split; [assumption|exists m'; tauto]].
        subst place. left. rewrite E in Hm. inversion Hm; subst. reflexivity.
    + split.
      * intros [H1 H2]. tauto.
      * intros [[H|H] (m' & Hm & Hs)]; [|split; [assumption|exists m'; tauto]].
        subst place. rewrite E in Hm. discriminate.
Qed.

Lemma insert_by_start_In (x z : nat * string) (l : list (nat * string)) :
  In z (insert_by_start x l) <-> z = x \/ In z l.
Proof.
  induction l as [|y l IH]; simpl.
  - intuition congruence.
  - destruct (Nat.leb (fst x) (fst y)); simpl; [|rewrite IH]; intuition congruence.
Qed.

Lemma sorted_by_start_In (z : nat * string) (l : list (nat * string)) :
  In z (sorted_by_start l) <-> In z l.
Proof.
  induction l as [|x l IH]; simpl; [tauto|].
  rewrite insert_by_start_In, IH. intuition congruence.
Qed.

(** The head of the sorted list carries the smallest start. *)
Lemma sorted_by_start_head (l : list (nat * string)) (y : nat * string) (rest : list (nat * string)) :
  sorted_by_start l = y :: rest -> forall z, In z l -> fst y <= fst z.
Proof.
  revert y rest. induction l as [|x l IH]; intros y rest H z Hz; [destruct Hz|].
  simpl in H. destruct (sorted_by_start l) as [|y' rest'] eqn:E.
  - simpl in H. inversion H; subst.
    destruct Hz as [Hz|Hz]; [subst; lia|].
    apply sorted_by_start_In in Hz. rewrite E in Hz. destruct Hz.
  - simpl in H. destruct (Nat.leb (fst x) (fst y')) eqn:Le.
    + inversion H; subst. apply Nat.leb_le in Le.
      destruct Hz as [Hz|Hz]; [subst; lia|].
      specialize (IH y' rest' eq_refl z Hz). lia.
    + inversion H; subst. apply Nat.leb_gt in Le.
      destruct Hz as [Hz|Hz]; [subst; lia|].
      exact (IH y rest' eq_refl z Hz).
Qed.

Lemma county_names_in_table (c : string) :
  In c county_names -> exists la lo, Dict.get c LOCATION_HINTS = Some (la, lo).
Proof.
  unfold county_names. simpl. intros [H|[H|[H|[]]]]; subst c; vm_compute; eauto.
Qed.

Lemma first_hint_none (table : list (string * (float * float))) (lowered : string) :
  (forall q, In q table -> PyStr.contains (fst q) lowered = false) ->
  first_hint table lowered = None.
Proof.
  induction table as [|[place coords] table IH]; intros H; simpl; [reflexivity|].
  pose proof (H (place, coords) (or_introl eq_refl)) as Hp. simpl in Hp. rewrite Hp.
  apply IH. intros q Hq. apply H. right. exact Hq.
Qed.

Lemma first_hint_first (before after : list (string * (float * float)))
      (place : string) (coords : float * float) (lowered : string) :
  (forall q, In q before -> PyStr.contains (fst q) lowered = false) ->
  PyStr.contains place lowered = true ->
  first_hint (before ++ (place, coords) :: after) lowered = Some (place, coords).
Proof.
  induction before as [|[p c] before IH]; intros H Hp; simpl.
  - rewrite Hp. reflexivity.
  - pose proof (H (p, c) (or_introl eq_refl)) as Hpc. simpl in Hpc. rewrite Hpc.
    apply IH; [|assumption]. intros q Hq. apply H. right. exact Hq.
Qed.

(** With no county matching, the first loop collects nothing. *)
Lemma collect_matches_nil (places : list string) (lowered : string) :
  (forall c i, In c places -> matches_at (county_pattern c) lowered i = false) ->
  collect_matches places lowered = [].
Proof.
  induction places as [|place places IH]; intros H; simpl; [reflexivity|].
  destruct (search (county_pattern place) lowered) as [m|] eqn:E.
  - apply search_leftmost in E. destruct E as [E _].
    rewrite (H place (m_start m) (or_introl eq_refl)) in E. discriminate.
  - apply IH. intros c i Hc. apply H. right. exact Hc.
Qed.

(** What a match of a county pattern at index [i] is: the name stands at [i],
    with a word boundary on either side of it. *)
Lemma county_pattern_at (place lowered : string) (i : nat) :
  matches_at (county_pattern place) lowered i = true <->
  exists cu cu',
    cursor_from None 0 lowered i = Some cu /\ at_boundary cu = true /\
    eat place cu = Some cu' /\ at_boundary cu' = true.
Proof.
  unfold matches_at, county_pattern, match_here. cbn [rmatch].
  destruct (cursor_from None 0 lowered i) as [cu|].
  - destruct (at_boundary cu) eqn:B.
    + destruct (eat place cu) as [cu'|] eqn:E.
      * destruct (at_boundary cu') eqn:B'.
        -- split; [|reflexivity]. intros _. exists cu, cu'. tauto.
        -- split; [discriminate|]. intros (c1 & c2 & H1 & _ & H3 & H4).
           inversion H1; subst c1. rewrite E in H3. inversion H3; subst c2. congruence.
      * split; [discriminate|]. intros (c1 & c2 & H1 & _ & H3 & _).
        inversion H1; subst c1. congruence.
    + split; [discriminate|]. intros (c1 & c2 & H1 & H2 & _).
      inversion H1; subst c1. congruence.
  - split; [discriminate|]. intros (c1 & c2 & H1 & _). discriminate.
Qed.

End LocationFacts.

(** ** The location resolver on every text *)

Section ResolverFacts.

Variable U : Unicode.Database.

Lemma word_search_leftmost (name : Unicode.text) (s : Unicode.text) :
  forall pv n k,
    Unicode.word_search U name pv n s = Some k ->
    exists i, k = n + i /\ Unicode.word_at U name pv s i = true /\
              forall j, j < i -> Unicode.word_at U name pv s j = false.
Proof.
  induction s as [|c s IH]; intros pv n k; cbn [Unicode.word_search].
  - destruct (Unicode.word_here U name pv []) eqn:E; [|discriminate].
    intros H. inversion H; subst k. exists 0. split; [lia|]. split; [exact E|]. intros j Hj. lia.
  - destruct (Unicode.word_here U name pv (c :: s)) eqn:E.
    + intros H. inversion H; subst k. exists 0. split; [lia|]. split; [exact E|].
      intros j Hj. lia.
    + intros H. destruct (IH _ _ _ H) as (i & Hk & Hat & Hmin).
      exists (S i). split; [lia|]. split; [exact Hat|].
      intros [|j] Hj; [exact E|]. cbn [Unicode.word_at]. apply Hmin. lia.
Qed.

Lemma word_search_finds (name : Unicode.text) (s : Unicode.text) :
  forall pv n i,
    Unicode.word_at U name pv s i = true ->
    exists k, Unicode.word_search U name pv n s = Some k /\ k <= n + i.
Proof.
  induction s as [|c s IH]; intros pv n i H; cbn [Unicode.word_search].
  - destruct i as [|i]; [|discriminate]. cbn [Unicode.word_at] in H. rewrite H.
    exists n. split; [reflexivity|lia].
  - destruct (Unicode.word_here U name pv (c :: s)) eqn:E.
    + exists n. split; [reflexivity|lia].
    + destruct i as [|i]; [cbn [Unicode.word_at] in H; congruence|].
      cbn [Unicode.word_at] in H. destruct (IH (Some c) (S n) i H) as (k & Hk & Hle).
      exists k. split; [exact Hk|lia].
Qed.

Lemma word_search_none (name : Unicode.text) (s : Unicode.text) (pv : option N) (n : nat) :
  (forall i, Unicode.word_at U name pv s i = false) -> Unicode.word_search U name pv n s = None.
Proof.
  intros H. destruct (Unicode.word_search U name pv n s) as [k|] eqn:E; [|reflexivity].
  apply word_search_leftmost in E. destruct E as (i & _ & Hat & _).
  rewrite H in Hat. discriminate.
Qed.

Lemma word_at_none (name : Unicode.text) (s : Unicode.text) (pv : option N) (n : nat) :
  Unicode.word_search U name pv n s = None -> forall i, Unicode.word_at U name pv s i = false.
Proof.
  intros H i. destruct (Unicode.word_at U name pv s i) eqn:E; [|reflexivity].
  destruct (word_search_finds _ _ pv n i E) as (k & Hk & _). congruence.
Qed.

Lemma unicode_collect_matches_In (places : list string) (lowered : Unicode.text)
      (s : nat) (c : string) :
  In (s, c) (Unicode.collect_matches U places lowered) <->
  In c places /\ Unicode.word_search U (Unicode.of_ascii c) None 0 lowered = Some s.
Proof.
  induction places as [|place places IH]; simpl.
  - tauto.
  - destruct (Unicode.word_search U (Unicode.of_ascii place) None 0 lowered) as [k|] eqn:E;
      simpl; rewrite IH.
    + split.
      * intros [H|[H1 H2]]; [|tauto]. inversion H; subst. tauto.
      * intros [[H|H] Hs]; [|tauto]. subst place. left. congruence.
    + split.
      * intros [H1 H2]. tauto.
      * intros [[H|H] Hs]; [|tauto]. subst place. congruence.
Qed.

Lemma unicode_collect_matches_nil (places : list string) (lowered : Unicode.text) :
  (forall c i, In c places -> Unicode.word_at U (Unicode.of_ascii c) None lowered i = false) ->
  Unicode.collect_matches U places lowered = [].
Proof.
  induction places as [|place places IH]; intros H; simpl; [reflexivity|].
  rewrite word_search_none; [|intros i; apply H; left; reflexivity].
  apply IH. intros c i Hc. apply H. right. exact Hc.
Qed.

Lemma unicode_first_hint_none (table : list (string * (float * float))) (lowered : Unicode.text) :
  (forall q, In q table -> Unicode.contains (Unicode.of_ascii (fst q)) lowered = false) ->
  Unicode.first_hint table lowered = None.
Proof.
  induction table as [|[place coords] table IH]; intros H; simpl; [reflexivity|].
  pose proof (H (place, coords) (or_introl eq_refl)) as Hp. simpl in Hp. rewrite Hp.
  apply IH. intros q Hq. apply H. right. exact Hq.
Qed.

Lemma unicode_first_hint_first (before after : list (string * (float * float)))
      (place : string) (coords : float * float) (lowered : Unicode.text) :
  (forall q, In q before -> Unicode.contains (Unicode.of_ascii (fst q)) lowered = false) ->
  Unicode.contains (Unicode.of_ascii place) lowered = true ->
  Unicode.first_hint (before ++ (place, coords) :: after) lowered = Some (place, coords).
Proof.
  induction before as [|[p c] before IH]; intros H Hp; simpl.
  - rewrite Hp. reflexivity.
  - pose proof (H (p, c) (or_introl eq_refl)) as Hpc. simpl in Hpc. rewrite Hpc.
    apply IH; [|assumption]. intros q Hq. apply H. right. exact Hq.
Qed.

(** C4.  The resolver is the two-phase algorithm, on every text and whatever
    the character database says of case and of word characters.  Phase 1: as
    soon as the word-bounded pattern of some county matches somewhere in the
    lower-cased text, the answer is a county whose pattern matches at an
    index that is at most the index of every match of every county pattern
    (leftmost wins, whatever the order of the table and whatever cities the
    text names), with that county's coordinates.  Phase 2: when no county
    pattern matches, the answer is the first entry in table order whose key
    is a substring of the lower-cased text; when no key is, it is
    "Unspecified stretch" with both coordinates null. *)
Theorem infer_location_two_phase (t : Unicode.text) :
  (forall c i,
      In c Location.county_names ->
      Unicode.word_at U (Unicode.of_ascii c) None (Unicode.lower U t) i = true ->
      exists best s la lo,
        In best Location.county_names /\
        Unicode.word_at U (Unicode.of_ascii best) None (Unicode.lower U t) s = true /\
        (forall c' i',
            In c' Location.county_names ->
            Unicode.word_at U (Unicode.of_ascii c') None (Unicode.lower U t) i' = true ->
            s <= i') /\
        Dict.get best LOCATION_HINTS = Some (la, lo) /\
        Unicode.infer_location U t = (PyStr.title best, PFloat la, PFloat lo)) /\
  ((forall c i,
       In c Location.county_names ->
       Unicode.word_at U (Unicode.of_ascii c) None (Unicode.lower U t) i = false) ->
   (forall before place la lo after,
       LOCATION_HINTS = before ++ (place, (la, lo)) :: after ->
       (forall q, In q before ->
                  Unicode.contains (Unicode.of_ascii (fst q)) (Unicode.lower U t) = false) ->
       Unicode.contains (Unicode.of_ascii place) (Unicode.lower U t) = true ->
       Unicode.infer_location U t = (PyStr.title place, PFloat la, PFloat lo)) /\
   ((forall q, In q LOCATION_HINTS ->
               Unicode.contains (Unicode.of_ascii (fst q)) (Unicode.lower U t) = false) ->
    Unicode.infer_location U t = ("Unspecified stretch", PNone, PNone))).
Proof.
  split.
  - intros c i Hc Hmatch.
    destruct (word_search_finds _ _ None 0 i Hmatch) as (k & Hk & _).
    assert (Hin : In (k, c) (Unicode.collect_matches U Location.county_names (Unicode.lower U t))).
    { apply unicode_collect_matches_In. tauto. }
    destruct (Location.sorted_by_start
                (Unicode.collect_matches U Location.county_names (Unicode.lower U t)))
      as [|[s best] rest] eqn:E.
    { apply sorted_by_start_In in Hin. rewrite E in Hin. destruct Hin. }
    assert (Hbest : In (s, best)
                       (Unicode.collect_matches U Location.county_names (Unicode.lower U t))).
    { apply sorted_by_start_In. rewrite E. left. reflexivity. }
    apply unicode_collect_matches_In in Hbest. destruct Hbest as (Hbc & Hsb).
    destruct (county_names_in_table best Hbc) as (la & lo & Hget).
    exists best, s, la, lo.
    split; [exact Hbc|]. split; [|split; [|split; [exact Hget|]]].
    + apply word_search_leftmost in Hsb. destruct Hsb as (j & Hj & Hat & _).
      simpl in Hj. subst j. exact Hat.
    + intros c' i' Hc' Hm'.
      destruct (word_search_finds _ _ None 0 i' Hm') as (k' & Hk' & Hle).
      assert (Hin' : In (k', c')
                        (Unicode.collect_matches U Location.county_names (Unicode.lower U t))).
      { apply unicode_collect_matches_In. tauto. }
      pose proof (sorted_by_start_head _ _ _ E _ Hin') as Hmin. simpl in Hmin. lia.
    + unfold Unicode.infer_location. rewrite E, Hget. reflexivity.
  - intros Hnone. pose proof (unicode_collect_matches_nil _ _ Hnone) as Hnil. split.
    + intros before place la lo after Htable Hbefore Hplace.
      unfold Unicode.infer_location. rewrite Hnil. simpl Location.sorted_by_start. cbv iota.
      rewrite Htable, (unicode_first_hint_first before after place (la, lo) _ Hbefore Hplace).
      reflexivity.
    + intros Hno. unfold Unicode.infer_location. rewrite Hnil. simpl Location.sorted_by_start.
      cbv iota. rewrite (unicode_first_hint_none _ _ Hno). reflexivity.
Qed.

End ResolverFacts.

Lemma infer_location_two_phase_witness :
  (exists best s la lo,
      In best Location.county_names /\
      Unicode.word_at Unicode.latin1_database (Unicode.of_ascii best) None
        (Unicode.lower Unicode.latin1_database
           (Unicode.of_ascii "Fairmont: Harrison County line near Marion County")) s = true /\
      (forall c' i',
          In c' Location.county_names ->
          Unicode.word_at Unicode.latin1_database (Unicode.of_ascii c') None
            (Unicode.lower Unicode.latin1_database
               (Unicode.of_ascii "Fairmont: Harrison County line near Marion County")) i' = true ->
          s <= i') /\
      Dict.get best LOCATION_HINTS = Some (la, lo) /\
      Unicode.infer_location Unicode.latin1_database
        (Unicode.of_ascii "Fairmont: Harrison County line near Marion County")
      = (PyStr.title best, PFloat la, PFloat lo)) /\
  Unicode.infer_location Unicode.latin1_database
    (Unicode.of_ascii "Marion Countys crash near Fairmont")
  = ("Fairmont", PFloat 39.4851, PFloat (-80.1426)) /\
  Unicode.infer_location Unicode.latin1_database
    (Unicode.of_ascii "Crash on some unnamed stretch")
  = ("Unspecified stretch", PNone, PNone).
Proof.
  split; [|split].
  - apply (proj1 (infer_location_two_phase Unicode.latin1_database
                    (Unicode.of_ascii "Fairmont: Harrison County line near Marion County"))
             "marion county" 36).
    + simpl. tauto.
    + vm_compute. reflexivity.
  - apply (proj1 (proj2 (infer_location_two_phase Unicode.latin1_database
                           (Unicode.of_ascii "Marion Countys crash near Fairmont"))
                    ltac:(intros c i [H|[H|[H|[]]]]; subst c;
                          apply (word_at_none Unicode.latin1_database _ _ None 0);
                          vm_compute; reflexivity))
             [("morgantown", (39.6295, -79.9559)%float); ("star city", (39.6579, -79.9862)%float)]
             "fairmont" 39.4851%float (-80.1426)%float
             (tl (tl (tl LOCATION_HINTS)))).
    + reflexivity.
    + intros q [H|[H|[]]]; subst q; vm_compute; reflexivity.
    + vm_compute. reflexivity.
  - apply (proj2 (proj2 (infer_location_two_phase Unicode.latin1_database
                           (Unicode.of_ascii "Crash on some unnamed stretch"))
                    ltac:(intros c i [H|[H|[H|[]]]]; subst c;
                          apply (word_at_none Unicode.latin1_database _ _ None 0);
                          vm_compute; reflexivity))).
    intros q Hq. unfold LOCATION_HINTS in Hq. simpl in Hq.
    repeat (destruct Hq as [Hq|Hq]; [subst q; vm_compute; reflexivity|]). destruct Hq.
Defined.

(** A county name that follows a letter without a break is no match, also
    when the letter is not ASCII: on "fairmont" followed by a blank, U+00E9
    and "marion county" the resolver falls back on the city. *)
Lemma resolver_letter_before_county :
  Unicode.infer_location Unicode.latin1_database
    (Unicode.of_ascii "Fairmont " ++ [233%N] ++ Unicode.of_ascii "Marion County")
  = ("Fairmont", PFloat 39.4851, PFloat (-80.1426)).
Proof. vm_compute. reflexivity. Qed.

(** ** The resolver on 8-bit text is the resolver on code points

    With the ASCII part of the database, the resolver on code points
    computes on the codes of an 8-bit text what [Location.infer_location]
    computes on the text: the search written out for a literal between two
    [\b] is what the backtracking matcher does on [county_pattern]. *)

Section ResolverOnBytes.

Import Re.

Lemma of_ascii_cons (c : ascii) (s : string) :
  Unicode.of_ascii (String c s) = N_of_ascii c :: Unicode.of_ascii s.
Proof. reflexivity. Qed.

Lemma lower_char_code (c : ascii) :
  N_of_ascii (PyStr.lower_char c)
  = if Unicode.between 65 90 (N_of_ascii c) then (N_of_ascii c + 32)%N else N_of_ascii c.
Proof. destruct c as [[] [] [] [] [] [] [] []]; reflexivity. Qed.

Lemma of_ascii_lower (s : string) :
  Unicode.of_ascii (PyStr.lower s) = Unicode.lower Unicode.ascii_database (Unicode.of_ascii s).
Proof.
  induction s as [|c s IH]; [reflexivity|].
  cbn [PyStr.lower]. rewrite !of_ascii_cons, IH, lower_char_code. reflexivity.
Qed.

Lemma is_word_code (c : ascii) : Unicode.is_word Unicode.ascii_database (N_of_ascii c) = PyStr.is_word c.
Proof. destruct c as [[] [] [] [] [] [] [] []]; reflexivity. Qed.

Lemma code_eqb (a c : ascii) : N.eqb (N_of_ascii a) (N_of_ascii c) = Ascii.eqb a c.
Proof.
  destruct (Ascii.eqb a c) eqn:E.
  - apply Ascii.eqb_eq in E. subst. apply N.eqb_refl.
  - apply N.eqb_neq. intros H. apply (f_equal ascii_of_N) in H.
    rewrite !ascii_N_embedding in H. subst. rewrite Ascii.eqb_refl in E. discriminate.
Qed.

Lemma startswith_of_ascii (p s : string) :
  Unicode.startswith (Unicode.of_ascii s) (Unicode.of_ascii p) = String.prefix p s.
Proof.
  revert s. induction p as [|a p IH]; intros s; [destruct s; reflexivity|].
  destruct s as [|c s]; [reflexivity|].
  rewrite !of_ascii_cons. cbn [Unicode.startswith String.prefix]. rewrite code_eqb, IH.
  destruct (ascii_dec a c) as [E|E].
  - subst. rewrite Ascii.eqb_refl. reflexivity.
  - apply Ascii.eqb_neq in E. rewrite E. reflexivity.
Qed.

Lemma contains_of_ascii (p s : string) :
  Unicode.contains (Unicode.of_ascii p) (Unicode.of_ascii s) = PyStr.contains p s.
Proof.
  induction s as [|c s IH].
  - change (Unicode.of_ascii "") with (@nil N). cbn [PyStr.contains Unicode.contains].
    change (@nil N) with (Unicode.of_ascii ""). rewrite startswith_of_ascii.
    destruct (String.prefix p ""); reflexivity.
  - cbn [PyStr.contains]. rewrite of_ascii_cons. cbn [Unicode.contains].
    rewrite <- of_ascii_cons, startswith_of_ascii, IH. reflexivity.
Qed.

Lemma at_boundary_code (cu : cursor) :
  Unicode.at_boundary Unicode.ascii_database (option_map N_of_ascii (prev cu)) (Unicode.of_ascii (rest cu)) = at_boundary cu.
Proof.
  unfold Unicode.at_boundary, at_boundary, Unicode.word_before, Unicode.word_after,
    word_before, word_after.
  destruct (prev cu) as [p|]; destruct (rest cu) as [|c s]; cbn [option_map];
    rewrite ?of_ascii_cons, ?is_word_code; reflexivity.
Qed.

Lemma eat_code (l : string) :
  forall cu,
    Unicode.eat (Unicode.of_ascii l) (option_map N_of_ascii (prev cu)) (Unicode.of_ascii (rest cu))
    = option_map (fun cu' => (option_map N_of_ascii (prev cu'), Unicode.of_ascii (rest cu'))) (eat l cu).
Proof.
  induction l as [|a l IH]; intros cu; [reflexivity|].
  rewrite of_ascii_cons. cbn [Unicode.eat eat].
  destruct (rest cu) as [|c s']; [reflexivity|].
  rewrite of_ascii_cons, code_eqb. destruct (Ascii.eqb a c); [|reflexivity].
  exact (IH (advance c s' cu)).
Qed.

Lemma county_pattern_here (place : string) (cu : cursor) :
  match_here (Location.county_pattern place) cu
  = if Unicode.word_here Unicode.ascii_database (Unicode.of_ascii place) (option_map N_of_ascii (prev cu)) (Unicode.of_ascii (rest cu))
    then Some {| m_start := pos cu; m_group1 := "" |} else None.
Proof.
  unfold match_here, Location.county_pattern, Unicode.word_here. cbn [rmatch].
  rewrite at_boundary_code, eat_code.
  destruct (at_boundary cu); cbn [andb]; [|reflexivity].
  destruct (eat place cu) as [cu'|]; cbn [option_map]; [|reflexivity].
  rewrite at_boundary_code. destruct (at_boundary cu'); reflexivity.
Qed.

Lemma county_search_from (place : string) (s : string) :
  forall pv n,
    option_map m_start (search_from (Location.county_pattern place) pv n s)
    = Unicode.word_search Unicode.ascii_database (Unicode.of_ascii place) (option_map N_of_ascii pv) n
        (Unicode.of_ascii s).
Proof.
  induction s as [|c s IH]; intros pv n; cbn [search_from].
  - rewrite county_pattern_here. cbn [prev rest pos].
    change (Unicode.of_ascii "") with (@nil N). cbn [Unicode.word_search].
    destruct (Unicode.word_here Unicode.ascii_database _ _ _); reflexivity.
  - rewrite county_pattern_here. cbn [prev rest pos].
    rewrite of_ascii_cons. cbn [Unicode.word_search].
    destruct (Unicode.word_here Unicode.ascii_database _ _ _); [reflexivity|].
    exact (IH (Some c) (S n)).
Qed.

Lemma collect_matches_of_ascii (places : list string) (lowered : string) :
  Unicode.collect_matches Unicode.ascii_database places (Unicode.of_ascii lowered)
  = Location.collect_matches places lowered.
Proof.
  induction places as [|place places IH]; [reflexivity|].
  cbn [Unicode.collect_matches Location.collect_matches].
  pose proof (county_search_from place lowered None 0) as H. cbn [option_map] in H.
  unfold search. rewrite <- H, IH.
  destruct (search_from (Location.county_pattern place) None 0 lowered); reflexivity.
Qed.

Lemma first_hint_of_ascii (table : list (string * (float * float))) (lowered : string) :
  Unicode.first_hint table (Unicode.of_ascii lowered) = Location.first_hint table lowered.
Proof.
  induction table as [|[place coords] table IH]; [reflexivity|].
  cbn [Unicode.first_hint Location.first_hint]. rewrite contains_of_ascii, IH. reflexivity.
Qed.

Lemma resolver_on_bytes (s : string) :
  Unicode.infer_location Unicode.ascii_database (Unicode.of_ascii s) = Location.infer_location s.
Proof.
  unfold Unicode.infer_location, Location.infer_location.
  rewrite <- of_ascii_lower, collect_matches_of_ascii, first_hint_of_ascii. reflexivity.
Qed.

End ResolverOnBytes.


(** ** The delay-listing scanner *)

Section ScannerFacts.

Variable L : Library.

Ltac split_ifs :=
  repeat match goal with
         | |- context [if ?c then _ else _] => destruct c
         end.

(** The inner loop moves forward and stays inside the input. *)
Lemma scan_block_bounds (probes : list string) :
  forall j b, j <= fst (scan_block probes j b) <= j + length probes.
Proof.
  induction probes as [|probe probes IH]; intros j b; cbn [scan_block length].
  - simpl. lia.
  - split_ifs; cbn [fst]; try lia;
      match goal with
      | |- context [scan_block probes (S j) ?b'] => specialize (IH (S j) b'); lia
      end.
Qed.

Lemma block_at_bounds (lines : list string) (i : nat) :
  i < length lines -> i + 1 <= fst (block_at lines i) <= length lines.
Proof.
  intros Hi. unfold block_at.
  pose proof (scan_block_bounds (skipn (i + 1) lines) (i + 1) empty_block) as H.
  rewrite length_skipn in H. lia.
Qed.

Lemma scan_step_next (lines : list string) (i : nat) (line : string) (incidents : list Incident) :
  fst (scan_step L lines i line incidents) =
  if PyStr.startswith line "I-79" then Nat.max (i + 1) (fst (block_at lines i)) else i + 1.
Proof.
  unfold scan_step. destruct (PyStr.startswith line "I-79"); cbn [negb]; [|reflexivity].
  destruct (block_at lines i) as [j b].
  destruct (block_incident L (event_title_of line) b); reflexivity.
Qed.

Lemma scan_step_advances (lines : list string) (i : nat) (line : string) (incidents : list Incident) :
  nth_error lines i = Some line ->
  i < fst (scan_step L lines i line incidents) <= length lines.
Proof.
  intros Hline.
  assert (Hi : i < length lines) by (apply nth_error_Some; congruence).
  rewrite scan_step_next. pose proof (block_at_bounds lines i Hi).
  destruct (PyStr.startswith line "I-79"); lia.
Qed.

Lemma scan_loop_enough_fuel (lines : list string) :
  forall fuel i incidents,
    length lines - i <= fuel -> exists result, scan_loop L fuel lines i incidents = Some result.
Proof.
  induction fuel as [|fuel IH]; intros i incidents Hfuel; cbn [scan_loop];
    destruct (nth_error lines i) as [line|] eqn:Hline; eauto.
  - assert (i < length lines) by (apply nth_error_Some; congruence). lia.
  - pose proof (scan_step_advances lines i line incidents Hline) as Hadv.
    destruct (scan_step L lines i line incidents) as [i' incidents']. cbn [fst] in Hadv.
    apply IH. lia.
Qed.

(** C9.  The scanner terminates on every list of lines.  At an index inside
    the input, one iteration of the outer loop moves the index to [i + 1] on
    a line that does not open an I-79 block and to [max(i + 1, j)] on one that
    does, [j] being where the inner scan stopped; either way the index grows
    strictly and stays within the input, so that a number of iterations equal
    to the number of lines always reaches the end of the loop. *)
Theorem scan_loop_terminates (lines : list string) :
  (forall i line incidents,
      nth_error lines i = Some line ->
      let i' := fst (scan_step L lines i line incidents) in
      i < i' <= length lines /\
      i' = if PyStr.startswith line "I-79"
           then Nat.max (i + 1) (fst (block_at lines i)) else i + 1) /\
  exists incidents,
    scan_loop L (length lines) lines 0 [] = Some incidents /\
    parse_wv511_i79_incidents L lines = incidents.
Proof.
  split.
  - intros i line incidents Hline. split.
    + apply scan_step_advances. exact Hline.
    + apply scan_step_next.
  - destruct (scan_loop_enough_fuel lines (length lines) 0 []) as [result H]; [lia|].
    exists result. split; [exact H|]. unfold parse_wv511_i79_incidents. rewrite H. reflexivity.
Qed.

Lemma block_incident_some (event_title : string) (b : block) (incident : Incident) :
  block_incident L event_title b = Some incident ->
  str_in (PyStr.lower (county b)) NORTH_CENTRAL_COUNTIES = true /\
  incident = wv511_incident L event_title b.
Proof.
  unfold block_incident.
  destruct (str_in (PyStr.lower (county b)) NORTH_CENTRAL_COUNTIES); cbn [negb]; [|discriminate].
  destruct (PyStr.nonempty (description b) &&
            negb (PyStr.contains "i-79" (PyStr.lower (description b))))%bool; [discriminate|].
  intros H. inversion H. tauto.
Qed.

Lemma scan_step_appends (lines : list string) (i : nat) (line : string) (incidents : list Incident) :
  nth_error lines i = Some line ->
  forall x, In x (snd (scan_step L lines i line incidents)) ->
            In x incidents \/ from_in_scope_block L lines x.
Proof.
  intros Hline x. unfold scan_step.
  destruct (PyStr.startswith line "I-79") eqn:Hstart; cbn [negb]; [|simpl; tauto].
  destruct (block_at lines i) as [j b] eqn:Hblock.
  destruct (block_incident L (event_title_of line) b) as [incident|] eqn:Hb; cbn [snd]; [|tauto].
  rewrite in_app_iff. intros [H|[H|[]]]; [tauto|]. subst x. right.
  apply block_incident_some in Hb. destruct Hb as [Hcounty Hinc].
  exists i, line. rewrite Hblock. cbn [snd]. tauto.
Qed.

Lemma scan_loop_invariant (lines : list string) :
  forall fuel i incidents result,
    scan_loop L fuel lines i incidents = Some result ->
    forall x, In x result -> In x incidents \/ from_in_scope_block L lines x.
Proof.
  induction fuel as [|fuel IH]; intros i incidents result; cbn [scan_loop];
    destruct (nth_error lines i) as [line|] eqn:Hline; try discriminate;
    try (intros H; inversion H; subst; tauto).
  pose proof (scan_step_appends lines i line incidents Hline) as Hstep.
  destruct (scan_step L lines i line incidents) as [i' incidents']. cbn [snd] in Hstep.
  intros H x Hx. destruct (IH _ _ _ H x Hx) as [Hin|Hblock]; [|tauto].
  apply Hstep. exact Hin.
Qed.

Lemma parse_from_blocks (lines : list string) (incident : Incident) :
  In incident (parse_wv511_i79_incidents L lines) -> from_in_scope_block L lines incident.
Proof.
  intros Hin. unfold parse_wv511_i79_incidents in Hin.
  destruct (scan_loop L (length lines) lines 0 []) as [result|] eqn:H; [|destruct Hin].
  destruct (scan_loop_invariant lines _ _ _ _ H incident Hin) as [[]|Hb]. exact Hb.
Qed.

End ScannerFacts.

Lemma scan_loop_terminates_witness :
  0 < fst (scan_step sample_library SAMPLE_WV511_LINES 0 "I-79 Possible Delay" []) <= 12 /\
  fst (scan_step sample_library SAMPLE_WV511_LINES 0 "I-79 Possible Delay" []) = 5.
Proof.
  destruct (proj1 (scan_loop_terminates sample_library SAMPLE_WV511_LINES)
              0 "I-79 Possible Delay" [] eq_refl) as [Hadv Hnext].
  split; [exact Hadv|]. rewrite Hnext. vm_compute. reflexivity.
Defined.

(** ** The county gate of the delay listing on every text *)

Section GateFacts.

Variable U : Unicode.Database.
Variable make_incident : Unicode.text -> Unicode.block -> result Incident.

Lemma unicode_scan_block_bounds (probes : list Unicode.text) :
  forall j b, j <= fst (Unicode.scan_block U probes j b) <= j + length probes.
Proof.
  induction probes as [|probe probes IH]; intros j b; cbn [Unicode.scan_block length].
  - simpl. lia.
  - repeat match goal with
           | |- context [if ?c then _ else _] => destruct c
           end; cbn [fst]; try lia;
      match goal with
      | |- context [Unicode.scan_block U probes (S j) ?b'] => specialize (IH (S j) b'); lia
      end.
Qed.

(** An iteration that returns has moved the index forward, within the input. *)
Lemma unicode_scan_step_advances (lines : list Unicode.text) (i : nat) (line : Unicode.text)
      (incidents : list Incident) (i' : nat) (incidents' : list Incident) :
  nth_error lines i = Some line ->
  Unicode.scan_step U make_incident lines i line incidents = Ok (i', incidents') ->
  i < i' <= length lines.
Proof.
  intros Hline.
  assert (Hi : i < length lines) by (apply nth_error_Some; congruence).
  unfold Unicode.scan_step, Unicode.block_at.
  pose proof (unicode_scan_block_bounds (skipn (i + 1) lines) (i + 1) Unicode.empty_block) as H.
  rewrite length_skipn in H.
  destruct (negb _); [intros E; inversion E; lia|].
  destruct (Unicode.scan_block U (skipn (i + 1) lines) (i + 1) Unicode.empty_block) as [j b].
  cbn [fst] in H.
  destruct (Unicode.block_incident U make_incident _ b) as [[incident|]|e]; cbn [bind];
    intros E; inversion E; lia.
Qed.

Lemma unicode_scan_loop_enough_fuel (lines : list Unicode.text) :
  forall fuel i incidents,
    length lines - i <= fuel ->
    exists outcome, Unicode.scan_loop U make_incident fuel lines i incidents = Some outcome.
Proof.
  induction fuel as [|fuel IH]; intros i incidents Hfuel; cbn [Unicode.scan_loop];
    destruct (nth_error lines i) as [line|] eqn:Hline; eauto.
  - assert (i < length lines) by (apply nth_error_Some; congruence). lia.
  - destruct (Unicode.scan_step U make_incident lines i line incidents) as [[i' incidents']|e]
      eqn:E; [|eauto].
    pose proof (unicode_scan_step_advances lines i line incidents i' incidents' Hline E).
    apply IH. lia.
Qed.

Lemma unicode_scan_step_appends (lines : list Unicode.text) (i : nat) (line : Unicode.text)
      (incidents : list Incident) (i' : nat) (incidents' : list Incident) :
  nth_error lines i = Some line ->
  Unicode.scan_step U make_incident lines i line incidents = Ok (i', incidents') ->
  forall x, In x incidents' ->
            In x incidents \/ Unicode.from_in_scope_block U make_incident lines x.
Proof.
  intros Hline. unfold Unicode.scan_step.
  destruct (Unicode.startswith line (Unicode.of_ascii "I-79")) eqn:Hstart; cbn [negb];
    [|intros E; inversion E; tauto].
  destruct (Unicode.block_at U lines i) as [j b] eqn:Hblock.
  unfold Unicode.block_incident.
  destruct (Unicode.in_scope (Unicode.lower U (Unicode.county b))) eqn:Hscope; cbn [negb bind];
    [|intros E; inversion E; tauto].
  destruct (Unicode.nonempty (Unicode.description b) && _)%bool; cbn [bind];
    [intros E; inversion E; tauto|].
  destruct (make_incident (Unicode.event_title_of U line) b) as [incident|e] eqn:Hmade;
    cbn [bind]; [|discriminate].
  intros E; inversion E; subst. intros x Hx. apply in_app_iff in Hx.
  destruct Hx as [Hx|[Hx|[]]]; [tauto|]. subst x. right.
  exists i, line. rewrite Hblock. cbn [snd]. tauto.
Qed.

Lemma unicode_scan_loop_invariant (lines : list Unicode.text) :
  forall fuel i incidents result,
    Unicode.scan_loop U make_incident fuel lines i incidents = Some (Ok result) ->
    forall x, In x result ->
              In x incidents \/ Unicode.from_in_scope_block U make_incident lines x.
Proof.
  induction fuel as [|fuel IH]; intros i incidents result; cbn [Unicode.scan_loop];
    destruct (nth_error lines i) as [line|] eqn:Hline; try discriminate;
    try (intros H; inversion H; subst; tauto).
  destruct (Unicode.scan_step U make_incident lines i line incidents) as [[i' incidents']|e]
    eqn:E; [|discriminate].
  intros H x Hx. destruct (IH _ _ _ H x Hx) as [Hin|Hblock]; [|tauto].
  exact (unicode_scan_step_appends lines i line incidents i' incidents' Hline E x Hin).
Qed.

(** C6.  On every sequence of lines, whatever the character database says
    of white space and of case, and whatever is built from an accepted
    block: a block whose County value, stripped and lower-cased, is not one
    of the three in-scope counties adds nothing to the output, whatever its
    Description says.  The iteration that scans it returns, with the list of
    incidents as it was and the index after the block; the loop ends within
    one iteration per line, so that the parser returns a list or raises what
    the construction of an incident raised; and every incident of a list it
    returns was built from a block whose County value is in scope. *)
Theorem out_of_scope_block_excluded (lines : list Unicode.text) :
  (forall i line incidents,
      nth_error lines i = Some line ->
      Unicode.startswith line (Unicode.of_ascii "I-79") = true ->
      Unicode.in_scope (Unicode.lower U (Unicode.county (snd (Unicode.block_at U lines i))))
      = false ->
      Unicode.scan_step U make_incident lines i line incidents
      = Ok (Nat.max (i + 1) (fst (Unicode.block_at U lines i)), incidents)) /\
  (exists outcome,
      Unicode.scan_loop U make_incident (length lines) lines 0 [] = Some outcome /\
      Unicode.parse_wv511_i79_incidents U make_incident lines = outcome) /\
  (forall incidents incident,
      Unicode.parse_wv511_i79_incidents U make_incident lines = Ok incidents ->
      In incident incidents ->
      exists i line,
        nth_error lines i = Some line /\
        Unicode.startswith line (Unicode.of_ascii "I-79") = true /\
        Unicode.in_scope (Unicode.lower U (Unicode.county (snd (Unicode.block_at U lines i))))
        = true /\
        make_incident (Unicode.event_title_of U line) (snd (Unicode.block_at U lines i))
        = Ok incident).
Proof.
  split; [|split].
  - intros i line incidents Hline Hstart Hout. unfold Unicode.scan_step. rewrite Hstart.
    cbn [negb]. destruct (Unicode.block_at U lines i) as [j b]. cbn [fst snd] in Hout |- *.
    unfold Unicode.block_incident. rewrite Hout. reflexivity.
  - destruct (unicode_scan_loop_enough_fuel lines (length lines) 0 []) as [outcome H]; [lia|].
    exists outcome. split; [exact H|]. unfold Unicode.parse_wv511_i79_incidents.
    rewrite H. reflexivity.
  - intros incidents incident Hp Hin. unfold Unicode.parse_wv511_i79_incidents in Hp.
    destruct (Unicode.scan_loop U make_incident (length lines) lines 0 []) as [outcome|] eqn:H.
    + subst outcome.
      destruct (unicode_scan_loop_invariant lines _ _ _ _ H incident Hin) as [[]|Hb]. exact Hb.
    + inversion Hp; subst incidents. destruct Hin.
Qed.

End GateFacts.

Lemma out_of_scope_block_excluded_witness :
  Unicode.scan_step Unicode.latin1_database (ascii_wv511_incident sample_library)
    (map Unicode.of_ascii
       ["I-79 Crash"; "County: Kanawha County"; "Description: I-79 closed near Fairmont."])
    0 (Unicode.of_ascii "I-79 Crash") [] = Ok (3, []) /\
  exists incident,
    Unicode.parse_wv511_i79_incidents Unicode.latin1_database
      (ascii_wv511_incident sample_library)
      (map Unicode.of_ascii
         ["I-79 Crash"; "County: Kanawha County"; "Description: I-79 closed near Fairmont.";
          "I-79 Possible Delay"; "County: Marion County"])
    = Ok [incident] /\
    title incident = "I-79 Possible Delay" /\
    Unicode.from_in_scope_block Unicode.latin1_database (ascii_wv511_incident sample_library)
      (map Unicode.of_ascii
         ["I-79 Crash"; "County: Kanawha County"; "Description: I-79 closed near Fairmont.";
          "I-79 Possible Delay"; "County: Marion County"])
      incident.
Proof.
  split.
  - apply (proj1 (out_of_scope_block_excluded Unicode.latin1_database
                    (ascii_wv511_incident sample_library)
                    (map Unicode.of_ascii
                       ["I-79 Crash"; "County: Kanawha County";
                        "Description: I-79 closed near Fairmont."]))
             0 (Unicode.of_ascii "I-79 Crash") []).
    + reflexivity.
    + vm_compute. reflexivity.
    + vm_compute. reflexivity.
  - destruct (Unicode.parse_wv511_i79_incidents Unicode.latin1_database
                (ascii_wv511_incident sample_library)
                (map Unicode.of_ascii
                   ["I-79 Crash"; "County: Kanawha County";
                    "Description: I-79 closed near Fairmont.";
                    "I-79 Possible Delay"; "County: Marion County"]))
      as [[|x [|y rest]]|e] eqn:E; try (vm_compute in E; discriminate).
    exists x. split; [reflexivity|]. split.
    + vm_compute in E. inversion E. reflexivity.
    + exact (proj2 (proj2 (out_of_scope_block_excluded Unicode.latin1_database
                             (ascii_wv511_incident sample_library) _)) [x] x E
               (or_introl eq_refl)).
Defined.

(** White space that is not ASCII is stripped from the County value as
    well: with a no-break space (U+00A0) after the colon the block of Marion
    County is in scope, and its incident is appended. *)
Lemma county_after_no_break_space :
  Unicode.in_scope
    (Unicode.lower Unicode.latin1_database
       (Unicode.county
          (snd (Unicode.block_at Unicode.latin1_database
                  [Unicode.of_ascii "I-79 Crash";
                   Unicode.of_ascii "County:" ++ [160%N] ++ Unicode.of_ascii "Marion County"]
                  0)))) = true /\
  option_map (@length Incident)
    (match Unicode.parse_wv511_i79_incidents Unicode.latin1_database
             (ascii_wv511_incident sample_library)
             [Unicode.of_ascii "I-79 Crash";
              Unicode.of_ascii "County:" ++ [160%N] ++ Unicode.of_ascii "Marion County"] with
     | Ok incidents => Some incidents
     | Raise _ => None
     end) = Some 1.
Proof. split; vm_compute; reflexivity. Qed.

(** ** Dictionaries and loops *)

Section DictFacts.

Context {V : Type}.

Lemma get_set_same (k : string) (v : V) (d : list (string * V)) :
  Dict.get k (Dict.set k v d) = Some v.
Proof.
  induction d as [|[k' v'] d IH]; simpl.
  - rewrite String.eqb_refl. reflexivity.
  - destruct (String.eqb k' k) eqn:E; simpl; rewrite E; [reflexivity|exact IH].
Qed.

Lemma get_set_other (k k' : string) (v : V) (d : list (string * V)) :
  k' <> k -> Dict.get k' (Dict.set k v d) = Dict.get k' d.
Proof.
  intros Hne. induction d as [|[k0 v0] d IH]; simpl.
  - destruct (String.eqb k k') eqn:E; [|reflexivity].
    apply String.eqb_eq in E. congruence.
  - destruct (String.eqb k0 k) eqn:E; simpl.
    + destruct (String.eqb k0 k') eqn:E'; [|reflexivity].
      apply String.eqb_eq in E, E'. congruence.
    + rewrite IH. reflexivity.
Qed.

Lemma set_In (k : string) (v : V) (d : list (string * V)) (kv : string * V) :
  In kv (Dict.set k v d) -> kv = (k, v) \/ In kv d.
Proof.
  induction d as [|[k' v'] d IH]; simpl.
  - intuition congruence.
  - destruct (String.eqb k' k) eqn:E; simpl.
    + apply String.eqb_eq in E. subst k'. intuition congruence.
    + intros [H|H]; [auto|]. apply IH in H. tauto.
Qed.

Lemma set_key_In (k k0 : string) (v : V) (d : list (string * V)) :
  In k0 (Dict.keys (Dict.set k v d)) -> k0 = k \/ In k0 (Dict.keys d).
Proof.
  unfold Dict.keys. induction d as [|[k' v'] d IH]; simpl.
  - intuition congruence.
  - destruct (String.eqb k' k) eqn:E; simpl; [tauto|].
    intros [H|H]; [auto|]. apply IH in H. tauto.
Qed.

(** Assignment keeps the keys distinct. *)
Lemma set_NoDup (k : string) (v : V) (d : list (string * V)) :
  NoDup (Dict.keys d) -> NoDup (Dict.keys (Dict.set k v d)).
Proof.
  unfold Dict.keys. induction d as [|[k' v'] d IH]; simpl; intros H.
  - constructor; [simpl; tauto|constructor].
  - destruct (String.eqb k' k) eqn:E; simpl; [exact H|].
    inversion H as [|? ? Hnot Hrest]; subst. constructor; [|exact (IH Hrest)].
    intros Hin. apply set_key_In in Hin. destruct Hin as [Hin|Hin]; [|tauto].
    subst k'. rewrite String.eqb_refl in E. discriminate.
Qed.

Lemma set_Forall (P : string * V -> Prop) (k : string) (v : V) (d : list (string * V)) :
  P (k, v) -> Forall P d -> Forall P (Dict.set k v d).
Proof.
  intros Hv Hd. apply Forall_forall. intros kv Hin.
  apply set_In in Hin. destruct Hin as [Hin|Hin]; [subst; exact Hv|].
  rewrite Forall_forall in Hd. exact (Hd kv Hin).
Qed.

Lemma get_In (k : string) (v : V) (d : list (string * V)) :
  Dict.get k d = Some v -> In (k, v) d.
Proof.
  induction d as [|[k' v'] d IH]; simpl; [discriminate|].
  destruct (String.eqb k' k) eqn:E.
  - apply String.eqb_eq in E. intros H. inversion H. subst. tauto.
  - intros H. right. exact (IH H).
Qed.

End DictFacts.

Lemma for_each_invariant (A S : Type) (P : S -> Prop) (body : S -> A -> result S) (xs : list A) :
  (forall st x st', In x xs -> P st -> body st x = Ok st' -> P st') ->
  forall st st', P st -> for_each body xs st = Ok st' -> P st'.
Proof.
  induction xs as [|x xs IH]; intros Hbody st st' Hst H; simpl in H.
  - inversion H; subst. exact Hst.
  - destruct (body st x) as [st1|e] eqn:E; simpl in H; [|discriminate].
    apply (IH (fun s y s' Hy => Hbody s y s' (or_intror Hy)) st1 st'); [|exact H].
    exact (Hbody st x st1 (or_introl eq_refl) Hst E).
Qed.

(** ** The override engine *)

Section OverrideFacts.

Variable L : Library.

(** A patch leaves alone the ten fields that it has no key for. *)
Lemma apply_patch_untouched (incident patched : Incident) (patch : list (string * pyval)) :
  apply_patch L incident patch = Ok patched ->
  id patched = id incident /\ title patched = title incident /\
  url patched = url incident /\ source patched = source incident /\
  published_at patched = published_at incident /\ summary patched = summary incident /\
  location_text patched = location_text incident /\
  lat patched = lat incident /\ lon patched = lon incident /\
  source_type patched = source_type incident.
Proof.
  unfold apply_patch, bind.
  repeat match goal with
         | |- context [Dict.get ?k patch] => destruct (Dict.get k patch) eqn:?
         | |- context [Py.is_none ?v] => destruct (Py.is_none v) eqn:?
         | |- context [Py.to_int ?v] => destruct (Py.to_int v) eqn:?
         end;
    intros H; inversion H; subst; cbn; repeat split; reflexivity.
Qed.

(** A patch is applied without an exception as soon as the two counts it
    may carry can be read as integers. *)
Lemma apply_patch_returns (incident : Incident) (patch : list (string * pyval)) :
  (forall v, Dict.get "suspected_fatalities" patch = Some v -> exists n, Py.to_int v = Ok n) ->
  (forall v, Dict.get "verified_fatalities" patch = Some v ->
             Py.is_none v = true \/ exists n, Py.to_int v = Ok n) ->
  exists patched, apply_patch L incident patch = Ok patched.
Proof.
  intros Hs Hv. unfold apply_patch, bind.
  destruct (Dict.get "suspected_fatalities" patch) as [v1|].
  - destruct (Hs v1 eq_refl) as [n1 E1]. rewrite E1.
    destruct (Dict.get "verified_fatalities" patch) as [v2|]; [|eauto].
    destruct (Hv v2 eq_refl) as [E2|[n2 E2]]; rewrite E2; [eauto|].
    destruct (Py.is_none v2); eauto.
  - destruct (Dict.get "verified_fatalities" patch) as [v2|]; [|eauto].
    destruct (Hv v2 eq_refl) as [E2|[n2 E2]]; rewrite E2; [eauto|].
    destruct (Py.is_none v2); eauto.
Qed.

(** The iteration for the key of an incident of the dict stores the patched
    incident under that key. *)
Lemma override_step_patched (by_id : list (string * Incident)) (key : string)
      (incident patched : Incident) (patch : list (string * pyval)) :
  Dict.get key by_id = Some incident ->
  apply_patch L incident patch = Ok patched ->
  exists by_id',
    override_step L by_id (key, PDict patch) = Ok by_id' /\
    Dict.get key by_id' = Some patched.
Proof.
  intros Hget Hp. unfold override_step. rewrite Hget, Hp. simpl.
  eexists. split; [reflexivity|]. apply get_set_same.
Qed.

Lemma apply_patch_id (incident patched : Incident) (patch : list (string * pyval)) :
  apply_patch L incident patch = Ok patched -> id patched = id incident.
Proof. intros H. apply apply_patch_untouched in H. tauto. Qed.

Lemma apply_patch_coords (incident patched : Incident) (patch : list (string * pyval)) :
  apply_patch L incident patch = Ok patched ->
  lat patched = lat incident /\ lon patched = lon incident.
Proof. intros H. apply apply_patch_untouched in H. tauto. Qed.

(** C7.  When a patch is applied to an incident, the ten fields that no patch
    can name keep their value, each of the five patchable fields keeps its
    value when its key is absent from the patch, and a patch that maps
    [verified_fatalities] to null leaves that field null. *)
Theorem apply_patch_frame (incident patched : Incident) (patch : list (string * pyval)) :
  apply_patch L incident patch = Ok patched ->
  (id patched = id incident /\ title patched = title incident /\
   url patched = url incident /\ source patched = source incident /\
   published_at patched = published_at incident /\ summary patched = summary incident /\
   location_text patched = location_text incident /\
   lat patched = lat incident /\ lon patched = lon incident /\
   source_type patched = source_type incident) /\
  (Dict.get "construction_related" patch = None ->
   construction_related patched = construction_related incident) /\
  (Dict.get "suspected_fatalities" patch = None ->
   suspected_fatalities patched = suspected_fatalities incident) /\
  (Dict.get "verified_fatalities" patch = None ->
   verified_fatalities patched = verified_fatalities incident) /\
  (Dict.get "verification_status" patch = None ->
   verification_status patched = verification_status incident) /\
  (Dict.get "notes" patch = None -> notes patched = notes incident) /\
  (Dict.get "verified_fatalities" patch = Some PNone -> verified_fatalities patched = PNone).
Proof.
  unfold apply_patch, bind.
  repeat match goal with
         | |- context [Dict.get ?k patch] => destruct (Dict.get k patch) eqn:?
         | |- context [Py.is_none ?v] => destruct (Py.is_none v) eqn:?
         | |- context [Py.to_int ?v] => destruct (Py.to_int v) eqn:?
         end;
    intros H; inversion H; subst; cbn;
    repeat split; intros; try discriminate; try reflexivity;
    match goal with
    | Heq : Some _ = Some PNone |- _ => inversion Heq; subst; simpl in *; discriminate
    end.
Qed.

(** *** The dict keeps every incident under its own id *)

Lemma keyed_set (by_id : list (string * Incident)) (incident : Incident) :
  keyed_by_id by_id -> keyed_by_id (Dict.set (id incident) incident by_id).
Proof.
  intros [Hnd Hid]. split.
  - apply set_NoDup. exact Hnd.
  - apply set_Forall; [reflexivity|exact Hid].
Qed.

Lemma keyed_get (by_id : list (string * Incident)) (k : string) (incident : Incident) :
  keyed_by_id by_id -> Dict.get k by_id = Some incident -> id incident = k.
Proof.
  intros [_ Hid] Hget. apply get_In in Hget.
  rewrite Forall_forall in Hid. exact (Hid _ Hget).
Qed.

Lemma index_by_id_keyed (incidents : list Incident) : keyed_by_id (index_by_id incidents).
Proof.
  unfold index_by_id.
  assert (G : forall d, keyed_by_id d ->
                keyed_by_id (fold_left (fun by_id incident =>
                                          Dict.set (id incident) incident by_id) incidents d)).
  { induction incidents as [|x xs IH]; intros d Hd; simpl; [exact Hd|].
    apply IH. apply keyed_set. exact Hd. }
  apply G. split; [constructor|constructor].
Qed.

Lemma override_step_keyed (by_id by_id' : list (string * Incident)) (item : string * pyval) :
  keyed_by_id by_id -> override_step L by_id item = Ok by_id' -> keyed_by_id by_id'.
Proof.
  intros Hk. destruct item as [key patch]. unfold override_step.
  destruct (Dict.get key by_id) as [incident|] eqn:Hget;
    [|intros H; inversion H; subst; exact Hk].
  destruct patch; try (intros H; inversion H; subst; exact Hk).
  destruct (apply_patch L incident l) as [patched|e] eqn:Hp; simpl; [|discriminate].
  intros H. inversion H; subst.
  pose proof (keyed_get _ _ _ Hk Hget) as Hid.
  apply apply_patch_id in Hp. rewrite <- Hid, <- Hp. apply keyed_set. exact Hk.
Qed.

Lemma manual_step_keyed (by_id by_id' : list (string * Incident)) (raw : pyval) :
  keyed_by_id by_id -> manual_step L by_id raw = Ok by_id' -> keyed_by_id by_id'.
Proof.
  intros Hk. unfold manual_step.
  destruct (manual_incident L raw) as [[incident|]|e]; simpl; try discriminate;
    intros H; inversion H; subst; [apply keyed_set|]; exact Hk.
Qed.

Lemma keyed_values_NoDup (by_id : list (string * Incident)) :
  keyed_by_id by_id -> NoDup (map id (Dict.values by_id)).
Proof.
  intros [Hnd Hid]. unfold Dict.values. rewrite map_map.
  replace (map (fun kv => id (snd kv)) by_id) with (Dict.keys by_id); [exact Hnd|].
  unfold Dict.keys. apply map_ext_in. intros kv Hin.
  rewrite Forall_forall in Hid. symmetry. exact (Hid kv Hin).
Qed.

Lemma keyed_find (by_id : list (string * Incident)) (k : string) :
  keyed_by_id by_id -> find_by_id k (Dict.values by_id) = Dict.get k by_id.
Proof.
  intros [_ Hid]. unfold find_by_id, Dict.values.
  induction by_id as [|[k' v] d IH]; simpl; [reflexivity|].
  inversion Hid as [|? ? Hv Hd]; subst. simpl in Hv. rewrite Hv.
  destruct (String.eqb k' k); [reflexivity|exact (IH Hd)].
Qed.

(** *** The dict comprehension keeps the last incident of each id *)

Lemma find_app (A : Type) (f : A -> bool) (xs ys : list A) :
  find f (xs ++ ys) = match find f xs with Some x => Some x | None => find f ys end.
Proof.
  induction xs as [|x xs IH]; simpl; [reflexivity|].
  destruct (f x); [reflexivity|exact IH].
Qed.

Lemma index_by_id_last (incidents : list Incident) (k : string) :
  Dict.get k (index_by_id incidents) = last_with_id k incidents.
Proof.
  unfold index_by_id, last_with_id.
  assert (G : forall d,
             Dict.get k (fold_left (fun by_id incident =>
                                      Dict.set (id incident) incident by_id) incidents d)
             = match find (fun incident => String.eqb (id incident) k) (rev incidents) with
               | Some x => Some x
               | None => Dict.get k d
               end).
  { induction incidents as [|x xs IH]; intros d; simpl; [reflexivity|].
    rewrite IH, find_app. simpl.
    destruct (find (fun incident => String.eqb (id incident) k) (rev xs)); [reflexivity|].
    destruct (String.eqb (id x) k) eqn:E.
    - apply String.eqb_eq in E. subst k. apply get_set_same.
    - apply get_set_other. intros Heq. subst k. rewrite String.eqb_refl in E. discriminate. }
  rewrite G. simpl. destruct (find _ (rev incidents)); reflexivity.
Qed.

(** *** What the two loops leave alone *)

Lemma override_step_other (by_id by_id' : list (string * Incident)) (item : string * pyval)
      (k : string) :
  k <> fst item -> override_step L by_id item = Ok by_id' -> Dict.get k by_id' = Dict.get k by_id.
Proof.
  destruct item as [key patch]. simpl. intros Hne. unfold override_step.
  destruct (Dict.get key by_id) as [incident|]; [|intros H; inversion H; reflexivity].
  destruct patch; try (intros H; inversion H; reflexivity).
  destruct (apply_patch L incident l) as [patched|e]; simpl; [|discriminate].
  intros H. inversion H; subst. apply get_set_other. exact Hne.
Qed.

Lemma override_loop_other (items : list (string * pyval)) (k : string) :
  ~ In k (Dict.keys items) ->
  forall by_id by_id',
    for_each (override_step L) items by_id = Ok by_id' -> Dict.get k by_id' = Dict.get k by_id.
Proof.
  induction items as [|item items IH]; intros Hk by_id by_id' H; simpl in H.
  - inversion H. reflexivity.
  - destruct (override_step L by_id item) as [by_id1|e] eqn:E; simpl in H; [|discriminate].
    simpl in Hk. rewrite (IH (fun Hin => Hk (or_intror Hin)) _ _ H).
    apply (override_step_other _ _ item); [|exact E].
    intros Heq. apply Hk. left. symmetry. exact Heq.
Qed.

Lemma manual_loop_other (raws : list pyval) (k : string) :
  ~ In k (flat_map (fun raw => match manual_incident L raw with
                               | Ok (Some incident) => [id incident]
                               | _ => []
                               end) raws) ->
  forall by_id by_id',
    for_each (manual_step L) raws by_id = Ok by_id' -> Dict.get k by_id' = Dict.get k by_id.
Proof.
  induction raws as [|raw raws IH]; intros Hk by_id by_id' H; simpl in H.
  - inversion H. reflexivity.
  - destruct (manual_step L by_id raw) as [by_id1|e] eqn:E; simpl in H; [|discriminate].
    simpl in Hk. rewrite in_app_iff in Hk.
    rewrite (IH (fun Hin => Hk (or_intror Hin)) _ _ H).
    unfold manual_step in E.
    destruct (manual_incident L raw) as [[incident|]|e]; simpl in E; try discriminate;
      inversion E; subst; [|reflexivity].
    apply get_set_other. intros Heq. apply Hk. left. simpl. left. symmetry. exact Heq.
Qed.

(** C8.  Whenever [apply_manual_overrides] returns, the list it returns holds
    at most one incident per id, whatever the input list and the payload.
    Incidents of the input that share an id are collapsed onto the last of
    them: for an id that the payload neither patches nor gives to a manual
    record, the incident returned under that id is the last one of the input
    that carries it. *)
Theorem overrides_result_unique_ids (incidents result : list Incident)
        (payload : list (string * pyval)) :
  apply_manual_overrides L incidents payload = Ok result ->
  NoDup (map id result) /\
  (forall k, ~ In k (patched_ids payload) -> ~ In k (manual_ids L payload) ->
             find_by_id k result = last_with_id k incidents).
Proof.
  unfold apply_manual_overrides, patched_ids, manual_ids, manual_records.
  destruct (override_items payload) as [items|e]; simpl; [|discriminate].
  destruct (for_each (override_step L) items (index_by_id incidents)) as [by_id1|e] eqn:E1;
    simpl; [|discriminate].
  destruct (Py.iterate (Dict.get_default "manual_incidents" (PList []) payload)) as [raws|e];
    simpl; [|discriminate].
  destruct (for_each (manual_step L) raws by_id1) as [by_id2|e] eqn:E2; simpl; [|discriminate].
  intros H. inversion H; subst result.
  assert (K1 : keyed_by_id by_id1).
  { apply (for_each_invariant _ _ keyed_by_id _ _
             (fun st x st' _ Hst Hb => override_step_keyed st st' x Hst Hb) _ _
             (index_by_id_keyed incidents) E1). }
  assert (K2 : keyed_by_id by_id2).
  { apply (for_each_invariant _ _ keyed_by_id _ _
             (fun st x st' _ Hst Hb => manual_step_keyed st st' x Hst Hb) _ _ K1 E2). }
  split.
  - apply keyed_values_NoDup. exact K2.
  - intros k Hp Hm. rewrite (keyed_find _ _ K2).
    rewrite (manual_loop_other raws k Hm _ _ E2), (override_loop_other items k Hp _ _ E1).
    apply index_by_id_last.
Qed.

End OverrideFacts.

Lemma apply_patch_frame_witness :
  let patched := set_notes (set_verified_fatalities base_incident PNone) "Confirmed by WVSP" in
  title patched = "Test crash" /\
  lat patched = PFloat 39.4568 /\
  suspected_fatalities patched = 0%Z /\
  verification_status patched = "unverified" /\
  verified_fatalities patched = PNone.
Proof.
  intros patched.
  destruct (apply_patch_frame sample_library base_incident patched clearing_patch eq_refl)
    as (Hfixed & _ & Hsf & _ & Hvs & _ & Hvf).
  destruct Hfixed as (_ & Htitle & _ & _ & _ & _ & _ & Hlat & _).
  exact (conj Htitle (conj Hlat (conj (Hsf eq_refl) (conj (Hvs eq_refl) (Hvf eq_refl))))).
Defined.

Lemma overrides_result_unique_ids_witness :
  NoDup (map id [later_incident]) /\
  find_by_id "aabbccddeeff" [later_incident]
  = last_with_id "aabbccddeeff" [base_incident; later_incident].
Proof.
  destruct (overrides_result_unique_ids sample_library [base_incident; later_incident]
              [later_incident] empty_payload eq_refl) as [Hnodup Hlast].
  split; [exact Hnodup|].
  apply Hlast; vm_compute; tauto.
Defined.

(** ** Coordinates *)

Section CoordinateFacts.

Variable L : Library.

Lemma infer_location_paired (text location : string) (la lo : pyval) :
  Location.infer_location text = (location, la, lo) -> Py.is_none la = Py.is_none lo.
Proof.
  unfold Location.infer_location, Location.unspecified.
  destruct (Location.sorted_by_start _) as [|[s best] rest].
  - destruct (Location.first_hint _ _) as [[place [a b]]|]; intros H; inversion H; reflexivity.
  - destruct (Dict.get best LOCATION_HINTS) as [[a b]|]; intros H; inversion H; reflexivity.
Qed.

Lemma wv511_incident_paired (event_title : string) (b : block) :
  coords_paired (wv511_incident L event_title b).
Proof.
  unfold wv511_incident, coords_paired.
  destruct (Location.infer_location _) as [[location la] lo] eqn:E. simpl.
  exact (infer_location_paired _ _ _ _ E).
Qed.

Lemma parse_paired (lines : list string) :
  Forall coords_paired (parse_wv511_i79_incidents L lines).
Proof.
  apply Forall_forall. intros x Hx. apply parse_from_blocks in Hx.
  destruct Hx as (i & line & _ & _ & _ & Hx). subst x. apply wv511_incident_paired.
Qed.

Lemma to_wboy_incident_paired (post : wboy_post) (incident : Incident) :
  to_wboy_incident L post = Some incident -> coords_paired incident.
Proof.
  unfold to_wboy_incident.
  repeat match goal with
         | |- (if ?c then None else _) = _ -> _ => destruct c; [discriminate|]
         end.
  destruct (Location.infer_location _) as [[location la] lo] eqn:E.
  intros H. inversion H. unfold coords_paired. simpl.
  exact (infer_location_paired _ _ _ _ E).
Qed.

Lemma to_wdtv_incident_paired (entry : sitemap_entry) (incident : Incident) :
  to_wdtv_incident L entry = Some incident -> coords_paired incident.
Proof.
  unfold to_wdtv_incident. destruct (page entry) as [meta|]; [|discriminate].
  repeat match goal with
         | |- (if ?c then None else _) = _ -> _ => destruct c; [discriminate|]
         end.
  destruct (Location.infer_location _) as [[location la] lo] eqn:E.
  intros H. inversion H. unfold coords_paired. simpl.
  exact (infer_location_paired _ _ _ _ E).
Qed.

Lemma fetch_wdtv_paired (entries : list sitemap_entry) :
  Forall coords_paired (fetch_wdtv_historical_incidents L entries).
Proof.
  induction entries as [|entry entries IH]; simpl; [constructor|].
  destruct (negb _); [exact IH|].
  destruct (to_wdtv_incident L entry) as [incident|] eqn:E; [|exact IH].
  destruct (_ && _)%bool; [exact IH|].
  constructor; [exact (to_wdtv_incident_paired _ _ E)|exact IH].
Qed.

Lemma Forall_snoc (A : Type) (P : A -> Prop) (xs : list A) (x : A) :
  Forall P xs -> P x -> Forall P (xs ++ [x]).
Proof. intros Hxs Hx. apply Forall_app. split; [exact Hxs|constructor; [exact Hx|constructor]]. Qed.

Lemma feed_step_paired (st : list Incident * list string) (item : feed_item) :
  Forall coords_paired (fst st) -> Forall coords_paired (fst (feed_step L st item)).
Proof.
  destruct st as [incidents seen]. unfold feed_step. intros H.
  repeat match goal with
         | |- context [if ?c then (incidents, seen) else _] => destruct c; [exact H|]
         end.
  destruct (Location.infer_location _) as [[location la] lo] eqn:E. cbn [fst].
  apply Forall_snoc; [exact H|]. unfold coords_paired. simpl.
  exact (infer_location_paired _ _ _ _ E).
Qed.

Lemma archive_step_paired (st : list Incident * list string) (incident : Incident) :
  coords_paired incident ->
  Forall coords_paired (fst st) -> Forall coords_paired (fst (archive_step st incident)).
Proof.
  destruct st as [incidents seen]. unfold archive_step. intros Hi H.
  destruct (str_in (id incident) seen); [exact H|]. cbn [fst].
  apply Forall_snoc; assumption.
Qed.

Lemma wboy_step_paired (st : list Incident * list string) (post : wboy_post) :
  Forall coords_paired (fst st) -> Forall coords_paired (fst (wboy_step L st post)).
Proof.
  intros H. unfold wboy_step.
  destruct (to_wboy_incident L post) as [incident|] eqn:E; [|exact H].
  apply archive_step_paired; [exact (to_wboy_incident_paired _ _ E)|exact H].
Qed.

Lemma fold_left_paired (A : Type) (step : list Incident * list string -> A -> list Incident * list string)
      (xs : list A) :
  (forall st x, In x xs -> Forall coords_paired (fst st) -> Forall coords_paired (fst (step st x))) ->
  forall st, Forall coords_paired (fst st) -> Forall coords_paired (fst (fold_left step xs st)).
Proof.
  induction xs as [|x xs IH]; intros Hstep st Hst; simpl; [exact Hst|].
  apply IH.
  - intros st' y Hy. apply Hstep. right. exact Hy.
  - apply Hstep; [left; reflexivity|exact Hst].
Qed.

Lemma collect_paired (src : sources) : Forall coords_paired (collect L src).
Proof.
  unfold collect.
  pose proof (fold_left_paired _ (feed_step L) (feed_items src)
                (fun st x _ => feed_step_paired st x) ([], []) (Forall_nil _)) as H1.
  destruct (fold_left (feed_step L) (feed_items src) ([], [])) as [incidents1 seen1].
  cbn [fst] in H1.
  assert (H2 : Forall coords_paired
                 (incidents1 ++ parse_wv511_i79_incidents L (wv511_lines src))).
  { apply Forall_app. split; [exact H1|apply parse_paired]. }
  pose proof (fold_left_paired _ archive_step
                (fetch_wdtv_historical_incidents L (wdtv_entries src))
                (fun st x Hx =>
                   archive_step_paired st x
                     (proj1 (Forall_forall _ _) (fetch_wdtv_paired (wdtv_entries src)) x Hx))
                (incidents1 ++ parse_wv511_i79_incidents L (wv511_lines src), seen1) H2) as H3.
  destruct (fold_left archive_step _ _) as [incidents3 seen3]. cbn [fst] in H3.
  pose proof (fold_left_paired _ (wboy_step L) (wboy_posts src)
                (fun st x _ => wboy_step_paired st x) (incidents3, seen3) H3) as H4.
  destruct (fold_left (wboy_step L) _ _) as [incidents4 seen4]. exact H4.
Qed.

(** *** Through the override engine *)

Lemma index_by_id_paired (incidents : list Incident) :
  Forall coords_paired incidents -> values_paired (index_by_id incidents).
Proof.
  unfold index_by_id, values_paired.
  assert (G : forall d, Forall (fun kv : string * Incident => coords_paired (snd kv)) d ->
                Forall coords_paired incidents ->
                Forall (fun kv : string * Incident => coords_paired (snd kv))
                  (fold_left (fun by_id incident => Dict.set (id incident) incident by_id)
                             incidents d)).
  { induction incidents as [|x xs IH]; intros d Hd Hxs; simpl; [exact Hd|].
    inversion Hxs; subst. apply IH; [|assumption].
    apply set_Forall; assumption. }
  intros H. apply G; [constructor|exact H].
Qed.

Lemma override_step_paired (by_id by_id' : list (string * Incident)) (item : string * pyval) :
  values_paired by_id -> override_step L by_id item = Ok by_id' -> values_paired by_id'.
Proof.
  intros Hv. destruct item as [key patch]. unfold override_step.
  destruct (Dict.get key by_id) as [incident|] eqn:Hget;
    [|intros H; inversion H; subst; exact Hv].
  destruct patch; try (intros H; inversion H; subst; exact Hv).
  destruct (apply_patch L incident l) as [patched|e] eqn:Hp; simpl; [|discriminate].
  intros H. inversion H; subst. apply set_Forall; [|exact Hv]. simpl.
  apply get_In in Hget. unfold values_paired in Hv. rewrite Forall_forall in Hv.
  specialize (Hv _ Hget). simpl in Hv.
  apply apply_patch_coords in Hp. destruct Hp as [Hla Hlo].
  unfold coords_paired in *. rewrite Hla, Hlo. exact Hv.
Qed.

Lemma manual_incident_paired (raw : pyval) (incident : Incident) :
  coords_given_together raw ->
  manual_incident L raw = Ok (Some incident) -> coords_paired incident.
Proof.
  unfold manual_incident, coords_given_together.
  destruct raw as [| | | | |l|d]; try discriminate.
  intros Hc. destruct (negb _); [discriminate|].
  destruct (Location.infer_location _) as [[location la] lo] eqn:E.
  destruct (Py.to_int _) as [n|e]; simpl; [|discriminate].
  intros H. inversion H. unfold coords_paired, Dict.get_default. simpl.
  destruct (Dict.get "lat" d) as [a|]; destruct (Dict.get "lon" d) as [b|];
    try contradiction; [exact Hc|].
  exact (infer_location_paired _ _ _ _ E).
Qed.

Lemma coords_given_together_dec (raw : pyval) :
  coords_given_together raw \/ ~ coords_given_together raw.
Proof.
  destruct raw as [| | | | |l|d]; simpl; try (left; exact I).
  destruct (Dict.get "lat" d) as [a|]; destruct (Dict.get "lon" d) as [b|]; try tauto.
  destruct (Bool.bool_dec (Py.is_none a) (Py.is_none b)); tauto.
Qed.

Lemma manual_step_origin (raws : list pyval) (by_id by_id' : list (string * Incident))
      (raw : pyval) :
  In raw raws ->
  Forall (fun kv => paired_or_split_by L raws (snd kv)) by_id ->
  manual_step L by_id raw = Ok by_id' ->
  Forall (fun kv => paired_or_split_by L raws (snd kv)) by_id'.
Proof.
  intros Hraw Hv. unfold manual_step.
  destruct (manual_incident L raw) as [[incident|]|e] eqn:E; simpl; try discriminate;
    intros H; inversion H; subst; [|exact Hv].
  apply set_Forall; [|exact Hv]. simpl.
  destruct (coords_given_together_dec raw) as [Hc|Hc].
  - left. exact (manual_incident_paired _ _ Hc E).
  - right. destruct raw as [| | | | |l|d]; try (exfalso; apply Hc; exact I).
    exists d. auto.
Qed.

(** What a manual record makes of its coordinates: each comes from the
    record when its key is there and from the resolver otherwise. *)
Lemma manual_incident_coords (fields : list (string * pyval)) (incident : Incident) :
  manual_incident L (PDict fields) = Ok (Some incident) ->
  exists location la lo,
    Location.infer_location (title incident ++ " " ++ summary incident) = (location, la, lo) /\
    lat incident = Dict.get_default "lat" la fields /\
    lon incident = Dict.get_default "lon" lo fields.
Proof.
  unfold manual_incident.
  destruct (negb _); [discriminate|].
  destruct (Location.infer_location _) as [[location la] lo] eqn:E.
  destruct (Py.to_int _) as [n|e]; cbn [bind]; [|discriminate].
  intros H. inversion H; subst incident; clear H. cbn [title summary lat lon].
  exists location, la, lo. auto.
Qed.

Lemma insert_newest_first_In (x z : Incident) (sorted : list Incident) :
  In z (insert_newest_first x sorted) <-> z = x \/ In z sorted.
Proof.
  induction sorted as [|y sorted IH]; simpl.
  - intuition congruence.
  - destruct (String.leb (published_at y) (published_at x)); simpl; [|rewrite IH];
      intuition congruence.
Qed.

(** Sorting neither adds nor drops an incident. *)
Lemma sort_newest_first_In (z : Incident) (incidents : list Incident) :
  In z (sort_newest_first incidents) <-> In z incidents.
Proof.
  induction incidents as [|x xs IH]; simpl; [tauto|].
  rewrite insert_newest_first_In, IH. intuition congruence.
Qed.

(** C2 (as amended).  The candidates of the feeds, the delay listing and
    the two archives all have [lat] and [lon] both null or both set, whatever
    the manual records hold, and a patch never touches the coordinates.
    Every incident of the dataset that [build_dataset] returns has them both
    null or both set, unless it is the incident made from a manual record
    that does not give the two coordinates together (one key without the
    other, or one value null and the other not).  The incident made from a
    manual record takes [lat] from the record when the key is there and from
    the location resolver otherwise, and [lon] likewise, each on its own; the
    two values of the resolver are both null or both set. *)
Theorem dataset_coords_by_origin (src : sources) (result : list Incident) (incident : Incident) :
  build_dataset L src = Ok result ->
  In incident result ->
  (forall candidate, In candidate (collect L src) -> coords_paired candidate) /\
  (coords_paired incident \/
   exists fields,
     In (PDict fields) (manual_records (manual_overrides src)) /\
     manual_incident L (PDict fields) = Ok (Some incident) /\
     ~ coords_given_together (PDict fields)) /\
  (forall fields,
     manual_incident L (PDict fields) = Ok (Some incident) ->
     exists location la lo,
       Location.infer_location (title incident ++ " " ++ summary incident)
         = (location, la, lo) /\
       Py.is_none la = Py.is_none lo /\
       lat incident = Dict.get_default "lat" la fields /\
       lon incident = Dict.get_default "lon" lo fields).
Proof.
  intros H Hin. split; [|split].
  - exact (proj1 (Forall_forall _ _) (collect_paired src)).
  - revert H Hin. unfold build_dataset, apply_manual_overrides, manual_records.
    destruct (override_items (manual_overrides src)) as [items|e]; simpl; [|discriminate].
    destruct (for_each (override_step L) items (index_by_id (collect L src)))
      as [by_id1|e] eqn:E1; simpl; [|discriminate].
    destruct (Py.iterate (Dict.get_default "manual_incidents" (PList []) (manual_overrides src)))
      as [raws|e]; simpl; [|discriminate].
    destruct (for_each (manual_step L) raws by_id1) as [by_id2|e] eqn:E2; simpl; [|discriminate].
    intros H Hin. inversion H; subst result.
    apply (proj1 (sort_newest_first_In _ _)) in Hin.
    assert (V1 : values_paired by_id1).
    { apply (for_each_invariant _ _ values_paired _ _
               (fun st x st' _ Hst Hb => override_step_paired st st' x Hst Hb) _ _
               (index_by_id_paired _ (collect_paired src)) E1). }
    assert (V2 : Forall (fun kv => paired_or_split_by L raws (snd kv)) by_id2).
    { apply (for_each_invariant _ _
               (fun by_id => Forall (fun kv => paired_or_split_by L raws (snd kv)) by_id) _ _
               (fun st x st' Hx Hst Hb => manual_step_origin raws st st' x Hx Hst Hb) _ _
               (Forall_impl _ (fun kv Hkv => or_introl Hkv) V1) E2). }
    unfold Dict.values in Hin. apply in_map_iff in Hin. destruct Hin as (kv & Hkv & Hin).
    subst incident. rewrite Forall_forall in V2. exact (V2 kv Hin).
  - intros fields Hm. destruct (manual_incident_coords _ _ Hm) as (location & la & lo & E & Hla & Hlo).
    exists location, la, lo. split; [exact E|]. split; [exact (infer_location_paired _ _ _ _ E)|].
    split; assumption.
Qed.

End CoordinateFacts.

(** Whatever the digest, the record of [lat_only_sources] comes out with
    [lat] set and [lon] null. *)
Lemma lat_only_record_unpaired (L : Library) :
  exists incident,
    build_dataset L lat_only_sources = Ok [incident] /\
    lat incident = PFloat 39.5 /\ lon incident = PNone.
Proof.
  eexists. split; [vm_compute; reflexivity|]. split; reflexivity.
Qed.

(** C2 as stated does not hold: a manual record that gives [lat] alone, on a
    text in which no place is recognised, yields an incident whose [lat] is
    set and whose [lon] is null. *)
Lemma manual_record_splits_coords :
  ~ (forall (L : Library) (src : sources) (result : list Incident) (incident : Incident),
        build_dataset L src = Ok result -> In incident result -> coords_paired incident).
Proof.
  intros H.
  destruct (lat_only_record_unpaired sample_library) as (incident & Hb & Hlat & Hlon).
  specialize (H sample_library lat_only_sources [incident] incident Hb (or_introl eq_refl)).
  unfold coords_paired in H. rewrite Hlat, Hlon in H. discriminate.
Qed.

(** In [mixed_sources] the record of the delay listing is paired although
    the manual record next to it is not. *)
Lemma dataset_coords_by_origin_witness :
  exists result incident,
    build_dataset sample_library mixed_sources = Ok result /\
    In incident result /\
    source_type incident = "official_wv511" /\
    coords_paired incident.
Proof.
  destruct (build_dataset sample_library mixed_sources) as [result|e] eqn:Hb;
    [|vm_compute in Hb; discriminate].
  pose proof Hb as Hv. vm_compute in Hv.
  match type of Hv with
  | Ok (?x :: _) = Ok result =>
      assert (Hin : In x result) by (inversion Hv; left; reflexivity);
      exists result, x; split; [reflexivity|]; split; [exact Hin|]; split; [reflexivity|];
      destruct (proj1 (proj2 (dataset_coords_by_origin sample_library mixed_sources result x
                                Hb Hin)))
        as [Hp|(fields & Hf & Hm & _)]; [exact Hp|]
  end.
  vm_compute in Hf. destruct Hf as [Hf|[]]. inversion Hf; subst fields.
  vm_compute in Hm. discriminate.
Defined.

(** ** The merge of [build_dataset] *)

Section MergeFacts.

Variable L : Library.

Lemma index_by_id_pair (a b : Incident) :
  id a = id b -> index_by_id [a; b] = [(id a, b)].
Proof.
  intros H. unfold index_by_id. simpl. rewrite H, String.eqb_refl. reflexivity.
Qed.

(** C1 fails on the code.  The delay-listing candidates are appended without
    being looked up in, or added to, the [seen] set that guards the three
    other sources.  On [colliding_sources] the feed gives a candidate, the
    delay listing gives a later candidate under the same id, both reach the
    override engine, and the dataset keeps the later one: the feed candidate,
    which comes first in the priority order, is replaced. *)
Theorem delay_listing_replaces_feed_candidate :
  exists feed_candidate delay_candidate,
    collect L (colliding_sources L) = [feed_candidate; delay_candidate] /\
    source_type feed_candidate = "news" /\
    source_type delay_candidate = "official_wv511" /\
    id feed_candidate = id delay_candidate /\
    build_dataset L (colliding_sources L) = Ok [delay_candidate].
Proof.
  eexists. eexists.
  assert (Hc : collect L (colliding_sources L)
               = [ {| id := incident_id L (item_link (colliding_feed_item L)) "I-79 crash";
                      title := "I-79 crash";
                      url := item_link (colliding_feed_item L);
                      source := "example.com";
                      published_at := parse_date L "";
                      summary := "Crash reported by a viewer.";
                      location_text := "Unspecified stretch";
                      lat := PNone; lon := PNone;
                      construction_related := false;
                      suspected_fatalities := 0;
                      source_type := "news";
                      verification_status := "unverified";
                      verified_fatalities := PNone;
                      notes := "" |};
                   wv511_incident L "crash" (mkBlock "" "Marion County" "" "") ]).
  { vm_compute. reflexivity. }
  split; [exact Hc|]. split; [reflexivity|]. split; [vm_compute; reflexivity|].
  split; [vm_compute; reflexivity|].
  unfold build_dataset, apply_manual_overrides. rewrite Hc.
  rewrite index_by_id_pair by (vm_compute; reflexivity).
  reflexivity.
Qed.

End MergeFacts.

(** ** The cases of the repository's unit tests *)

Example test_extract_fatalities :
  map Fatalities.extract_fatalities
      ["Traffic backup on I-79 near Fairmont"; "2 dead in I-79 crash"; "Crash killed 3 on I-79";
       "1 fatality reported on I-79"; "2 people were killed in the crash";
       "one dead after I-79 collision"; "three dead following overnight wreck";
       "two people were killed in the accident"; "fatal crash on I-79";
       "Driver pronounced dead at the scene";
       "Medical examiner called to the scene of the crash"; "15 dead in massive pileup"]
  = [0; 2; 3; 1; 2; 1; 3; 2; 1; 1; 1; 1]%Z.
Proof. vm_compute. reflexivity. Qed.

Example test_infer_location :
  map (fun text => fst (fst (Location.infer_location text)))
      ["Crash in Marion County on I-79"; "I-79 accident in Monongalia County";
       "Harrison County crash"; "Crash near Morgantown on I-79"; "I-79 wreck near Fairmont";
       "Accident near Bridgeport"; "Marion County crash near Fairmont";
       "Crash on some unnamed stretch"]
  = ["Marion County"; "Monongalia County"; "Harrison County"; "Morgantown"; "Fairmont";
     "Bridgeport"; "Marion County"; "Unspecified stretch"].
Proof. vm_compute. reflexivity. Qed.

Example test_likely_relevant :
  map likely_relevant
      ["I-79 crash near Morgantown"; "Interstate 79 accident blocks traffic";
       "I 79 wreck closes northbound lanes"; "I-79 construction update";
       "car crash on Route 50 near Clarksburg"; ""; "INTERSTATE 79 ROLLOVER"]
  = [true; true; true; false; false; false; true].
Proof. vm_compute. reflexivity. Qed.

Example test_parse_wv511 :
  map (fun incident => (title incident, location_text incident, source_type incident,
                        verification_status incident, construction_related incident))
      (parse_wv511_i79_incidents sample_library SAMPLE_WV511_LINES)
  = [("I-79 Possible Delay", "Marion County", "official_wv511", "official", true);
     ("I-79 Road Work", "Monongalia County", "official_wv511", "official", true)].
Proof. vm_compute. reflexivity. Qed.

Example test_text_to_bool :
  map text_to_bool ["true"; "True"; "TRUE"; "1"; "yes"; "Yes"; "y"; "Y";
                    "false"; "False"; "0"; "no"; ""; "maybe"]
  = [true; true; true; true; true; true; true; true;
     false; false; false; false; false; false].
Proof. vm_compute. reflexivity. Qed.

(** A city first, then the county that is last in the tuple, then another
    county: the leftmost county is attributed. *)
Example leftmost_county_wins :
  Location.infer_location "Fairmont: Harrison County line near Marion County"
  = ("Harrison County", PFloat 39.3032, PFloat (-80.3781)).
Proof. vm_compute. reflexivity. Qed.

(** ** More on the dataset as a whole *)

Section DatasetFacts.

Variable L : Library.

(** What the override engine returns is the list of values of a dict in
    which every incident sits under its own id. *)
Lemma overrides_values_keyed (incidents result : list Incident) (payload : list (string * pyval)) :
  apply_manual_overrides L incidents payload = Ok result ->
  exists by_id, keyed_by_id by_id /\ result = Dict.values by_id.
Proof.
  unfold apply_manual_overrides.
  destruct (override_items payload) as [items|e]; simpl; [|discriminate].
  destruct (for_each (override_step L) items (index_by_id incidents)) as [by_id1|e] eqn:E1;
    simpl; [|discriminate].
  destruct (Py.iterate (Dict.get_default "manual_incidents" (PList []) payload)) as [raws|e];
    simpl; [|discriminate].
  destruct (for_each (manual_step L) raws by_id1) as [by_id2|e] eqn:E2; simpl; [|discriminate].
  intros H. inversion H; subst result. exists by_id2. split; [|reflexivity].
  assert (K1 : keyed_by_id by_id1).
  { apply (for_each_invariant _ _ keyed_by_id _ _
             (fun st x st' _ Hst Hb => override_step_keyed L st st' x Hst Hb) _ _
             (index_by_id_keyed incidents) E1). }
  apply (for_each_invariant _ _ keyed_by_id _ _
           (fun st x st' _ Hst Hb => manual_step_keyed L st st' x Hst Hb) _ _ K1 E2).
Qed.

Lemma insert_newest_first_perm (x : Incident) (sorted : list Incident) :
  Permutation (insert_newest_first x sorted) (x :: sorted).
Proof.
  induction sorted as [|y sorted IH]; simpl; [apply Permutation_refl|].
  destruct (String.leb (published_at y) (published_at x)); [apply Permutation_refl|].
  apply Permutation_trans with (y :: x :: sorted).
  - apply perm_skip. exact IH.
  - apply perm_swap.
Qed.

Lemma sort_newest_first_perm (incidents : list Incident) :
  Permutation (sort_newest_first incidents) incidents.
Proof.
  induction incidents as [|x xs IH]; simpl; [apply perm_nil|].
  apply Permutation_trans with (x :: sort_newest_first xs).
  - apply insert_newest_first_perm.
  - apply perm_skip. exact IH.
Qed.

Lemma insert_newest_first_sorted (x : Incident) (sorted : list Incident) :
  Sorted not_older sorted -> Sorted not_older (insert_newest_first x sorted).
Proof.
  induction sorted as [|y sorted IH]; intros Hs; simpl.
  - constructor; constructor.
  - destruct (String.leb (published_at y) (published_at x)) eqn:E.
    + constructor; [exact Hs|]. constructor. exact E.
    + inversion Hs as [|? ? Hs' Hhd]; subst. constructor; [exact (IH Hs')|].
      assert (Hyx : not_older y x).
      { unfold not_older. destruct (String.leb_total (published_at x) (published_at y)) as [H|H];
          [exact H|congruence]. }
      destruct sorted as [|z sorted]; simpl.
      * constructor. exact Hyx.
      * destruct (String.leb (published_at z) (published_at x)).
        -- constructor. exact Hyx.
        -- constructor. inversion Hhd. assumption.
Qed.

Lemma sort_newest_first_sorted (incidents : list Incident) :
  Sorted not_older (sort_newest_first incidents).
Proof.
  induction incidents as [|x xs IH]; simpl; [constructor|].
  apply insert_newest_first_sorted. exact IH.
Qed.

Lemma leb_empty (s : string) : String.leb s "" = true -> s = "".
Proof. destruct s; [reflexivity|]. unfold String.leb. simpl. discriminate. Qed.

(** In a list sorted newest first, only incidents without a time stamp
    follow an incident without a time stamp. *)
Lemma undated_last (incidents : list Incident) :
  Sorted not_older incidents ->
  forall before a after,
    incidents = before ++ a :: after -> published_at a = "" ->
    forall b, In b after -> published_at b = "".
Proof.
  intros Hs before. revert incidents Hs.
  induction before as [|x before IH]; intros incidents Hs a after Heq Ha b Hb; subst incidents.
  - revert a Ha Hs b Hb. induction after as [|c after IHa]; intros a Ha Hs b Hb; [destruct Hb|].
    inversion Hs as [|? ? Hs' Hhd]; subst. inversion Hhd as [|? ? Hac]; subst.
    unfold not_older in Hac. rewrite Ha in Hac. apply leb_empty in Hac.
    destruct Hb as [Hb|Hb]; [subst; exact Hac|].
    exact (IHa c Hac Hs' b Hb).
  - simpl in Hs. inversion Hs as [|? ? Hs' _]; subst.
    exact (IH _ Hs' a after eq_refl Ha b Hb).
Qed.

(** X1.  Whenever [build_dataset] returns, no two incidents of the dataset
    share an id. *)
Theorem dataset_unique_ids (src : sources) (result : list Incident) :
  build_dataset L src = Ok result -> NoDup (map id result).
Proof.
  unfold build_dataset.
  destruct (apply_manual_overrides L (collect L src) (manual_overrides src))
    as [merged|e] eqn:E; simpl; [|discriminate].
  intros H. inversion H; subst result.
  apply overrides_values_keyed in E. destruct E as (by_id & Hk & Hm). subst merged.
  apply (Permutation_NoDup (l := map id (Dict.values by_id))).
  - apply Permutation_map. apply Permutation_sym. apply sort_newest_first_perm.
  - apply keyed_values_NoDup. exact Hk.
Qed.

(** X2.  The dataset is the output of the override engine put in order:
    it holds the same incidents, newest [published_at] first (text order),
    and an incident without a time stamp is followed only by incidents
    without one. *)
Theorem dataset_newest_first (src : sources) (result : list Incident) :
  build_dataset L src = Ok result ->
  (exists merged,
      apply_manual_overrides L (collect L src) (manual_overrides src) = Ok merged /\
      Permutation result merged) /\
  Sorted not_older result /\
  (forall before a after,
      result = before ++ a :: after -> published_at a = "" ->
      forall b, In b after -> published_at b = "").
Proof.
  unfold build_dataset.
  destruct (apply_manual_overrides L (collect L src) (manual_overrides src))
    as [merged|e] eqn:E; simpl; [|discriminate].
  intros H. inversion H; subst result. split; [|split].
  - exists merged. split; [reflexivity|apply sort_newest_first_perm].
  - apply sort_newest_first_sorted.
  - apply undated_last. apply sort_newest_first_sorted.
Qed.

End DatasetFacts.

Lemma dataset_unique_ids_witness :
  NoDup (map id [wv511_incident sample_library "crash" (mkBlock "" "Marion County" "" "")]).
Proof.
  apply (dataset_unique_ids sample_library (colliding_sources sample_library)).
  vm_compute. reflexivity.
Defined.

Lemma dataset_newest_first_witness :
  exists result,
    build_dataset sample_library manual_sources = Ok result /\
    Sorted not_older result /\ map published_at result
    = ["02/15/2025 11:00:00 AM"; "02/15/2025 10:30:00 AM"; ""].
Proof.
  destruct (build_dataset sample_library manual_sources) as [result|e] eqn:E;
    [|vm_compute in E; discriminate].
  exists result. split; [reflexivity|].
  split; [exact (proj1 (proj2 (dataset_newest_first sample_library manual_sources result E)))|].
  vm_compute in E. inversion E. reflexivity.
Defined.

(** ** More on the override engine *)

Section EngineFacts.

Variable L : Library.

Lemma str_in_In (x : string) (xs : list string) : str_in x xs = true <-> In x xs.
Proof.
  unfold str_in. rewrite existsb_exists. split.
  - intros (y & Hy & E). apply String.eqb_eq in E. subst y. exact Hy.
  - intros H. exists x. split; [exact H|apply String.eqb_refl].
Qed.

Lemma get_None_keys (V : Type) (k : string) (d : list (string * V)) :
  Dict.get k d = None <-> ~ In k (Dict.keys d).
Proof.
  unfold Dict.keys. induction d as [|[k' v] d IH]; simpl; [tauto|].
  destruct (String.eqb k' k) eqn:E.
  - apply String.eqb_eq in E. split; [discriminate|]. intros H. exfalso. apply H. left. exact E.
  - rewrite IH. split; [|tauto]. intros H [Hk|Hk]; [|tauto].
    subst k'. rewrite String.eqb_refl in E. discriminate.
Qed.

Lemma set_fresh (V : Type) (k : string) (v : V) (d : list (string * V)) :
  ~ In k (Dict.keys d) -> Dict.set k v d = d ++ [(k, v)].
Proof.
  unfold Dict.keys. induction d as [|[k' v'] d IH]; simpl; intros H; [reflexivity|].
  destruct (String.eqb k' k) eqn:E.
  - apply String.eqb_eq in E. tauto.
  - rewrite IH; [reflexivity|tauto].
Qed.

(** On a list without repeated ids the dict comprehension keeps the list. *)
Lemma index_by_id_nodup (incidents : list Incident) :
  NoDup (map id incidents) ->
  index_by_id incidents = map (fun incident => (id incident, incident)) incidents.
Proof.
  unfold index_by_id.
  assert (G : forall d,
             NoDup (Dict.keys d ++ map id incidents) ->
             fold_left (fun by_id incident => Dict.set (id incident) incident by_id) incidents d
             = d ++ map (fun incident => (id incident, incident)) incidents).
  { induction incidents as [|x xs IH]; intros d Hd; simpl; [symmetry; apply app_nil_r|].
    simpl in Hd. rewrite set_fresh.
    - rewrite IH.
      + rewrite <- app_assoc. reflexivity.
      + unfold Dict.keys in *. rewrite map_app. simpl. rewrite <- app_assoc. simpl.
        apply NoDup_remove_1 in Hd as Hd1.
        apply NoDup_remove_2 in Hd as Hd2.
        apply Permutation_NoDup with (l := id x :: map fst d ++ map id xs).
        * apply Permutation_middle.
        * constructor; assumption.
    - apply NoDup_remove_2 in Hd. intros Hin. apply Hd. apply in_or_app. left. exact Hin. }
  intros H. apply (G [] H).
Qed.

Lemma values_of_index (incidents : list Incident) :
  Dict.values (map (fun incident => (id incident, incident)) incidents) = incidents.
Proof.
  unfold Dict.values. rewrite map_map. simpl. apply map_id.
Qed.

Lemma index_by_id_keys (incidents : list Incident) (k : string) :
  In k (Dict.keys (index_by_id incidents)) <-> In k (map id incidents).
Proof.
  split.
  - intros H. destruct (Dict.get k (index_by_id incidents)) as [x|] eqn:E.
    + rewrite index_by_id_last in E. unfold last_with_id in E.
      apply find_some in E. destruct E as [Hin E]. apply String.eqb_eq in E. subst k.
      apply in_map. apply in_rev. exact Hin.
    + apply get_None_keys in E. contradiction.
  - intros H. destruct (Dict.get k (index_by_id incidents)) as [x|] eqn:E.
    + apply get_In in E. apply (in_map fst) in E. exact E.
    + rewrite index_by_id_last in E. unfold last_with_id in E.
      apply in_map_iff in H. destruct H as (x & Hx & Hin).
      apply in_rev in Hin. pose proof (find_none _ _ E x Hin) as Hf. simpl in Hf.
      subst k. rewrite String.eqb_refl in Hf. discriminate.
Qed.

Lemma for_each_app (A S : Type) (body : S -> A -> result S) (xs ys : list A) (st : S) :
  for_each body (xs ++ ys) st = bind (for_each body xs st) (for_each body ys).
Proof.
  revert st. induction xs as [|x xs IH]; intros st; simpl; [reflexivity|].
  destruct (body st x) as [st'|e]; simpl; [apply IH|reflexivity].
Qed.

(** A loop raises as soon as one of its items raises in every state that
    the loop can be in. *)
Lemma for_each_raises (A S : Type) (P : S -> Prop) (body : S -> A -> result S)
      (xs : list A) (x : A) :
  In x xs ->
  (forall st, P st -> exists e, body st x = Raise e) ->
  (forall st y st', P st -> body st y = Ok st' -> P st') ->
  forall st, P st -> exists e, for_each body xs st = Raise e.
Proof.
  intros Hin Hx Hkeep. induction xs as [|y ys IH]; [destruct Hin|].
  intros st Hst. simpl. destruct Hin as [Hin|Hin].
  - subst y. destruct (Hx st Hst) as [e He]. rewrite He. simpl. eauto.
  - destruct (body st y) as [st'|e] eqn:E; simpl; [|eauto].
    apply (IH Hin). exact (Hkeep st y st' Hst E).
Qed.

(** Patches for ids that no incident carries change nothing, whatever they
    contain: their values are never read. *)
Lemma override_loop_unknown (items : list (string * pyval)) (by_id : list (string * Incident)) :
  (forall k, In k (Dict.keys items) -> ~ In k (Dict.keys by_id)) ->
  for_each (override_step L) items by_id = Ok by_id.
Proof.
  induction items as [|[key patch] items IH]; intros H; simpl; [reflexivity|].
  assert (Hk : Dict.get key by_id = None).
  { apply get_None_keys. apply H. left. reflexivity. }
  rewrite Hk. simpl. apply IH. intros k Hin. apply H. right. exact Hin.
Qed.

Lemma manual_loop_skips (raws : list pyval) (by_id : list (string * Incident)) :
  (forall raw, In raw raws -> manual_incident L raw = Ok None) ->
  for_each (manual_step L) raws by_id = Ok by_id.
Proof.
  induction raws as [|raw raws IH]; intros H; simpl; [reflexivity|].
  unfold manual_step at 1. rewrite (H raw (or_introl eq_refl)). simpl.
  apply IH. intros r Hr. apply H. right. exact Hr.
Qed.

(** X3.  The override engine is the identity on a list without repeated ids
    when every patch names an id that no incident carries (whatever the patch
    holds) and no manual record yields an incident (no record, a record that
    is not an object, or one without a title). *)
Theorem overrides_change_nothing (incidents : list Incident) (payload : list (string * pyval)) :
  NoDup (map id incidents) ->
  (exists items, override_items payload = Ok items) ->
  (forall k, In k (patched_ids payload) -> ~ In k (map id incidents)) ->
  (exists raws, Py.iterate (Dict.get_default "manual_incidents" (PList []) payload) = Ok raws) ->
  (forall raw, In raw (manual_records payload) -> manual_incident L raw = Ok None) ->
  apply_manual_overrides L incidents payload = Ok incidents.
Proof.
  intros Hnd [items Hitems] Hunknown [raws Hraws] Hskip.
  unfold apply_manual_overrides, patched_ids, manual_records in *.
  rewrite Hitems in *. rewrite Hraws in *. simpl.
  rewrite override_loop_unknown.
  - simpl. rewrite (manual_loop_skips raws _ Hskip). simpl.
    rewrite (index_by_id_nodup _ Hnd), values_of_index. reflexivity.
  - intros k Hk Hin. apply index_by_id_keys in Hin. exact (Hunknown k Hk Hin).
Qed.

(** X4.  When the overrides document is missing, is not JSON
    ([json.JSONDecodeError]) or decodes to something that is not an object,
    the document counts as empty and the override stage hands back a list
    without repeated ids as it received it.  (A document whose reading raises
    anything else is not covered: [load_manual_overrides] lets that
    exception through.) *)
Theorem unusable_overrides_change_nothing (file : overrides_file) (incidents : list Incident) :
  match file with Decoded (PDict _) | Unreadable _ => False | _ => True end ->
  NoDup (map id incidents) ->
  load_manual_overrides file = Ok empty_payload /\
  (payload <- load_manual_overrides file ;; apply_manual_overrides L incidents payload)
  = Ok incidents.
Proof.
  intros Hfile Hnd.
  assert (Hload : load_manual_overrides file = Ok empty_payload).
  { destruct file as [|e| |v]; try reflexivity; [destruct Hfile|].
    destruct v; try reflexivity. destruct Hfile. }
  split; [exact Hload|].
  rewrite Hload. unfold apply_manual_overrides. simpl.
  rewrite (index_by_id_nodup _ Hnd), values_of_index. reflexivity.
Qed.

Lemma override_step_keeps_key (by_id by_id' : list (string * Incident)) (item : string * pyval)
      (k : string) :
  (exists x, Dict.get k by_id = Some x) ->
  override_step L by_id item = Ok by_id' -> exists x, Dict.get k by_id' = Some x.
Proof.
  intros Hk. destruct item as [key patch]. unfold override_step.
  destruct (Dict.get key by_id) as [incident|]; [|intros H; inversion H; subst; exact Hk].
  destruct patch; try (intros H; inversion H; subst; exact Hk).
  destruct (apply_patch L incident l) as [patched|e]; simpl; [|discriminate].
  intros H. inversion H; subst.
  destruct (String.eqb key k) eqn:E.
  - apply String.eqb_eq in E. subst key. rewrite get_set_same. eauto.
  - rewrite get_set_other; [exact Hk|]. intros Heq. subst k.
    rewrite String.eqb_refl in E. discriminate.
Qed.

Lemma apply_patch_bad_count (incident : Incident) (patch : list (string * pyval))
      (v : pyval) (e : exn) :
  (Dict.get "suspected_fatalities" patch = Some v \/
   (Dict.get "verified_fatalities" patch = Some v /\ Py.is_none v = false)) ->
  Py.to_int v = Raise e ->
  exists e', apply_patch L incident patch = Raise e'.
Proof.
  intros [Hs|[Hv Hn]] He; unfold apply_patch, bind.
  - rewrite Hs, He. eauto.
  - destruct (Dict.get "suspected_fatalities" patch) as [v1|].
    + destruct (Py.to_int v1); [|eauto]. rewrite Hv, Hn, He. eauto.
    + rewrite Hv, Hn, He. eauto.
Qed.

(** X5.  A patch for the id of an incident of the list whose
    [suspected_fatalities], or whose non-null [verified_fatalities], is a
    value that [int] refuses (null, a list, an object, a float that is not
    finite, or ASCII text that is not an integer literal of at most 4300
    digits) makes the override engine raise: no list is returned, and the
    patch is not skipped. *)
Theorem unreadable_count_aborts (incidents : list Incident) (payload items patch : list (string * pyval))
        (key : string) (v : pyval) (e : exn) :
  Dict.get "incident_overrides" payload = Some (PDict items) ->
  In (key, PDict patch) items ->
  In key (map id incidents) ->
  (Dict.get "suspected_fatalities" patch = Some v \/
   (Dict.get "verified_fatalities" patch = Some v /\ Py.is_none v = false)) ->
  (forall text, v = PStr text -> PyStr.is_ascii text = true) ->
  Py.to_int v = Raise e ->
  exists e', apply_manual_overrides L incidents payload = Raise e'.
Proof.
  intros Hitems Hin Hkey Hbad _ He.
  unfold apply_manual_overrides, override_items. rewrite Hitems. simpl.
  destruct (for_each_raises _ _ (fun by_id => exists x, Dict.get key by_id = Some x)
              (override_step L) items (key, PDict patch) Hin) with (st := index_by_id incidents)
    as [e' He'].
  - intros st [x Hx]. unfold override_step. rewrite Hx.
    destruct (apply_patch_bad_count x patch v e Hbad He) as [e1 He1]. rewrite He1. simpl. eauto.
  - intros st y st' Hst Hb. exact (override_step_keeps_key st st' y key Hst Hb).
  - apply index_by_id_keys in Hkey.
    destruct (Dict.get key (index_by_id incidents)) as [x|] eqn:E; [eauto|].
    apply get_None_keys in E. contradiction.
  - rewrite He'. simpl. eauto.
Qed.

(** The stages of a run of the engine that returns. *)
Lemma overrides_run (incidents result : list Incident) (payload : list (string * pyval)) :
  apply_manual_overrides L incidents payload = Ok result ->
  exists items by_id1 by_id2,
    override_items payload = Ok items /\
    for_each (override_step L) items (index_by_id incidents) = Ok by_id1 /\
    for_each (manual_step L) (manual_records payload) by_id1 = Ok by_id2 /\
    keyed_by_id by_id1 /\ keyed_by_id by_id2 /\
    result = Dict.values by_id2.
Proof.
  unfold apply_manual_overrides, manual_records.
  destruct (override_items payload) as [items|e]; simpl; [|discriminate].
  destruct (for_each (override_step L) items (index_by_id incidents)) as [by_id1|e] eqn:E1;
    simpl; [|discriminate].
  destruct (Py.iterate (Dict.get_default "manual_incidents" (PList []) payload)) as [raws|e];
    simpl; [|discriminate].
  destruct (for_each (manual_step L) raws by_id1) as [by_id2|e] eqn:E2; simpl; [|discriminate].
  intros H. inversion H; subst result.
  assert (K1 : keyed_by_id by_id1).
  { apply (for_each_invariant _ _ keyed_by_id _ _
             (fun st x st' _ Hst Hb => override_step_keyed L st st' x Hst Hb) _ _
             (index_by_id_keyed incidents) E1). }
  assert (K2 : keyed_by_id by_id2).
  { apply (for_each_invariant _ _ keyed_by_id _ _
             (fun st x st' _ Hst Hb => manual_step_keyed L st st' x Hst Hb) _ _ K1 E2). }
  exists items, by_id1, by_id2.
  split; [reflexivity|]. split; [exact E1|]. split; [exact E2|].
  split; [exact K1|]. split; [exact K2|reflexivity].
Qed.

(** X6.  Manual records win.  When the engine returns, the incident built
    from a manual record is the one returned under its id, whatever incident
    or patch there was for that id, unless a later manual record yields the
    same id. *)
Theorem manual_record_wins (incidents result : list Incident) (payload : list (string * pyval))
        (before after : list pyval) (raw : pyval) (made : Incident) :
  apply_manual_overrides L incidents payload = Ok result ->
  manual_records payload = before ++ raw :: after ->
  manual_incident L raw = Ok (Some made) ->
  (forall later other, In later after -> manual_incident L later = Ok (Some other) ->
                       id other <> id made) ->
  find_by_id (id made) result = Some made.
Proof.
  intros Hret Hrecords Hmade Hlater.
  apply overrides_run in Hret.
  destruct Hret as (items & by_id1 & by_id3 & _ & _ & Hloop & _ & K3 & Hres). subst result.
  rewrite (keyed_find _ _ K3).
  rewrite Hrecords, for_each_app in Hloop.
  destruct (for_each (manual_step L) before by_id1) as [by_id2|e]; simpl in Hloop; [|discriminate].
  unfold manual_step at 1 in Hloop. rewrite Hmade in Hloop. simpl in Hloop.
  rewrite (manual_loop_other L after (id made) ) with (by_id := Dict.set (id made) made by_id2);
    [apply get_set_same| |exact Hloop].
  intros Hin. apply in_flat_map in Hin. destruct Hin as (later & Hl & Hin).
  destruct (manual_incident L later) as [[other|]|e] eqn:El; try destruct Hin.
  - exact (Hlater later other Hl El H).
  - destruct H.
Qed.

End EngineFacts.

Lemma overrides_change_nothing_witness :
  apply_manual_overrides sample_library [base_incident]
    [("incident_overrides",
      PDict [("000000000000", PDict [("suspected_fatalities", PStr "many")])]);
     ("manual_incidents", PList [PStr "note"; PDict [("title", PStr "  ")]])]
  = Ok [base_incident].
Proof.
  apply overrides_change_nothing.
  - simpl. constructor; [intros []|constructor].
  - eexists. reflexivity.
  - intros k [Hk|[]] [Hin|[]]. subst k. discriminate.
  - eexists. reflexivity.
  - intros raw [H|[H|[]]]; subst raw; reflexivity.
Defined.

Lemma unusable_overrides_change_nothing_witness :
  (payload <- load_manual_overrides NotJson ;;
   apply_manual_overrides sample_library [base_incident] payload)
  = Ok [base_incident].
Proof.
  refine (proj2 (unusable_overrides_change_nothing sample_library NotJson [base_incident] I _)).
  simpl. constructor; [intros []|constructor].
Defined.

Lemma unreadable_count_aborts_witness :
  exists e,
    apply_manual_overrides sample_library [base_incident]
      [("incident_overrides",
        PDict [("aabbccddeeff", PDict [("suspected_fatalities", PStr "many")])]);
       ("manual_incidents", PList [])]
    = Raise e.
Proof.
  apply (unreadable_count_aborts sample_library [base_incident] _
           [("aabbccddeeff", PDict [("suspected_fatalities", PStr "many")])]
           [("suspected_fatalities", PStr "many")] "aabbccddeeff" (PStr "many") ValueError).
  - reflexivity.
  - left. reflexivity.
  - left. reflexivity.
  - left. reflexivity.
  - intros text H. inversion H. reflexivity.
  - reflexivity.
Defined.

Lemma manual_record_wins_witness :
  exists made result,
    manual_incident sample_library
      (PDict [("title", PStr "Test crash"); ("url", PStr "https://example.com/article")])
    = Ok (Some made) /\
    apply_manual_overrides sample_library
      [set_notes made "an incident found under the same id"; base_incident]
      [("manual_incidents",
        PList [PDict [("title", PStr "Test crash");
                      ("url", PStr "https://example.com/article")]])]
    = Ok result /\
    source_type made = "manual" /\
    find_by_id (id made) result = Some made.
Proof.
  eexists. eexists. split; [vm_compute; reflexivity|].
  split; [vm_compute; reflexivity|]. split; [reflexivity|].
  match goal with
  | |- find_by_id (id ?m) ?r = _ =>
      apply (manual_record_wins sample_library
               [set_notes m "an incident found under the same id"; base_incident] r
               [("manual_incidents",
                 PList [PDict [("title", PStr "Test crash");
                               ("url", PStr "https://example.com/article")]])]
               [] []
               (PDict [("title", PStr "Test crash");
                       ("url", PStr "https://example.com/article")]) m)
  end.
  - vm_compute. reflexivity.
  - reflexivity.
  - vm_compute. reflexivity.
  - intros later other [].
Defined.

(** ** More on the merge of the sources *)

Section CollectFacts.

Variable L : Library.

Lemma str_in_false (x : string) (xs : list string) : str_in x xs = false -> ~ In x xs.
Proof.
  intros H Hin. apply str_in_In in Hin. congruence.
Qed.

Lemma guarded_append (middle : list Incident) (incidents : list Incident) (seen : list string)
      (pre post : list Incident) (x : Incident) :
  guarded middle (incidents, seen) pre post ->
  str_in (id x) seen = false ->
  guarded middle (incidents ++ [x], id x :: seen) pre (post ++ [x]).
Proof.
  intros (Hlist & Hids & Hnd) Hnew. simpl in *. repeat split; simpl.
  - rewrite Hlist. rewrite <- !app_assoc. reflexivity.
  - rewrite app_assoc, map_app, Hids. reflexivity.
  - constructor; [apply str_in_false; exact Hnew|exact Hnd].
Qed.

Lemma archive_step_guarded (middle : list Incident) (st : list Incident * list string)
      (pre post : list Incident) (x : Incident) :
  guarded middle st pre post ->
  exists post', guarded middle (archive_step st x) pre post' /\
                (forall y, In y post' -> In y post \/ y = x).
Proof.
  destruct st as [incidents seen]. intros G. unfold archive_step.
  destruct (str_in (id x) seen) eqn:E.
  - exists post. split; [exact G|tauto].
  - exists (post ++ [x]). split; [exact (guarded_append _ _ _ _ _ x G E)|].
    intros y Hy. apply in_app_or in Hy. destruct Hy as [Hy|[Hy|[]]]; auto.
Qed.

Lemma archive_loop_guarded (middle : list Incident) (xs : list Incident) :
  forall st pre post,
    guarded middle st pre post ->
    exists post', guarded middle (fold_left archive_step xs st) pre post' /\
                  (forall y, In y post' -> In y post \/ In y xs).
Proof.
  induction xs as [|x xs IH]; intros st pre post G; simpl.
  - exists post. split; [exact G|tauto].
  - destruct (archive_step_guarded middle st pre post x G) as (post1 & G1 & H1).
    destruct (IH _ pre post1 G1) as (post2 & G2 & H2).
    exists post2. split; [exact G2|].
    intros y Hy. destruct (H2 y Hy) as [Hin|Hin]; [|tauto].
    destruct (H1 y Hin) as [Hin'|Hin']; [tauto|]. right. left. symmetry. exact Hin'.
Qed.

Lemma wboy_loop_guarded (middle : list Incident) (posts : list wboy_post) :
  forall st pre post,
    guarded middle st pre post ->
    exists post', guarded middle (fold_left (wboy_step L) posts st) pre post' /\
                  (forall y, In y post' ->
                             In y post \/ exists p, In p posts /\ to_wboy_incident L p = Some y).
Proof.
  induction posts as [|p posts IH]; intros st pre post G; simpl.
  - exists post. split; [exact G|tauto].
  - unfold wboy_step at 2. destruct (to_wboy_incident L p) as [x|] eqn:E.
    + destruct (archive_step_guarded middle st pre post x G) as (post1 & G1 & H1).
      destruct (IH _ pre post1 G1) as (post2 & G2 & H2).
      exists post2. split; [exact G2|].
      intros y Hy. destruct (H2 y Hy) as [Hin|(q & Hq & Hy')].
      * destruct (H1 y Hin) as [Hin'|Hin']; [tauto|]. subst y. right. exists p. tauto.
      * right. exists q. tauto.
    + destruct (IH _ pre post G) as (post2 & G2 & H2).
      exists post2. split; [exact G2|].
      intros y Hy. destruct (H2 y Hy) as [Hin|(q & Hq & Hy')]; [tauto|].
      right. exists q. tauto.
Qed.

Lemma feed_step_guarded (st : list Incident * list string) (pre : list Incident)
      (item : feed_item) :
  guarded [] st pre [] ->
  Forall (fun x => source_type x = "news") pre ->
  exists pre', guarded [] (feed_step L st item) pre' [] /\
               Forall (fun x => source_type x = "news") pre'.
Proof.
  destruct st as [incidents seen]. intros G Hnews. unfold feed_step.
  destruct (negb (likely_relevant _)); [exists pre; split; assumption|].
  destruct (negb (PyStr.nonempty _)); [exists pre; split; assumption|].
  destruct (str_in _ seen) eqn:Hseen; [exists pre; split; assumption|].
  destruct (Location.infer_location _) as [[location la] lo].
  match goal with
  | |- context [(incidents ++ [?x])%list] => set (made := x)
  end.
  exists (pre ++ [made]). split.
  - destruct G as (Hlist & Hids & Hnd). simpl in *. rewrite app_nil_r in *.
    repeat split; simpl.
    + rewrite Hlist, app_nil_r. reflexivity.
    + rewrite app_nil_r, map_app, Hids. reflexivity.
    + constructor; [|exact Hnd]. apply str_in_false. exact Hseen.
  - apply Forall_app. split; [exact Hnews|]. constructor; [reflexivity|constructor].
Qed.

Lemma feed_loop_guarded (items : list feed_item) :
  forall st pre,
    guarded [] st pre [] ->
    Forall (fun x => source_type x = "news") pre ->
    exists pre', guarded [] (fold_left (feed_step L) items st) pre' [] /\
                 Forall (fun x => source_type x = "news") pre'.
Proof.
  induction items as [|item items IH]; intros st pre G Hnews; simpl.
  - exists pre. split; assumption.
  - destruct (feed_step_guarded st pre item G Hnews) as (pre1 & G1 & H1).
    exact (IH _ pre1 G1 H1).
Qed.

Lemma to_wdtv_incident_type (entry : sitemap_entry) (incident : Incident) :
  to_wdtv_incident L entry = Some incident -> source_type incident = "news_archive_wdtv".
Proof.
  unfold to_wdtv_incident. destruct (page entry) as [meta|]; [|discriminate].
  repeat match goal with
         | |- (if ?c then None else _) = _ -> _ => destruct c; [discriminate|]
         end.
  destruct (Location.infer_location _) as [[location la] lo].
  intros H. inversion H. reflexivity.
Qed.

Lemma fetch_wdtv_type (entries : list sitemap_entry) (incident : Incident) :
  In incident (fetch_wdtv_historical_incidents L entries) ->
  source_type incident = "news_archive_wdtv".
Proof.
  induction entries as [|entry entries IH]; simpl; [tauto|].
  destruct (negb _); [exact IH|].
  destruct (to_wdtv_incident L entry) as [x|] eqn:E; [|exact IH].
  destruct (_ && _)%bool; [exact IH|].
  intros [H|H]; [subst; exact (to_wdtv_incident_type _ _ E)|exact (IH H)].
Qed.

Lemma to_wboy_incident_type (post : wboy_post) (incident : Incident) :
  to_wboy_incident L post = Some incident -> source_type incident = "news_archive".
Proof.
  unfold to_wboy_incident.
  repeat match goal with
         | |- (if ?c then None else _) = _ -> _ => destruct c; [discriminate|]
         end.
  destruct (Location.infer_location _) as [[location la] lo].
  intros H. inversion H. reflexivity.
Qed.

(** The shape of the list handed to the override engine, with the [seen]
    set that the guarded loops end with. *)
Lemma collect_guarded (src : sources) :
  exists pre post seen,
    guarded (parse_wv511_i79_incidents L (wv511_lines src)) (collect L src, seen) pre post /\
    Forall (fun x => source_type x = "news") pre /\
    Forall (fun x => source_type x = "news_archive_wdtv" \/ source_type x = "news_archive") post.
Proof.
  unfold collect.
  destruct (feed_loop_guarded (feed_items src) ([], []) [])
    as (pre & G1 & Hnews).
  { repeat split; constructor. }
  { constructor. }
  destruct (fold_left (feed_step L) (feed_items src) ([], [])) as [incidents1 seen1].
  set (wv := parse_wv511_i79_incidents L (wv511_lines src)).
  assert (G2 : guarded wv (incidents1 ++ wv, seen1) pre []).
  { destruct G1 as (Hlist & Hids & Hnd). simpl in *. rewrite app_nil_r in Hlist.
    repeat split; simpl; [rewrite Hlist, app_nil_r; reflexivity|exact Hids|exact Hnd]. }
  destruct (archive_loop_guarded wv (fetch_wdtv_historical_incidents L (wdtv_entries src))
              _ pre [] G2) as (post3 & G3 & H3).
  destruct (fold_left archive_step _ (incidents1 ++ wv, seen1)) as [incidents3 seen3].
  destruct (wboy_loop_guarded wv (wboy_posts src) _ pre post3 G3) as (post4 & G4 & H4).
  destruct (fold_left (wboy_step L) _ (incidents3, seen3)) as [incidents4 seen4].
  exists pre, post4, seen4. split; [exact G4|]. split; [exact Hnews|].
  apply Forall_forall. intros y Hy. destruct (H4 y Hy) as [Hin|(p & _ & Hp)].
  - destruct (H3 y Hin) as [[]|Hw]. left. exact (fetch_wdtv_type _ _ Hw).
  - right. exact (to_wboy_incident_type _ _ Hp).
Qed.

(** X7.  In the list handed to the override engine, the incidents of the
    feeds come first, then those of the delay listing, then those of the two
    archives; the incidents of the feeds and of the archives carry pairwise
    distinct ids (a candidate whose id one of them already has was never
    appended).  Only delay-listing incidents can repeat an id. *)
Theorem guarded_sources_distinct_ids (src : sources) :
  exists pre post,
    collect L src = pre ++ parse_wv511_i79_incidents L (wv511_lines src) ++ post /\
    NoDup (map id (pre ++ post)) /\
    Forall (fun x => source_type x = "news") pre /\
    Forall (fun x => source_type x = "news_archive_wdtv" \/ source_type x = "news_archive") post.
Proof.
  destruct (collect_guarded src) as (pre & post & seen & (Hlist & Hids & Hnd) & Hpre & Hpost).
  exists pre, post. simpl in *.
  split; [exact Hlist|]. split; [|split; assumption].
  rewrite Hids. apply NoDup_rev. exact Hnd.
Qed.

Lemma NoDup_map_eq (A B : Type) (f : A -> B) (l : list A) (x y : A) :
  NoDup (map f l) -> In x l -> In y l -> f x = f y -> x = y.
Proof.
  induction l as [|a l IH]; simpl; intros Hnd Hx Hy Hf; [destruct Hx|].
  inversion Hnd as [|? ? Hnot Hrest]; subst.
  destruct Hx as [Hx|Hx]; destruct Hy as [Hy|Hy]; subst.
  - reflexivity.
  - exfalso. apply Hnot. rewrite Hf. apply in_map. exact Hy.
  - exfalso. apply Hnot. rewrite <- Hf. apply in_map. exact Hx.
  - exact (IH Hrest Hx Hy Hf).
Qed.

Lemma find_unique (k : string) (l : list Incident) (x : Incident) :
  In x l -> id x = k -> (forall y, In y l -> id y = k -> y = x) ->
  find (fun incident => String.eqb (id incident) k) l = Some x.
Proof.
  induction l as [|a l IH]; intros Hin Hk Huniq; [destruct Hin|]. simpl.
  destruct (String.eqb (id a) k) eqn:E.
  - apply String.eqb_eq in E. rewrite (Huniq a (or_introl eq_refl) E). reflexivity.
  - destruct Hin as [Hin|Hin].
    + subst a. rewrite Hk, String.eqb_refl in E. discriminate.
    + apply IH; [exact Hin|exact Hk|]. intros y Hy. apply Huniq. right. exact Hy.
Qed.

(** X8.  First writer wins among the guarded sources: an incident that the
    feeds or the archives put in the list is in the dataset, provided that no
    delay-listing incident, no patch and no manual record carries its id.
    (By the guard, no later feed or archive candidate with that id was ever
    appended.) *)
Theorem guarded_candidate_kept (src : sources) (result : list Incident) (x : Incident) :
  build_dataset L src = Ok result ->
  In x (collect L src) ->
  (forall w, In w (parse_wv511_i79_incidents L (wv511_lines src)) -> id w <> id x) ->
  ~ In (id x) (patched_ids (manual_overrides src)) ->
  ~ In (id x) (manual_ids L (manual_overrides src)) ->
  In x result /\ forall y, In y result -> id y = id x -> y = x.
Proof.
  intros Hret Hx Hwv Hpatch Hmanual.
  unfold build_dataset in Hret.
  destruct (apply_manual_overrides L (collect L src) (manual_overrides src))
    as [merged|e] eqn:E; simpl in Hret; [|discriminate].
  inversion Hret; subst result.
  apply overrides_run in E.
  destruct E as (items & by_id1 & by_id2 & Hitems & Hloop1 & Hloop2 & _ & K2 & Hres).
  subst merged.
  assert (Hget : Dict.get (id x) by_id2 = Some x).
  { unfold manual_ids in Hmanual.
    rewrite (manual_loop_other L _ (id x) Hmanual _ _ Hloop2).
    unfold patched_ids in Hpatch. rewrite Hitems in Hpatch.
    rewrite (override_loop_other L items (id x) Hpatch _ _ Hloop1).
    rewrite index_by_id_last. unfold last_with_id.
    destruct (collect_guarded src) as (pre & post & seen & (Hlist & Hids & Hseen) & _).
    simpl in Hlist, Hids.
    assert (Hnd' : NoDup (map id (pre ++ post))) by (rewrite Hids; apply NoDup_rev; exact Hseen).
    assert (Hside : forall y, In y (collect L src) -> id y = id x -> In y (pre ++ post)).
    { intros y Hy Hid. rewrite Hlist in Hy. apply in_app_or in Hy.
      destruct Hy as [Hy|Hy]; [apply in_or_app; tauto|].
      apply in_app_or in Hy. destruct Hy as [Hy|Hy]; [|apply in_or_app; tauto].
      exfalso. exact (Hwv y Hy Hid). }
    apply find_unique.
    - apply in_rev in Hx. exact Hx.
    - reflexivity.
    - intros y Hy Hid. apply in_rev in Hy.
      apply (NoDup_map_eq _ _ id (pre ++ post)); auto. }
  assert (Hin : In x (Dict.values by_id2)).
  { apply get_In in Hget. unfold Dict.values. apply in_map_iff. exists (id x, x). tauto. }
  split.
  - apply sort_newest_first_In. exact Hin.
  - intros y Hy Hid. apply (proj1 (sort_newest_first_In _ _)) in Hy.
    apply (NoDup_map_eq _ _ id (Dict.values by_id2)); auto.
    apply keyed_values_NoDup. exact K2.
Qed.

End CollectFacts.

Lemma guarded_candidate_kept_witness :
  exists x result,
    title x = "I-79 crash near Fairmont" /\ source_type x = "news" /\
    build_dataset sample_library feed_sources = Ok result /\
    In x result.
Proof.
  let c := eval vm_compute in (collect sample_library feed_sources) in
  match c with ?h :: _ => exists h end.
  eexists. split; [reflexivity|]. split; [reflexivity|].
  split; [vm_compute; reflexivity|].
  match goal with
  | |- In ?x ?r =>
      apply (proj1 (guarded_candidate_kept sample_library feed_sources r x
                      ltac:(vm_compute; reflexivity)
                      ltac:(vm_compute; left; reflexivity)
                      ltac:(intros w Hw; vm_compute in Hw;
                            destruct Hw as [Hw|[Hw|[]]]; subst w; vm_compute; discriminate)
                      ltac:(vm_compute; tauto)
                      ltac:(vm_compute; tauto)))
  end.
Defined.

(** ** More on the delay-listing scanner *)

Section BlockFacts.

Variable L : Library.

(** A line that opens a route section carries none of the four labels. *)
Lemma header_not_label (line : string) :
  PyStr.startswith line "I-" = true ->
  PyStr.startswith line "Last Updated:" = false /\
  PyStr.startswith line "County:" = false /\
  PyStr.startswith line "Description:" = false /\
  PyStr.startswith line "Comments:" = false.
Proof.
  unfold PyStr.startswith. destruct line as [|c line]; cbn [String.prefix]; [discriminate|].
  destruct (ascii_dec "I" c) as [E|E]; [subst c|discriminate].
  intros _.
  repeat match goal with
         | |- _ /\ _ => split
         | |- context [ascii_dec ?a "I"%char] =>
             destruct (ascii_dec a "I"%char) as [E|E]; [discriminate E|reflexivity]
         end.
Qed.

Lemma scan_block_header (line : string) (post : list string) (j : nat) (b : block) :
  PyStr.startswith line "I-" = true -> scan_block (line :: post) j b = (j, b).
Proof.
  intros H. destruct (header_not_label line H) as (H1 & H2 & H3 & H4).
  cbn [scan_block]. rewrite H1, H2, H3, H4, H.
  destruct (PyStr.startswith line "I-79"); reflexivity.
Qed.

Lemma scan_block_prefix (pre : list string) (line : string) (post post' : list string) :
  PyStr.startswith line "I-" = true ->
  forall j b,
    scan_block (pre ++ line :: post) j b = scan_block (pre ++ line :: post') j b /\
    fst (scan_block (pre ++ line :: post) j b) <= j + length pre.
Proof.
  intros H. induction pre as [|probe pre IH]; intros j b.
  - simpl app. rewrite !scan_block_header by exact H. simpl. split; [reflexivity|lia].
  - simpl app. cbn [scan_block length].
    repeat match goal with
           | |- context [if ?c then _ else _] => destruct c
           end;
      try (split; [reflexivity|simpl; lia]);
      match goal with
      | |- context [scan_block (pre ++ line :: post) (S j) ?b'] =>
          destruct (IH (S j) b') as [IH1 IH2]; split; [exact IH1|lia]
      end.
Qed.

(** X9.  A block ends at the next line that opens a route section (any line
    that starts with "I-"): the scan of the block that starts at line [i]
    stops at or before that line, and neither where it stops nor the four
    values it collects depend on anything that follows that line. *)
Theorem block_ends_at_next_header (before : list string) (line : string)
        (after after' : list string) (i : nat) :
  i < length before ->
  PyStr.startswith line "I-" = true ->
  block_at (before ++ line :: after) i = block_at (before ++ line :: after') i /\
  fst (block_at (before ++ line :: after) i) <= length before.
Proof.
  intros Hi H. unfold block_at.
  rewrite !skipn_app.
  replace (i + 1 - length before) with 0 by lia. simpl skipn.
  destruct (scan_block_prefix (skipn (i + 1) before) line after after' H (i + 1) empty_block)
    as [H1 H2].
  split; [exact H1|]. rewrite length_skipn in H2. lia.
Qed.

End BlockFacts.

Lemma block_ends_at_next_header_witness :
  block_at SAMPLE_WV511_LINES 0
  = block_at ["I-79 Possible Delay"; "Last Updated: 02/15/2025 10:30:00 AM";
              "County: Marion County";
              "Description: I-79 southbound lane closure near Fairmont due to crash.";
              "Comments: Use caution"; "I-77 Some Other Event"] 0 /\
  fst (block_at SAMPLE_WV511_LINES 0) <= 5.
Proof.
  apply (block_ends_at_next_header
           ["I-79 Possible Delay"; "Last Updated: 02/15/2025 10:30:00 AM";
            "County: Marion County";
            "Description: I-79 southbound lane closure near Fairmont due to crash.";
            "Comments: Use caution"]
           "I-77 Some Other Event"
           ["County: Kanawha County"; "Description: I-77 construction."; "I-79 Road Work";
            "Last Updated: 02/15/2025 11:00:00 AM"; "County: Monongalia County";
            "Description: I-79 lane closure for paving near Morgantown."]
           [] 0).
  - simpl. lia.
  - reflexivity.
Defined.

(** ** The incidents of the delay listing *)

Section DelayIncidentFacts.

Variable L : Library.

Import Re Location.

Lemma lower_app (a b : string) :
  PyStr.lower (a ++ b) = (PyStr.lower a ++ PyStr.lower b)%string.
Proof.
  induction a as [|c a IH]; simpl; [reflexivity|]. rewrite IH. reflexivity.
Qed.

Lemma rstrip_cons (c : ascii) (s : string) :
  PyStr.is_space c = false -> PyStr.rstrip (String c s) = String c (PyStr.rstrip s).
Proof.
  intros H. cbn [PyStr.rstrip]. destruct (PyStr.rstrip s); [rewrite H|]; reflexivity.
Qed.

Lemma title_starts_with_route (event_title : string) :
  PyStr.startswith (PyStr.strip ("I-79 " ++ event_title)) "I-79" = true.
Proof.
  unfold PyStr.strip. cbn [String.append PyStr.lstrip].
  change (PyStr.is_space "I") with false. cbv iota.
  rewrite !rstrip_cons by reflexivity.
  generalize (PyStr.rstrip (String " " event_title)). intros tail.
  unfold PyStr.startswith.
  repeat (cbn [String.prefix];
          match goal with
          | |- context [ascii_dec ?a ?a] =>
              destruct (ascii_dec a a) as [_|E]; [|exfalso; apply E; reflexivity]
          end).
  destruct tail; reflexivity.
Qed.

(** Every incident of the output was built from an accepted block. *)
Lemma parse_from_accepted (lines : list string) (P : Incident -> Prop) :
  (forall event_title b incident,
      block_incident L event_title b = Some incident -> P incident) ->
  forall incident, In incident (parse_wv511_i79_incidents L lines) -> P incident.
Proof.
  intros HP.
  assert (G : forall fuel i incidents result,
             scan_loop L fuel lines i incidents = Some result ->
             Forall P incidents -> Forall P result).
  { induction fuel as [|fuel IH]; intros i incidents result; cbn [scan_loop];
      destruct (nth_error lines i) as [line|]; try discriminate;
      try (intros H; inversion H; subst; tauto).
    unfold scan_step. destruct (negb (PyStr.startswith line "I-79")); [apply IH|].
    destruct (block_at lines i) as [j b].
    destruct (block_incident L (event_title_of line) b) as [incident|] eqn:E; [|apply IH].
    intros H Hall. apply (IH _ _ _ H). apply Forall_app. split; [exact Hall|].
    constructor; [exact (HP _ _ _ E)|constructor]. }
  intros incident Hin. unfold parse_wv511_i79_incidents in Hin.
  destruct (scan_loop L (length lines) lines 0 []) as [result|] eqn:E; [|destruct Hin].
  pose proof (G _ _ _ _ E (Forall_nil _)) as Hall. rewrite Forall_forall in Hall.
  exact (Hall incident Hin).
Qed.

(** A text that opens with a county name followed by a blank is resolved to
    that county. *)
Lemma county_in_front (text c r : string) :
  In c county_names ->
  PyStr.lower text = (c ++ String " " r)%string ->
  exists la lo,
    Dict.get c LOCATION_HINTS = Some (la, lo) /\
    infer_location text = (PyStr.title c, PFloat la, PFloat lo).
Proof.
  intros Hc Hlow.
  assert (Hfront : search (county_pattern c) (c ++ String " " r)
                   = Some {| m_start := 0; m_group1 := "" |}).
  { unfold county_names in Hc. simpl in Hc.
    destruct Hc as [Hc|[Hc|[Hc|[]]]]; subst c; vm_compute; reflexivity. }
  assert (Hin : In (0, c) (collect_matches county_names (c ++ String " " r))).
  { apply collect_matches_In. split; [exact Hc|]. eexists. split; [exact Hfront|reflexivity]. }
  destruct (county_names_in_table c Hc) as (la & lo & Hget).
  exists la, lo. split; [exact Hget|].
  unfold infer_location. rewrite Hlow.
  destruct (sorted_by_start (collect_matches county_names (c ++ String " " r)))
    as [|[s best] rest] eqn:E.
  { apply sorted_by_start_In in Hin. rewrite E in Hin. destruct Hin. }
  pose proof (sorted_by_start_head _ _ _ E _ Hin) as Hs. simpl in Hs.
  assert (Hbest : In (s, best) (collect_matches county_names (c ++ String " " r))).
  { apply sorted_by_start_In. rewrite E. left. reflexivity. }
  apply collect_matches_In in Hbest. destruct Hbest as (Hbc & mb & Hmb & Hstart).
  assert (Hs0 : s = 0) by lia. rewrite Hs0 in Hstart.
  apply search_leftmost in Hmb. destruct Hmb as [Hmb _]. rewrite Hstart in Hmb.
  assert (best = c).
  { unfold county_names in Hc, Hbc. simpl in Hc, Hbc.
    destruct Hc as [Hc|[Hc|[Hc|[]]]]; subst c;
      destruct Hbc as [Hbc|[Hbc|[Hbc|[]]]]; subst best;
      try reflexivity; vm_compute in Hmb; discriminate. }
  subst best. rewrite Hget. reflexivity.
Qed.

(** X10.  Every incident that the delay-listing parser returns is tagged as
    official WV511 data, bears a title that starts with "I-79", has for
    [location_text] the County value of its block, which is one of the three
    counties up to case, has the coordinates of that county (never null
    ones), no verified count, and a summary that is empty or mentions
    i-79. *)
Theorem delay_incident_shape (lines : list string) (incident : Incident) :
  In incident (parse_wv511_i79_incidents L lines) ->
  source_type incident = "official_wv511" /\
  verification_status incident = "official" /\
  url incident = WV511_DELAY_URL /\
  source incident = "wv511.org" /\
  verified_fatalities incident = PNone /\
  PyStr.startswith (title incident) "I-79" = true /\
  In (PyStr.lower (location_text incident)) NORTH_CENTRAL_COUNTIES /\
  (summary incident = "" \/ PyStr.contains "i-79" (PyStr.lower (summary incident)) = true) /\
  exists la lo,
    Dict.get (PyStr.lower (location_text incident)) LOCATION_HINTS = Some (la, lo) /\
    lat incident = PFloat la /\ lon incident = PFloat lo.
Proof.
  revert incident. apply parse_from_accepted. intros event_title b incident.
  unfold block_incident.
  destruct (str_in (PyStr.lower (county b)) NORTH_CENTRAL_COUNTIES) eqn:Hscope;
    cbn [negb]; [|discriminate].
  destruct (PyStr.nonempty (description b) &&
            negb (PyStr.contains "i-79" (PyStr.lower (description b))))%bool eqn:Hdesc;
    [discriminate|].
  intros H. inversion H as [Hinc]. clear H.
  apply str_in_In in Hscope.
  assert (Hne : PyStr.nonempty (county b) = true).
  { destruct (county b); [|reflexivity]. simpl in Hscope.
    destruct Hscope as [E|[E|[E|[]]]]; discriminate. }
  destruct (county_in_front (county b ++ " " ++ blob_of event_title b)
              (PyStr.lower (county b)) (PyStr.lower (blob_of event_title b)) Hscope)
    as (la & lo & Hget & Hloc).
  { rewrite lower_app. reflexivity. }
  assert (Hor : forall d, PyStr.or_else (county b) d = county b).
  { intros d. unfold PyStr.or_else. rewrite Hne. reflexivity. }
  subst incident. unfold wv511_incident. rewrite Hloc.
  cbn [source_type verification_status url source verified_fatalities title location_text
       summary lat lon].
  rewrite !Hor.
  repeat split.
  - apply title_starts_with_route.
  - exact Hscope.
  - apply andb_false_iff in Hdesc. destruct Hdesc as [Hd|Hd].
    + left. destruct (description b); [reflexivity|discriminate].
    + right. apply negb_false_iff in Hd. exact Hd.
  - exists la, lo. repeat split. exact Hget.
Qed.

End DelayIncidentFacts.

Lemma delay_incident_shape_witness :
  exists incident,
    In incident (parse_wv511_i79_incidents sample_library SAMPLE_WV511_LINES) /\
    title incident = "I-79 Road Work" /\
    location_text incident = "Monongalia County" /\
    lat incident = PFloat 39.6525 /\ lon incident = PFloat (-80.0041).
Proof.
  let c := eval vm_compute in (parse_wv511_i79_incidents sample_library SAMPLE_WV511_LINES) in
  match c with [_; ?x] => exists x end.
  match goal with
  | |- In ?x _ /\ _ =>
      assert (Hin : In x (parse_wv511_i79_incidents sample_library SAMPLE_WV511_LINES))
        by (vm_compute; right; left; reflexivity)
  end.
  split; [exact Hin|]. split; [reflexivity|]. split; [reflexivity|].
  destruct (delay_incident_shape sample_library SAMPLE_WV511_LINES _ Hin)
    as (_ & _ & _ & _ & _ & _ & _ & _ & la & lo & Hget & Hla & Hlo).
  vm_compute in Hget. inversion Hget; subst la lo. split; [exact Hla|exact Hlo].
Defined.

(** ** Identity and case *)

Section IdentityFacts.

Variable L : Library.

Lemma string_app_assoc (a b c : string) : ((a ++ b) ++ c = a ++ (b ++ c))%string.
Proof. induction a as [|x a IH]; simpl; [reflexivity|]. rewrite IH. reflexivity. Qed.

Lemma take_length (n : nat) (s : string) : String.length (PyStr.take n s) <= n.
Proof.
  revert s. induction n as [|n IH]; intros s; simpl; [lia|].
  destruct s as [|c s]; simpl; [lia|]. specialize (IH s). lia.
Qed.

(** X11.  The id is taken from the digest of the url, a bar and the title
    run together, so that a bar can be moved from the end of the url to the
    front of the title (or back) without changing the id; and an id never
    has more than 12 characters. *)
Theorem incident_id_seed (url title middle : string) :
  incident_id L (url ++ "|" ++ middle) title = incident_id L url (middle ++ "|" ++ title) /\
  String.length (incident_id L url title) <= 12.
Proof.
  split.
  - unfold incident_id. f_equal. f_equal.
    rewrite !string_app_assoc. reflexivity.
  - apply take_length.
Qed.

End IdentityFacts.

Section CaseFacts.

Lemma lower_char_idem (c : ascii) : PyStr.lower_char (PyStr.lower_char c) = PyStr.lower_char c.
Proof. destruct c as [[] [] [] [] [] [] [] []]; reflexivity. Qed.

Lemma lower_idem (s : string) : PyStr.lower (PyStr.lower s) = PyStr.lower s.
Proof.
  induction s as [|c s IH]; simpl; [reflexivity|]. rewrite lower_char_idem, IH. reflexivity.
Qed.

(** X12.  The four text routines ignore the case of ASCII letters: each
    gives the same answer on two texts that are equal once lower-cased, and
    in particular on a text and on its lower-cased form. *)
Theorem text_routines_ignore_case (a b : string) :
  PyStr.lower a = PyStr.lower b ->
  (likely_relevant a = likely_relevant b /\
   is_north_central_context a = is_north_central_context b /\
   Fatalities.extract_fatalities a = Fatalities.extract_fatalities b /\
   Location.infer_location a = Location.infer_location b) /\
  (likely_relevant (PyStr.lower a) = likely_relevant a /\
   is_north_central_context (PyStr.lower a) = is_north_central_context a /\
   Fatalities.extract_fatalities (PyStr.lower a) = Fatalities.extract_fatalities a /\
   Location.infer_location (PyStr.lower a) = Location.infer_location a).
Proof.
  intros H. split.
  - unfold likely_relevant, is_north_central_context, Fatalities.extract_fatalities,
      Location.infer_location. rewrite H. repeat split; reflexivity.
  - unfold likely_relevant, is_north_central_context, Fatalities.extract_fatalities,
      Location.infer_location. rewrite lower_idem. repeat split; reflexivity.
Qed.

End CaseFacts.

Lemma text_routines_ignore_case_witness :
  Location.infer_location "CRASH IN marion county" = Location.infer_location "Crash in Marion County"
  /\ Fatalities.extract_fatalities "TWO DEAD" = Fatalities.extract_fatalities "two dead".
Proof.
  destruct (text_routines_ignore_case "CRASH IN marion county" "Crash in Marion County" eq_refl)
    as [(_ & _ & _ & Hloc) _].
  destruct (text_routines_ignore_case "TWO DEAD" "two dead" eq_refl) as [(_ & _ & Hfat & _) _].
  exact (conj Hloc Hfat).
Defined.

(** ** What the adapters let through *)

Section AdapterFacts.

Variable L : Library.

Lemma estimate_range (text : string) : (0 <= Fatalities.extract_fatalities text <= 10)%Z.
Proof.
  destruct (PyStr.any_in Fatalities.fatal_clues (PyStr.lower text)) eqn:E.
  - apply estimate_with_clue in E. lia.
  - rewrite (estimate_without_clue _ E). lia.
Qed.

Lemma nonempty_true (s : string) : PyStr.nonempty s = true <-> s <> "".
Proof. destruct s; simpl; split; congruence. Qed.

(** X13.  An incident that [to_wboy_incident] returns for a post has the
    post's title and link, both non-empty; its title holds none of the
    non-event phrases; title and excerpt together pass [likely_relevant];
    title, excerpt and content together pass [is_north_central_context]; its
    id is [incident_id(link, title)]; it is an unverified archive record with
    an estimate between 0 and 10. *)
Theorem wboy_incident_shape (post : wboy_post) (incident : Incident) :
  to_wboy_incident L post = Some incident ->
  title incident = post_title post /\ title incident <> "" /\
  url incident = post_link post /\ url incident <> "" /\
  PyStr.any_in NON_EVENT_TITLE_TERMS (PyStr.lower (title incident)) = false /\
  likely_relevant (PyStr.strip (post_title post ++ " " ++ post_excerpt post)) = true /\
  is_north_central_context
    (PyStr.strip (post_title post ++ " " ++ post_excerpt post ++ " " ++ post_content post))
  = true /\
  id incident = incident_id L (url incident) (title incident) /\
  source_type incident = "news_archive" /\
  verification_status incident = "unverified" /\
  verified_fatalities incident = PNone /\
  (0 <= suspected_fatalities incident <= 10)%Z.
Proof.
  unfold to_wboy_incident.
  destruct (negb (PyStr.nonempty (post_title post)) || negb (PyStr.nonempty (post_link post)))%bool
    eqn:E1; [discriminate|].
  destruct (PyStr.any_in NON_EVENT_TITLE_TERMS (PyStr.lower (post_title post))) eqn:E2;
    [discriminate|].
  destruct (negb (likely_relevant _)) eqn:E3; [discriminate|].
  destruct (negb (is_north_central_context _)) eqn:E4; [discriminate|].
  destruct (Location.infer_location _) as [[location la] lo].
  intros H. inversion H. clear H. simpl.
  apply orb_false_iff in E1. destruct E1 as [Et El].
  apply negb_false_iff in Et, El, E3, E4.
  apply nonempty_true in Et, El.
  repeat split; try assumption; apply estimate_range.
Qed.

(** X14.  An incident that [fetch_wdtv_historical_incidents] returns comes
    from a sitemap entry whose page could be read: its url is the entry's
    and holds one of the two url hints once lower-cased; its title is the
    page's [og:title], or else its [title] tag, and is not empty; title,
    summary and url together pass both text filters; its time stamp is empty
    or not before the cutoff. *)
Theorem wdtv_incident_shape (entries : list sitemap_entry) (incident : Incident) :
  In incident (fetch_wdtv_historical_incidents L entries) ->
  exists entry, In entry entries /\ from_sitemap_entry L entry incident.
Proof.
  induction entries as [|entry entries IH]; [intros []|].
  cbn [fetch_wdtv_historical_incidents].
  assert (Hrest : In incident (fetch_wdtv_historical_incidents L entries) ->
                  exists entry0,
                    (entry = entry0 \/ In entry0 entries) /\
                    from_sitemap_entry L entry0 incident).
  { intros Hin. destruct (IH Hin) as (e & He & Hshape). exists e. tauto. }
  destruct (negb (PyStr.any_in WDTV_URL_HINT_TERMS (PyStr.lower (article_url entry)))) eqn:E0;
    [exact Hrest|].
  destruct (to_wdtv_incident L entry) as [x|] eqn:E; [|exact Hrest].
  destruct (PyStr.nonempty (published_at x) && before_cutoff L (published_at x))%bool eqn:Ec;
    [exact Hrest|].
  intros [Hx|Hin]; [subst x|exact (Hrest Hin)].
  exists entry. split; [left; reflexivity|].
  unfold to_wdtv_incident in E. destruct (page entry) as [meta|] eqn:Hp; [|discriminate].
  destruct (negb (PyStr.nonempty (PyStr.or_else (og_title meta) (title_tag meta)))) eqn:E1;
    [discriminate|].
  destruct (negb (likely_relevant _)) eqn:E2; [discriminate|].
  destruct (negb (is_north_central_context _)) eqn:E3; [discriminate|].
  destruct (Location.infer_location _) as [[location la] lo].
  inversion E as [Hinc]. clear E. rewrite <- Hinc in Ec. simpl in Ec.
  apply negb_false_iff in E0, E1, E2, E3. apply nonempty_true in E1.
  exists meta. simpl. repeat split; try assumption.
  apply andb_false_iff in Ec. destruct Ec as [Ec|Ec]; [left|right; exact Ec].
  destruct (parse_iso_date L _); [reflexivity|discriminate].
Qed.

Lemma feed_step_cases (incidents : list Incident) (seen : list string) (item : feed_item) :
  feed_step L (incidents, seen) item = (incidents, seen) \/
  exists made,
    feed_step L (incidents, seen) item = (incidents ++ [made], id made :: seen) /\
    from_feed_item L made /\ ~ In (id made) seen.
Proof.
  unfold feed_step.
  destruct (negb (likely_relevant (item_title item ++ " " ++ item_description item))) eqn:E1;
    [left; reflexivity|].
  destruct (negb (PyStr.nonempty (item_link item))) eqn:E2; [left; reflexivity|].
  destruct (str_in (incident_id L (item_link item) (item_title item)) seen) eqn:E3;
    [left; reflexivity|].
  destruct (Location.infer_location _) as [[location la] lo].
  right.
  match goal with
  | |- context [(incidents ++ [?x])%list] => exists x
  end.
  split; [reflexivity|].
  apply negb_false_iff in E1, E2. apply nonempty_true in E2.
  split; [|apply str_in_false; exact E3].
  unfold from_feed_item. simpl. repeat split; try assumption; apply estimate_range.
Qed.

(** The loop over the feed items, as a fold of the bodies that return. *)
Lemma feed_fold_appends (items : list feed_item) (incidents : list Incident)
      (seen : list string) :
  exists added,
    fst (fold_left (feed_step L) items (incidents, seen)) = incidents ++ added /\
    snd (fold_left (feed_step L) items (incidents, seen)) = rev (map id added) ++ seen /\
    Forall (from_feed_item L) added /\
    NoDup (map id added) /\
    forall x, In x added -> ~ In (id x) seen.
Proof.
  revert incidents seen. induction items as [|item items IH]; intros incidents seen.
  - exists []. simpl. rewrite app_nil_r.
    split; [reflexivity|]. split; [reflexivity|]. split; [constructor|].
    split; [constructor|intros x []].
  - cbn [fold_left].
    destruct (feed_step_cases incidents seen item) as [E|(made & E & Hmade & Hnew)]; rewrite E.
    + exact (IH incidents seen).
    + destruct (IH (incidents ++ [made]) (id made :: seen)) as (added & H1 & H2 & H3 & H4 & H5).
      exists (made :: added). simpl in H5 |- *.
      split; [rewrite H1, <- app_assoc; reflexivity|].
      split; [rewrite H2, <- app_assoc; reflexivity|].
      split; [constructor; assumption|]. split.
      * constructor; [|exact H4]. intros Hin. apply in_map_iff in Hin.
        destruct Hin as (y & Hy & Hin). apply (H5 y Hin). left. symmetry. exact Hy.
      * intros x [Hx|Hx].
        -- subst x. exact Hnew.
        -- intros Hin. apply (H5 x Hx). right. exact Hin.
Qed.

(** An iteration that returns leaves the state that [feed_step] computes. *)
Lemma feed_step_run_returns (st st' : list Incident * list string) (item : feed_item) :
  feed_step_run L st item = Ok st' -> feed_step L st item = st'.
Proof.
  destruct st as [incidents seen]. unfold feed_step_run, feed_step, run_parse_date.
  repeat match goal with
         | |- (if ?c then Ok _ else _) = _ -> _ =>
             destruct c; [intros H; inversion H; reflexivity|]
         end.
  destruct (Location.infer_location _) as [[location la] lo].
  destruct (Estimator.extract_fatalities _) as [n|e] eqn:E; cbn [bind]; [|discriminate].
  apply estimator_returns in E.
  destruct (parse_date_raises L _); cbn [bind]; [discriminate|].
  intros H. inversion H. rewrite E. reflexivity.
Qed.

Lemma feed_loop_returns (items : list feed_item) (st st' : list Incident * list string) :
  for_each (feed_step_run L) items st = Ok st' -> fold_left (feed_step L) items st = st'.
Proof.
  revert st. induction items as [|item items IH]; intros st; simpl.
  - intros H. inversion H. reflexivity.
  - destruct (feed_step_run L st item) as [st1|e] eqn:E; cbn [bind]; [|discriminate].
    rewrite (feed_step_run_returns _ _ _ E). apply IH.
Qed.

(** X15.  On feed items whose titles and descriptions are ASCII text,
    whenever the loop over the feed items runs to its end (neither the
    estimator nor [parse_date] raises), it has only appended incidents whose
    title and description together pass [likely_relevant], whose link is not
    empty, whose id is [incident_id(link, title)] and was not in [seen], and
    which are unverified news records with an estimate between 0 and 10; it
    has appended them at the end, added their ids to [seen] and removed
    nothing. *)
Theorem feed_loop_appends (items : list feed_item) (incidents : list Incident)
        (seen : list string) (st' : list Incident * list string) :
  Forall (fun item => PyStr.is_ascii (item_title item) = true /\
                      PyStr.is_ascii (item_description item) = true) items ->
  for_each (feed_step_run L) items (incidents, seen) = Ok st' ->
  exists added,
    fst st' = incidents ++ added /\
    snd st' = rev (map id added) ++ seen /\
    Forall (from_feed_item L) added /\
    NoDup (map id added) /\
    forall x, In x added -> ~ In (id x) seen.
Proof.
  intros _ H. apply feed_loop_returns in H. subst st'. apply feed_fold_appends.
Qed.

End AdapterFacts.

Lemma wboy_incident_shape_witness :
  exists incident,
    to_wboy_incident sample_library sample_post = Some incident /\
    title incident = "Two dead after I-79 crash near Fairmont" /\
    source_type incident = "news_archive" /\
    (0 <= suspected_fatalities incident <= 10)%Z.
Proof.
  destruct (to_wboy_incident sample_library sample_post) as [x|] eqn:E;
    [|vm_compute in E; discriminate].
  exists x. split; [reflexivity|].
  destruct (wboy_incident_shape sample_library sample_post x E)
    as (Ht & _ & _ & _ & _ & _ & _ & _ & Hs & _ & _ & Hf).
  exact (conj Ht (conj Hs Hf)).
Defined.

Lemma wdtv_incident_shape_witness :
  exists incident entry,
    fetch_wdtv_historical_incidents sample_library sample_entries = [incident] /\
    In entry sample_entries /\ from_sitemap_entry sample_library entry incident.
Proof.
  destruct (fetch_wdtv_historical_incidents sample_library sample_entries) as [|x rest] eqn:E;
    [vm_compute in E; discriminate|].
  destruct rest as [|y rest]; [|vm_compute in E; discriminate].
  destruct (wdtv_incident_shape sample_library sample_entries x) as (entry & Hin & Hshape).
  - rewrite E. left. reflexivity.
  - exists x, entry. split; [reflexivity|]. split; assumption.
Defined.

Lemma feed_loop_appends_witness :
  exists st' added,
    for_each (feed_step_run sample_library) (feed_items feed_sources) ([], []) = Ok st' /\
    fst st' = [] ++ added /\ Forall (from_feed_item sample_library) added.
Proof.
  destruct (for_each (feed_step_run sample_library) (feed_items feed_sources) ([], []))
    as [st'|e] eqn:E; [|vm_compute in E; discriminate].
  destruct (feed_loop_appends sample_library (feed_items feed_sources) [] [] st')
    as (added & H1 & _ & H3 & _).
  - repeat constructor.
  - exact E.
  - exists st', added. split; [reflexivity|]. split; assumption.
Defined.

(** ** Export and summary *)

Section ExportFacts.

Variable L : Library.

(** X16.  An exported record can be fed back as a manual record: for an
    incident whose title and url are non-empty ASCII text and carry no white
    space at either end, [manual_incidents] rebuilds from [to_dict] the same incident,
    field by field, under the id [incident_id(url, title)]; so an incident
    whose id is that one comes back unchanged. *)
Theorem export_reimport (incident : Incident) :
  PyStr.is_ascii (title incident) = true -> PyStr.is_ascii (url incident) = true ->
  PyStr.strip (title incident) = title incident -> title incident <> "" ->
  PyStr.strip (url incident) = url incident -> url incident <> "" ->
  manual_incident L (PDict (to_dict incident))
  = Ok (Some {| id := incident_id L (url incident) (title incident);
                title := title incident;
                url := url incident;
                source := source incident;
                published_at := published_at incident;
                summary := summary incident;
                location_text := location_text incident;
                lat := lat incident;
                lon := lon incident;
                construction_related := construction_related incident;
                suspected_fatalities := suspected_fatalities incident;
                source_type := source_type incident;
                verification_status := verification_status incident;
                verified_fatalities := verified_fatalities incident;
                notes := notes incident |}) /\
  (id incident = incident_id L (url incident) (title incident) ->
   manual_incident L (PDict (to_dict incident)) = Ok (Some incident)).
Proof.
  intros _ _ Ht Htne Hu Hune.
  assert (Hmain : manual_incident L (PDict (to_dict incident))
                  = Ok (Some {| id := incident_id L (url incident) (title incident);
                                title := title incident;
                                url := url incident;
                                source := source incident;
                                published_at := published_at incident;
                                summary := summary incident;
                                location_text := location_text incident;
                                lat := lat incident;
                                lon := lon incident;
                                construction_related := construction_related incident;
                                suspected_fatalities := suspected_fatalities incident;
                                source_type := source_type incident;
                                verification_status := verification_status incident;
                                verified_fatalities := verified_fatalities incident;
                                notes := notes incident |})).
  { unfold manual_incident, to_dict, Dict.get_default, str. cbn [Dict.get String.eqb Ascii.eqb
      Bool.eqb Py.to_str Py.to_int bind].
    rewrite Ht, Hu.
    assert (Hn : PyStr.nonempty (title incident) = true) by (apply nonempty_true; exact Htne).
    assert (Hnu : PyStr.or_else (url incident) "manual://local" = url incident).
    { unfold PyStr.or_else. rewrite (proj2 (nonempty_true _) Hune). reflexivity. }
    rewrite Hn, Hnu. cbn [negb].
    destruct (Location.infer_location _) as [[location la] lo].
    destruct (construction_related incident); reflexivity. }
  split; [exact Hmain|].
  intros Hid. rewrite Hmain, <- Hid. destruct incident; reflexivity.
Qed.

End ExportFacts.

Lemma export_reimport_witness :
  manual_incident sample_library (PDict (to_dict later_incident))
  = Ok (Some (mkIncident "troper dnoce" "Test crash, second report" "https://example.com/article"
                "example.com" "2025-01-02T00:00:00+00:00" "A crash on I-79." "Marion County"
                (PFloat 39.4568) (PFloat (-80.1542)) false 1 "news" "unverified" PNone "")).
Proof.
  exact (proj1 (export_reimport sample_library later_incident eq_refl eq_refl
                  eq_refl ltac:(discriminate) eq_refl ltac:(discriminate))).
Defined.

Section SummaryFacts.

Variable L : Library.

Lemma feed_item_machine_made (incident : Incident) :
  from_feed_item L incident -> machine_made incident.
Proof.
  intros (_ & _ & _ & Ht & Hv & Hn & Hr). unfold machine_made.
  split; [exact Hn|]. split; [exact Hr|]. right. rewrite Ht. split; [discriminate|exact Hv].
Qed.

Lemma wv511_machine_made (lines : list string) (incident : Incident) :
  In incident (parse_wv511_i79_incidents L lines) -> machine_made incident.
Proof.
  revert incident. apply parse_from_accepted. intros event_title b incident.
  unfold block_incident.
  destruct (negb _); [discriminate|]. destruct (_ && _)%bool; [discriminate|].
  intros H. inversion H. unfold wv511_incident, machine_made.
  destruct (Location.infer_location _) as [[location la] lo]. simpl.
  split; [reflexivity|]. split; [apply estimate_range|]. left. split; reflexivity.
Qed.

Lemma wdtv_machine_made (entries : list sitemap_entry) (incident : Incident) :
  In incident (fetch_wdtv_historical_incidents L entries) -> machine_made incident.
Proof.
  induction entries as [|entry entries IH]; [intros []|].
  cbn [fetch_wdtv_historical_incidents].
  destruct (negb _); [exact IH|].
  destruct (to_wdtv_incident L entry) as [x|] eqn:E; [|exact IH].
  destruct (_ && _)%bool; [exact IH|].
  intros [Hx|Hin]; [subst x|exact (IH Hin)].
  unfold to_wdtv_incident in E. destruct (page entry) as [meta|]; [|discriminate].
  repeat match type of E with
         | (if ?c then None else _) = _ => destruct c; [discriminate|]
         end.
  destruct (Location.infer_location _) as [[location la] lo].
  inversion E. unfold machine_made. simpl.
  split; [reflexivity|]. split; [apply estimate_range|]. right. split; [discriminate|reflexivity].
Qed.

Lemma wboy_machine_made (post : wboy_post) (incident : Incident) :
  to_wboy_incident L post = Some incident -> machine_made incident.
Proof.
  unfold to_wboy_incident.
  repeat match goal with
         | |- (if ?c then None else _) = _ -> _ => destruct c; [discriminate|]
         end.
  destruct (Location.infer_location _) as [[location la] lo].
  intros H. inversion H. unfold machine_made. simpl.
  split; [reflexivity|]. split; [apply estimate_range|]. right. split; [discriminate|reflexivity].
Qed.

Lemma feed_loop_machine_made (items : list feed_item) :
  forall st, Forall machine_made (fst st) ->
             Forall machine_made (fst (fold_left (feed_step L) items st)).
Proof.
  induction items as [|item items IH]; intros [incidents seen] H; [exact H|].
  cbn [fold_left].
  destruct (feed_step_cases L incidents seen item) as [E|(made & E & Hmade & _)]; rewrite E.
  - apply IH. exact H.
  - apply IH. cbn [fst] in *. apply Forall_app. split; [exact H|].
    constructor; [exact (feed_item_machine_made _ Hmade)|constructor].
Qed.

Lemma archive_loop_machine_made (xs : list Incident) :
  Forall machine_made xs ->
  forall st, Forall machine_made (fst st) ->
             Forall machine_made (fst (fold_left archive_step xs st)).
Proof.
  induction xs as [|x xs IH]; intros Hxs [incidents seen] H; [exact H|].
  inversion Hxs; subst. cbn [fold_left]. apply IH; [assumption|].
  unfold archive_step. destruct (str_in (id x) seen); [exact H|].
  cbn [fst] in *. apply Forall_app. split; [exact H|]. constructor; [assumption|constructor].
Qed.

Lemma wboy_loop_machine_made (posts : list wboy_post) :
  forall st, Forall machine_made (fst st) ->
             Forall machine_made (fst (fold_left (wboy_step L) posts st)).
Proof.
  induction posts as [|p posts IH]; intros [incidents seen] H; [exact H|].
  cbn [fold_left]. apply IH. unfold wboy_step.
  destruct (to_wboy_incident L p) as [x|] eqn:E; [|exact H].
  unfold archive_step. destruct (str_in (id x) seen); [exact H|].
  cbn [fst] in *. apply Forall_app. split; [exact H|].
  constructor; [exact (wboy_machine_made _ _ E)|constructor].
Qed.

Lemma collect_machine_made (src : sources) : Forall machine_made (collect L src).
Proof.
  unfold collect.
  pose proof (feed_loop_machine_made (feed_items src) ([], []) (Forall_nil _)) as H1.
  destruct (fold_left (feed_step L) (feed_items src) ([], [])) as [incidents1 seen1].
  cbn [fst] in H1.
  assert (H2 : Forall machine_made
                 (incidents1 ++ parse_wv511_i79_incidents L (wv511_lines src))).
  { apply Forall_app. split; [exact H1|]. apply Forall_forall. apply wv511_machine_made. }
  pose proof (archive_loop_machine_made
                (fetch_wdtv_historical_incidents L (wdtv_entries src))
                (proj2 (Forall_forall _ _) (wdtv_machine_made (wdtv_entries src)))
                (incidents1 ++ parse_wv511_i79_incidents L (wv511_lines src), seen1) H2) as H3.
  destruct (fold_left archive_step _ _) as [incidents3 seen3]. cbn [fst] in H3.
  pose proof (wboy_loop_machine_made (wboy_posts src) (incidents3, seen3) H3) as H4.
  destruct (fold_left (wboy_step L) _ _) as [incidents4 seen4]. exact H4.
Qed.

Lemma index_by_id_In (incidents : list Incident) (kv : string * Incident) :
  In kv (index_by_id incidents) -> In (snd kv) incidents.
Proof.
  unfold index_by_id.
  assert (G : forall d,
             In kv (fold_left (fun by_id incident => Dict.set (id incident) incident by_id)
                              incidents d) ->
             In kv d \/ In (snd kv) incidents).
  { induction incidents as [|x xs IH]; intros d H; simpl in *; [tauto|].
    apply IH in H. destruct H as [H|H]; [|tauto].
    apply set_In in H. destruct H as [H|H]; [subst kv; simpl; tauto|tauto]. }
  intros H. apply G in H. destruct H as [[]|H]. exact H.
Qed.

Lemma total_range (incidents : list Incident) :
  Forall machine_made incidents ->
  forall a : Z,
    (a <= fold_left Z.add (map effective_fatalities incidents) a
       <= a + 10 * Z.of_nat (length incidents))%Z.
Proof.
  induction incidents as [|x xs IH]; intros H a.
  - simpl. lia.
  - inversion H as [|? ? (Hv & Hr & _) Hxs]; subst. cbn [map fold_left length].
    specialize (IH Hxs (a + effective_fatalities x)%Z).
    unfold effective_fatalities in *. rewrite Hv in *. lia.
Qed.

Lemma count_if_ext (f g : Incident -> bool) (incidents : list Incident) :
  (forall x, In x incidents -> f x = g x) -> count_if f incidents = count_if g incidents.
Proof.
  unfold count_if. induction incidents as [|x xs IH]; intros H; [reflexivity|].
  simpl. rewrite (H x (or_introl eq_refl)).
  destruct (g x); simpl; rewrite IH; auto; intros y Hy; apply H; right; exact Hy.
Qed.

Lemma count_if_le (f : Incident -> bool) (incidents : list Incident) :
  count_if f incidents <= length incidents.
Proof. unfold count_if. apply filter_length_le. Qed.

(** X17.  The summary of a dataset built without effective overrides (no
    patch, no manual record): the fatality total lies between 0 and ten times
    the number of incidents, the count of verified records equals the count
    of official delay-listing records, and no count exceeds the number of
    incidents. *)
Theorem summary_without_overrides (src : sources) (result : list Incident) :
  build_dataset L src = Ok result ->
  override_items (manual_overrides src) = Ok [] ->
  Py.iterate (Dict.get_default "manual_incidents" (PList []) (manual_overrides src)) = Ok [] ->
  incident_count (summarize result) = length result /\
  (0 <= total_fatalities (summarize result)
     <= 10 * Z.of_nat (incident_count (summarize result)))%Z /\
  verified_count (summarize result) = official_source_count (summarize result) /\
  construction_related_count (summarize result) <= incident_count (summarize result) /\
  official_source_count (summarize result) <= incident_count (summarize result).
Proof.
  intros Hret Hitems Hraws.
  assert (Hall : Forall machine_made result).
  { unfold build_dataset, apply_manual_overrides in Hret.
    rewrite Hitems, Hraws in Hret. simpl in Hret. inversion Hret; subst result.
    apply Forall_forall. intros x Hx. apply (proj1 (sort_newest_first_In _ _)) in Hx.
    unfold Dict.values in Hx. apply in_map_iff in Hx. destruct Hx as (kv & Hkv & Hin).
    subst x. apply index_by_id_In in Hin.
    pose proof (collect_machine_made src) as Hc. rewrite Forall_forall in Hc. exact (Hc _ Hin). }
  unfold summarize. cbn [incident_count total_fatalities verified_count official_source_count
    construction_related_count].
  split; [reflexivity|]. split; [|split; [|split; apply count_if_le]].
  - pose proof (total_range result Hall 0%Z). lia.
  - apply count_if_ext. intros x Hx. rewrite Forall_forall in Hall.
    destruct (Hall x Hx) as (_ & _ & [[Ht Hs]|[Ht Hs]]); rewrite Hs.
    + rewrite Ht. reflexivity.
    + destruct (String.eqb (source_type x) "official_wv511") eqn:E; [|reflexivity].
      apply String.eqb_eq in E. contradiction.
Qed.

End SummaryFacts.

Lemma summary_without_overrides_witness :
  exists result,
    build_dataset sample_library feed_sources = Ok result /\
    summarize result = {| incident_count := 3; total_fatalities := 0;
                          construction_related_count := 2; official_source_count := 2;
                          verified_count := 2 |} /\
    verified_count (summarize result) = official_source_count (summarize result).
Proof.
  destruct (build_dataset sample_library feed_sources) as [result|e] eqn:E;
    [|vm_compute in E; discriminate].
  exists result. split; [reflexivity|].
  destruct (summary_without_overrides sample_library feed_sources result E eq_refl eq_refl)
    as (_ & _ & Hv & _).
  split; [|exact Hv].
  vm_compute in E. inversion E. vm_compute. reflexivity.
Defined.

(** ** The archive iterators *)

Lemma fold_left_invariant {A B : Type} (P : nat -> B -> Prop) (f : B -> A -> B)
      (xs : list A) (k : nat) (b : B) :
  P k b -> (forall k b x, P k b -> P (S k) (f b x)) ->
  P (k + length xs) (fold_left f xs b).
Proof.
  intros Hb Hstep. revert k b Hb.
  induction xs as [|x xs IH]; intros k b Hb.
  - rewrite Nat.add_0_r. exact Hb.
  - cbn [fold_left length]. rewrite Nat.add_succ_r. apply (IH (S k)). apply Hstep. exact Hb.
Qed.

Lemma NoDup_map_Some {A : Type} (xs : list A) : NoDup xs -> NoDup (map Some xs).
Proof.
  induction 1 as [|x xs Hx Hnd IH]; cbn [map]; constructor; [|exact IH].
  intros Hin. apply in_map_iff in Hin. destruct Hin as (y & Hy & Hin).
  inversion Hy. subst y. exact (Hx Hin).
Qed.

Section WboyFacts.

Variable api : nat -> string -> nat -> api_response.

Lemma take_row_keeps (st : post_scan) (row : pyval) :
  posts_indexed st -> posts_indexed (take_row st row).
Proof.
  intros [Hm Hnd]. unfold take_row.
  destruct (post_id row) as [n|] eqn:Hid; [|split; assumption].
  destruct (existsb (Z.eqb n) (seen_post_ids st)) eqn:Hseen; [split; assumption|].
  split; cbn [posts seen_post_ids].
  - rewrite map_app, Hm. cbn [rev map]. rewrite map_app, Hid. reflexivity.
  - constructor; [|exact Hnd]. intros Hin.
    assert (existsb (Z.eqb n) (seen_post_ids st) = true) as Habs.
    { apply existsb_exists. exists n. split; [exact Hin|apply Z.eqb_refl]. }
    congruence.
Qed.

Lemma take_rows_keep (rows : list pyval) (st : post_scan) :
  posts_indexed st -> posts_indexed (fold_left take_row rows st).
Proof.
  revert st. induction rows as [|row rows IH]; intros st H; [exact H|].
  cbn [fold_left]. apply IH. apply take_row_keeps. exact H.
Qed.

Lemma search_pages_keeps (term : string) (pages : list nat) (sent : nat) (st : post_scan) :
  posts_indexed st -> posts_indexed (snd (search_pages api term pages sent st)).
Proof.
  revert sent st. induction pages as [|page pages IH]; intros sent st H; [exact H|].
  cbn [search_pages].
  destruct (api sent term page) as [code| |body].
  - destruct (code =? 400)%Z; [exact H|apply IH; exact H].
  - apply IH. exact H.
  - destruct body as [| | | | |rows|]; try exact H.
    destruct rows as [|row rows]; [exact H|].
    apply IH. apply (take_rows_keep (row :: rows)). exact H.
Qed.

Lemma search_term_keeps (acc : nat * post_scan) (term : string) :
  posts_indexed (snd acc) -> posts_indexed (snd (search_term api acc term)).
Proof.
  intros H. exact (search_pages_keeps term (seq 1 14) (fst acc) (snd acc) H).
Qed.

(** X18 (iter_wboy_historical_posts): whatever the API answers, every row
    the generator yields is a dict whose "id" is an integer, and no two
    yielded rows have the same id. *)
Theorem wboy_posts_distinct_ids :
  let out := posts (snd (iter_wboy_historical_posts api)) in
  NoDup (map post_id out) /\
  forall row, In row out -> exists d n, row = PDict d /\ post_id row = Some n.
Proof.
  intros out.
  assert (posts_indexed (snd (iter_wboy_historical_posts api))) as [Hm Hnd].
  { apply (fold_left_invariant (fun _ acc => posts_indexed (snd acc)) (search_term api)
             WBOY_SEARCH_TERMS 0).
    - split; [reflexivity|constructor].
    - intros _ acc term H. apply search_term_keeps. exact H. }
  fold out in Hm.
  split.
  - rewrite Hm. apply NoDup_map_Some. apply NoDup_rev. exact Hnd.
  - intros row Hin.
    assert (In (post_id row) (map post_id out)) as Hi by (apply in_map; exact Hin).
    rewrite Hm in Hi. apply in_map_iff in Hi. destruct Hi as (n & Hn & _).
    destruct row as [| | | | | |d]; try discriminate.
    exists d, n. split; [reflexivity|symmetry; exact Hn].
Qed.




(** X20 (iter_wboy_historical_posts): the loop over the pages of a term is
    left at the first answer that is a status 400, an empty list or a body
    that is not a list: when the request numbered [j] of the term gets such
    an answer, the term costs at most [j + 1] requests. *)
Theorem wboy_term_ends_at (term : string) (pages : list nat) (sent : nat) (st : post_scan)
        (j : nat) :
  j < length pages ->
  ends_term (api (sent + j) term (nth j pages 0)) = true ->
  fst (search_pages api term pages sent st) <= sent + j + 1.
Proof.
  revert sent st j. induction pages as [|page pages IH]; intros sent st j Hj Hend;
    [cbn in Hj; lia|].
  destruct j as [|j].
  - rewrite Nat.add_0_r in Hend. cbn [nth] in Hend. cbn [search_pages].
    destruct (api sent term page) as [code| |body]; cbn [ends_term] in Hend.
    + rewrite Hend. cbn. lia.
    + discriminate.
    + destruct body as [| | | | |rows|]; try (cbn; lia).
      destruct rows as [|row rows]; [cbn; lia|discriminate].
  - cbn [length] in Hj. cbn [nth] in Hend. rewrite Nat.add_succ_r in Hend.
    assert (forall st', fst (search_pages api term pages (S sent) st') <= sent + S j + 1) as Hrec.
    { intros st'. pose proof (IH (S sent) st' j ltac:(lia) Hend). lia. }
    cbn [search_pages].
    destruct (api sent term page) as [code| |body].
    + destruct (code =? 400)%Z; [cbn; lia|apply Hrec].
    + apply Hrec.
    + destruct body as [| | | | |rows|]; try (cbn; lia).
      destruct rows as [|row rows]; [cbn; lia|apply Hrec].
Qed.

End WboyFacts.

Lemma wboy_term_ends_at_witness :
  ends_term (sample_api 1 "i-79 accident" 2) = true /\
  fst (search_pages sample_api "i-79 accident" (seq 1 14) 0 (mkPostScan [] [])) <= 2.
Proof.
  split; [reflexivity|].
  exact (wboy_term_ends_at sample_api "i-79 accident" (seq 1 14) 0 (mkPostScan [] []) 1
           ltac:(cbn; lia) eq_refl).
Defined.

Section StripFacts.

Lemma rstrip_unfold (c : ascii) (s : string) :
  PyStr.rstrip (String c s)
  = match PyStr.rstrip s with
    | EmptyString => if PyStr.is_space c then EmptyString else String c EmptyString
    | r => String c r
    end.
Proof. reflexivity. Qed.

Lemma rstrip_rstrip (s : string) : PyStr.rstrip (PyStr.rstrip s) = PyStr.rstrip s.
Proof.
  induction s as [|c s IH]; [reflexivity|].
  rewrite rstrip_unfold. destruct (PyStr.rstrip s) as [|a r] eqn:E.
  - destruct (PyStr.is_space c) eqn:Hc; [reflexivity|].
    rewrite rstrip_unfold. cbn [PyStr.rstrip]. rewrite Hc. reflexivity.
  - rewrite rstrip_unfold, IH. reflexivity.
Qed.

Lemma lstrip_head (s : string) :
  PyStr.lstrip s = EmptyString \/
  exists c t, PyStr.lstrip s = String c t /\ PyStr.is_space c = false.
Proof.
  induction s as [|c s IH]; [left; reflexivity|].
  cbn [PyStr.lstrip]. destruct (PyStr.is_space c) eqn:Hc; [exact IH|].
  right. exists c, s. split; [reflexivity|exact Hc].
Qed.

Lemma strip_strip (s : string) : PyStr.strip (PyStr.strip s) = PyStr.strip s.
Proof.
  unfold PyStr.strip.
  destruct (lstrip_head s) as [E|(c & t & E & Hc)]; rewrite E; [reflexivity|].
  rewrite (rstrip_cons c t Hc). cbn [PyStr.lstrip]. rewrite Hc.
  rewrite <- (rstrip_cons c t Hc). apply rstrip_rstrip.
Qed.

End StripFacts.

Section WdtvFacts.

Variable web : nat -> string -> option sitemap_doc.

Lemma take_entry_keeps (st : entry_scan) (row : string * string) :
  entries_indexed st -> entries_indexed (take_entry st row).
Proof.
  intros (Hm & Hnd & Hall). unfold take_entry.
  destruct (PyStr.nonempty (PyStr.strip (fst row))
            && negb (str_in (PyStr.strip (fst row)) (seen_urls st)))%bool eqn:E;
    [|repeat split; assumption].
  apply andb_true_iff in E. destruct E as [Hne Hnew]. apply negb_true_iff in Hnew.
  split; [|split]; cbn [entries seen_urls].
  - rewrite map_app, Hm. reflexivity.
  - constructor; [apply str_in_false; exact Hnew|exact Hnd].
  - apply Forall_app. split; [exact Hall|]. constructor; [|constructor].
    cbn [fst snd]. split; [|split; apply strip_strip].
    intros Habs. rewrite Habs in Hne. discriminate.
Qed.

Lemma take_entries_keep (rows : list (string * string)) (st : entry_scan) :
  entries_indexed st -> entries_indexed (fold_left take_entry rows st).
Proof.
  intros H.
  apply (fold_left_invariant (fun _ st => entries_indexed st) take_entry rows 0 st H).
  intros _ b x Hb. apply take_entry_keeps. exact Hb.
Qed.

Lemma read_child_keeps (acc : nat * entry_scan) (loc_text : string) :
  entries_indexed (snd acc) -> entries_indexed (snd (read_child web acc loc_text)).
Proof.
  intros H. unfold read_child.
  destruct (negb (PyStr.nonempty (PyStr.strip loc_text))); [exact H|].
  destruct (web (fst acc) (PyStr.strip loc_text)) as [child|]; cbn [snd]; [|exact H].
  apply take_entries_keep. exact H.
Qed.

Lemma first_pass_keeps : entries_indexed (snd (first_pass web)).
Proof.
  assert (entries_indexed (mkEntryScan [] [])) as H0.
  { split; [reflexivity|split; constructor]. }
  unfold first_pass. destruct (web 0 WDTV_SITEMAP_INDEX_URL) as [root|]; [|exact H0].
  apply (fold_left_invariant (fun _ acc => entries_indexed (snd acc)) (read_child web)
           (sitemap_locs root) 0 (1, mkEntryScan [] []) H0).
  intros _ b x Hb. apply read_child_keeps. exact Hb.
Qed.

Lemma walk_pages_keeps (offsets : list nat) (empty_pages sent : nat) (st : entry_scan) :
  entries_indexed st -> entries_indexed (snd (walk_pages web offsets empty_pages sent st)).
Proof.
  revert empty_pages sent st.
  induction offsets as [|offset offsets IH]; intros e sent st H; [exact H|].
  cbn [walk_pages].
  destruct (web sent (page_url offset)) as [root|].
  - destruct (url_rows root) as [|row rows].
    + destruct (Nat.leb 3 (S e)); [exact H|apply IH; exact H].
    + apply IH. apply take_entries_keep. exact H.
  - destruct (Nat.leb 3 (S e)); [exact H|apply IH; exact H].
Qed.

(** X21 (iter_wdtv_sitemap_entries): whatever the site answers, the entries
    the generator yields have pairwise distinct URLs, no URL is empty, and
    both the URL and the lastmod text are stripped of outer whitespace. *)
Theorem wdtv_entries_distinct_urls :
  let out := entries (snd (iter_wdtv_sitemap_entries web)) in
  NoDup (map fst out) /\
  forall article_url lastmod,
    In (article_url, lastmod) out ->
    article_url <> EmptyString /\
    PyStr.strip article_url = article_url /\ PyStr.strip lastmod = lastmod.
Proof.
  intros out.
  assert (entries_indexed (snd (iter_wdtv_sitemap_entries web))) as (Hm & Hnd & Hall).
  { unfold iter_wdtv_sitemap_entries. apply walk_pages_keeps. apply first_pass_keeps. }
  fold out in Hm, Hall. split.
  - rewrite Hm. apply NoDup_rev. exact Hnd.
  - intros u l Hin. rewrite Forall_forall in Hall. exact (Hall (u, l) Hin).
Qed.

Lemma read_child_sent (acc : nat * entry_scan) (loc_text : string) :
  fst acc <= fst (read_child web acc loc_text) <= S (fst acc).
Proof.
  unfold read_child.
  destruct (negb (PyStr.nonempty (PyStr.strip loc_text))); [lia|].
  destruct (web (fst acc) (PyStr.strip loc_text)); cbn [fst]; lia.
Qed.

Lemma first_pass_sent :
  1 <= fst (first_pass web)
  <= 1 + match web 0 WDTV_SITEMAP_INDEX_URL with
         | Some root => length (sitemap_locs root)
         | None => 0
         end.
Proof.
  unfold first_pass. destruct (web 0 WDTV_SITEMAP_INDEX_URL) as [root|]; [|cbn [fst]; lia].
  pose proof (fold_left_invariant (fun k acc => 1 <= fst acc <= 1 + k) (read_child web)
                (sitemap_locs root) 0 (1, mkEntryScan [] [])) as H.
  cbv beta in H. rewrite Nat.add_0_l in H. apply H.
  - cbn [fst]. lia.
  - intros k b x Hb. pose proof (read_child_sent b x). lia.
Qed.

Lemma walk_pages_sent (offsets : list nat) (empty_pages sent : nat) (st : entry_scan) :
  fst (walk_pages web offsets empty_pages sent st) <= sent + length offsets /\
  (offsets <> [] -> sent < fst (walk_pages web offsets empty_pages sent st)).
Proof.
  revert empty_pages sent st.
  induction offsets as [|offset offsets IH]; intros e sent st.
  - cbn [walk_pages fst length]. split; [lia|congruence].
  - cbn [walk_pages length].
    assert (forall e' st',
               fst (walk_pages web offsets e' (S sent) st') <= sent + S (length offsets) /\
               sent < fst (walk_pages web offsets e' (S sent) st')) as Hrec.
    { intros e' st'. destruct (IH e' (S sent) st') as [Hle Hlt]. split; [lia|].
      destruct offsets as [|o os]; [cbn [walk_pages fst]; lia|].
      assert (S sent < fst (walk_pages web (o :: os) e' (S sent) st'))
        by (apply Hlt; discriminate).
      lia. }
    assert (fst (S sent, st) <= sent + S (length offsets) /\ sent < fst (S sent, st)) as Hstop
      by (cbn [fst]; lia).
    destruct (web sent (page_url offset)) as [root|].
    + destruct (url_rows root) as [|row rows].
      * destruct (Nat.leb 3 (S e)); [|destruct (Hrec (S e) st)]; split; tauto.
      * destruct (Hrec 0 (fold_left take_entry (row :: rows) st)). split; tauto.
    + destruct (Nat.leb 3 (S e)); [|destruct (Hrec (S e) st)]; split; tauto.
Qed.

Lemma length_PAGE_OFFSETS : length PAGE_OFFSETS = 51.
Proof. unfold PAGE_OFFSETS. rewrite length_map, length_seq. reflexivity. Qed.

(** X22 (iter_wdtv_sitemap_entries): one run sends the request for the
    sitemap index, at most one request for each sitemap the index lists,
    and between 1 and 51 requests for category pages, whatever the site
    answers. *)
Theorem wdtv_request_budget :
  2 <= fst (iter_wdtv_sitemap_entries web)
  <= 52 + match web 0 WDTV_SITEMAP_INDEX_URL with
          | Some root => length (sitemap_locs root)
          | None => 0
          end.
Proof.
  unfold iter_wdtv_sitemap_entries.
  destruct (walk_pages_sent PAGE_OFFSETS 0 (fst (first_pass web)) (snd (first_pass web)))
    as [Hle Hlt].
  rewrite length_PAGE_OFFSETS in Hle.
  assert (PAGE_OFFSETS <> []) as Hne.
  { intros E. pose proof length_PAGE_OFFSETS as Hl. rewrite E in Hl. discriminate. }
  specialize (Hlt Hne). pose proof first_pass_sent. lia.
Qed.

Lemma walk_step_empty (offset : nat) (offsets : list nat) (empty_pages sent : nat)
      (st : entry_scan) :
  empty_page (web sent (page_url offset)) = true ->
  walk_pages web (offset :: offsets) empty_pages sent st
  = if Nat.leb 3 (S empty_pages) then (S sent, st)
    else walk_pages web offsets (S empty_pages) (S sent) st.
Proof.
  intros H. cbn [walk_pages]. unfold empty_page in H.
  destruct (web sent (page_url offset)) as [root|]; [|reflexivity].
  destruct (url_rows root); [reflexivity|discriminate].
Qed.

Lemma walk_step_any (offset : nat) (offsets : list nat) (empty_pages sent : nat)
      (st : entry_scan) :
  walk_pages web (offset :: offsets) empty_pages sent st = (S sent, st) \/
  exists e' st',
    walk_pages web (offset :: offsets) empty_pages sent st
    = walk_pages web offsets e' (S sent) st'.
Proof.
  cbn [walk_pages].
  destruct (web sent (page_url offset)) as [root|].
  - destruct (url_rows root) as [|row rows].
    + destruct (Nat.leb 3 (S empty_pages)); [left; reflexivity|right; eauto].
    + right. eauto.
  - destruct (Nat.leb 3 (S empty_pages)); [left; reflexivity|right; eauto].
Qed.

(** X23 (iter_wdtv_sitemap_entries): the walk over the category pages gives
    up after three empty pages in a row: when the page requests numbered
    [j], [j + 1] and [j + 2] of the walk all fail or come back without a url
    node, the walk sends no request after them. *)
Theorem wdtv_walk_stops (offsets : list nat) (empty_pages sent : nat) (st : entry_scan)
        (j : nat) :
  j + 2 < length offsets ->
  empty_page (web (sent + j) (page_url (nth j offsets 0))) = true ->
  empty_page (web (sent + j + 1) (page_url (nth (j + 1) offsets 0))) = true ->
  empty_page (web (sent + j + 2) (page_url (nth (j + 2) offsets 0))) = true ->
  fst (walk_pages web offsets empty_pages sent st) <= sent + j + 3.
Proof.
  revert offsets empty_pages sent st.
  induction j as [|j IH]; intros offsets e sent st Hlen H0 H1 H2.
  - destruct offsets as [|o1 [|o2 [|o3 offsets]]]; cbn [length] in Hlen; try lia.
    cbn [nth Nat.add] in H0, H1, H2.
    rewrite Nat.add_0_r in H0, H1, H2.
    replace (sent + 1) with (S sent) in H1 by lia.
    replace (sent + 2) with (S (S sent)) in H2 by lia.
    rewrite (walk_step_empty _ _ _ _ _ H0).
    destruct (Nat.leb 3 (S e)); [cbn [fst]; lia|].
    rewrite (walk_step_empty _ _ _ _ _ H1).
    destruct (Nat.leb 3 (S (S e))); [cbn [fst]; lia|].
    rewrite (walk_step_empty _ _ _ _ _ H2).
    cbn [Nat.leb fst]. lia.
  - destruct offsets as [|o offsets]; cbn [length] in Hlen; [lia|].
    cbn [nth Nat.add] in H0, H1, H2.
    replace (sent + S j) with (S sent + j) in H0, H1, H2 by lia.
    destruct (walk_step_any o offsets e sent st) as [E|(e' & st' & E)]; rewrite E.
    + cbn [fst]. lia.
    + pose proof (IH offsets e' (S sent) st' ltac:(lia) H0 H1 H2). lia.
Qed.

End WdtvFacts.

Lemma wdtv_walk_stops_witness :
  fst (walk_pages sample_web PAGE_OFFSETS 0 2 (mkEntryScan [] [])) <= 6.
Proof.
  exact (wdtv_walk_stops sample_web PAGE_OFFSETS 0 2 (mkEntryScan [] []) 1
           (proj1 (Nat.ltb_lt (1 + 2) (length PAGE_OFFSETS)) eq_refl) eq_refl eq_refl eq_refl).
Defined.

(** ** Cleaning of text *)

Section SubFacts.

Import Re.

Lemma sub_from_end (r : re) (repl : string) (pv : option ascii) (n inside : nat) :
  ReSub.sub_from r repl pv n EmptyString inside
  = match inside with
    | 0 => match ReSub.attempt r false {| prev := pv; pos := n; rest := EmptyString |} with
           | Some _ => repl
           | None => EmptyString
           end
    | S _ => EmptyString
    end.
Proof. destruct inside; reflexivity. Qed.

Lemma sub_from_inside (r : re) (repl : string) (pv : option ascii) (n : nat) (c : ascii)
      (s : string) (inside : nat) :
  ReSub.sub_from r repl pv n (String c s) (S inside)
  = ReSub.sub_from r repl (Some c) (S n) s inside.
Proof. reflexivity. Qed.

Lemma sub_from_copy (r : re) (repl : string) (pv : option ascii) (n : nat) (c : ascii)
      (s : string) :
  ReSub.attempt r false {| prev := pv; pos := n; rest := String c s |} = None ->
  ReSub.sub_from r repl pv n (String c s) 0
  = String c (ReSub.sub_from r repl (Some c) (S n) s 0).
Proof. intros H. cbn [ReSub.sub_from]. rewrite H. reflexivity. Qed.

Lemma sub_from_replace (r : re) (repl : string) (pv : option ascii) (n : nat) (c : ascii)
      (s : string) (e : nat) :
  ReSub.attempt r false {| prev := pv; pos := n; rest := String c s |} = Some e ->
  n < e ->
  ReSub.sub_from r repl pv n (String c s) 0
  = (repl ++ ReSub.sub_from r repl (Some c) (S n) s (e - n - 1))%string.
Proof.
  intros H Hlt. cbn [ReSub.sub_from]. rewrite H.
  destruct (Nat.eqb_spec e n); [lia|reflexivity].
Qed.

(** A greedy run followed by nothing that can fail takes the whole run. *)
Lemma plus_run_greedy (p : ascii -> bool) (s : string) (pv : option ascii) (n : nat)
      (k : string -> cursor -> option nat) :
  (forall t cu, k t cu = Some (pos cu)) ->
  plus_run p s pv n k = match run p s with 0 => None | S r => Some (n + S r) end.
Proof.
  revert pv n k. induction s as [|c s IH]; intros pv n k Hk; [reflexivity|].
  cbn [plus_run run]. destruct (p c); [|reflexivity].
  rewrite (IH (Some c) (S n) (fun t cu => k (String c t) cu)) by (intros; apply Hk).
  destruct (run p s) as [|r].
  - rewrite Hk. cbn [pos]. f_equal. lia.
  - f_equal. lia.
Qed.

Lemma attempt_space (pv : option ascii) (n : nat) (s : string) :
  ReSub.attempt SPACE_PATTERN false {| prev := pv; pos := n; rest := s |}
  = match run PyStr.is_space s with 0 => None | S r => Some (n + S r) end.
Proof.
  unfold ReSub.attempt, SPACE_PATTERN. cbn [rmatch rest prev pos andb].
  apply plus_run_greedy. intros t cu. reflexivity.
Qed.

Lemma spaced_blank (after_blank : bool) (s : string) :
  spaced after_blank (String " " s) = (negb after_blank && spaced true s)%bool.
Proof. reflexivity. Qed.

Lemma sub_space_spaced (s : string) :
  forall pv n inside,
    (run PyStr.is_space s = inside ->
     spaced true (ReSub.sub_from SPACE_PATTERN " " pv n s inside) = true) /\
    (inside = 0 ->
     spaced false (ReSub.sub_from SPACE_PATTERN " " pv n s inside) = true).
Proof.
  induction s as [|c s IH]; intros pv n inside.
  - rewrite sub_from_end. destruct inside; [|split; reflexivity].
    rewrite attempt_space. split; reflexivity.
  - destruct inside as [|k].
    + pose proof (attempt_space pv n (String c s)) as Ha. cbn [run] in Ha.
      destruct (PyStr.is_space c) eqn:Hc.
      * split; [cbn [run]; rewrite Hc; discriminate|]. intros _.
        rewrite (sub_from_replace _ _ _ _ _ _ _ Ha) by lia.
        replace (n + S (run PyStr.is_space s) - n - 1) with (run PyStr.is_space s) by lia.
        cbn [String.append]. rewrite spaced_blank. cbn [negb andb].
        apply (IH (Some c) (S n) (run PyStr.is_space s)). reflexivity.
      * rewrite (sub_from_copy _ _ _ _ _ _ Ha). cbn [spaced]. rewrite Hc.
        split; intros _; apply (IH (Some c) (S n) 0); reflexivity.
    + rewrite sub_from_inside. split; [|discriminate].
      cbn [run]. destruct (PyStr.is_space c); [|discriminate].
      intros E. injection E as E. apply (IH (Some c) (S n) k). exact E.
Qed.

Lemma spaced_lstrip (s : string) (b : bool) :
  spaced b s = true -> spaced false (PyStr.lstrip s) = true.
Proof.
  revert b. induction s as [|c s IH]; intros b H; [reflexivity|].
  cbn [PyStr.lstrip]. cbn [spaced] in H. destruct (PyStr.is_space c) eqn:Hc.
  - apply andb_true_iff in H. destruct H as [_ H]. exact (IH true H).
  - cbn [spaced]. rewrite Hc. exact H.
Qed.

Lemma spaced_rstrip (s : string) (b : bool) :
  spaced b s = true -> spaced b (PyStr.rstrip s) = true.
Proof.
  revert b. induction s as [|c s IH]; intros b H; [reflexivity|].
  rewrite rstrip_unfold. cbn [spaced] in H. destruct (PyStr.is_space c) eqn:Hc.
  - apply andb_true_iff in H. destruct H as [H1 H2]. pose proof (IH true H2) as H3.
    destruct (PyStr.rstrip s) as [|a r]; [reflexivity|].
    cbn [spaced]. rewrite Hc, H1. exact H3.
  - pose proof (IH false H) as H3.
    destruct (PyStr.rstrip s) as [|a r]; cbn [spaced]; rewrite Hc; [reflexivity|exact H3].
Qed.

Lemma spaced_no_double (s : string) (b : bool) :
  spaced b s = true -> PyStr.contains "  " s = false.
Proof.
  revert b. induction s as [|c s IH]; intros b H; [reflexivity|].
  cbn [spaced] in H. cbn [PyStr.contains String.prefix].
  destruct (PyStr.is_space c) eqn:Hc.
  - apply andb_true_iff in H. destruct H as [_ H].
    rewrite (IH true H).
    destruct (ascii_dec " " c) as [_|_]; [|reflexivity].
    destruct s as [|c2 s]; [reflexivity|]. cbn [String.prefix].
    destruct (ascii_dec " " c2) as [E|_]; [|reflexivity].
    subst c2. rewrite spaced_blank in H. discriminate.
  - rewrite (IH false H).
    destruct (ascii_dec " " c) as [E|_]; [|reflexivity].
    subst c. discriminate.
Qed.

Lemma spaced_only_blanks (s : string) (b : bool) :
  spaced b s = true ->
  forall c, In c (list_ascii_of_string s) -> PyStr.is_space c = true -> c = " "%char.
Proof.
  revert b. induction s as [|a s IH]; intros b H c Hin Hc; [contradiction|].
  cbn [spaced] in H. cbn [list_ascii_of_string] in Hin. destruct Hin as [E|Hin].
  - subst a. rewrite Hc in H. apply andb_true_iff in H. destruct H as [H _].
    apply andb_true_iff in H. destruct H as [H _]. apply Ascii.eqb_eq in H. exact H.
  - destruct (PyStr.is_space a).
    + apply andb_true_iff in H. destruct H as [_ H]. exact (IH true H c Hin Hc).
    + exact (IH false H c Hin Hc).
Qed.

Lemma clean_text_spaced (value : option string) : spaced false (clean_text value) = true.
Proof.
  unfold clean_text, PyStr.strip, ReSub.sub.
  apply spaced_rstrip. apply (spaced_lstrip _ false).
  apply sub_space_spaced. reflexivity.
Qed.

(** X24 (clean_text): on ASCII input (or None) the cleaned text has no
    whitespace at either end, never two blanks in a row, and no whitespace
    character other than the blank (tabs and line breaks are gone). *)
Theorem clean_text_normalised (value : option string) :
  (forall raw, value = Some raw -> PyStr.is_ascii raw = true) ->
  PyStr.strip (clean_text value) = clean_text value /\
  PyStr.contains "  " (clean_text value) = false /\
  forall c, In c (list_ascii_of_string (clean_text value)) ->
            PyStr.is_space c = true -> c = " "%char.
Proof.
  intros _. split; [|split].
  - apply strip_strip.
  - exact (spaced_no_double _ _ (clean_text_spaced value)).
  - exact (spaced_only_blanks _ _ (clean_text_spaced value)).
Qed.

Lemma clean_text_normalised_witness :
  clean_text (Some ("  <p>Crash on" ++ String "009" (String "010" " I-79</p>  "))%string) = "Crash on I-79" /\
  PyStr.contains "  " (clean_text (Some ("  <p>Crash on" ++ String "009" (String "010" " I-79</p>  "))%string))
  = false.
Proof.
  split; [reflexivity|].
  apply (clean_text_normalised
           (Some ("  <p>Crash on" ++ String "009" (String "010" " I-79</p>  "))%string)).
  intros raw H. inversion H. reflexivity.
Defined.

(** *** Markup *)

Lemma prefix_empty (s : string) : String.prefix EmptyString s = true.
Proof. destruct s; reflexivity. Qed.

Lemma prefix_gt_cons (c : ascii) (s : string) :
  String.prefix ">" (String c s) = true <-> c = ">"%char.
Proof.
  cbn [String.prefix]. destruct (ascii_dec ">" c) as [E|E].
  - rewrite prefix_empty. split; [intros _; symmetry; exact E|reflexivity].
  - split; [discriminate|]. intros H. symmetry in H. contradiction.
Qed.

Lemma has_gt_cons_false (c : ascii) (s : string) :
  has_gt (String c s) = false <-> c <> ">"%char /\ has_gt s = false.
Proof.
  cbn [has_gt]. rewrite orb_false_iff. split; intros [H1 H2]; split; try exact H2.
  - intros E. subst c. discriminate.
  - destruct (Ascii.eqb_spec c ">"); [contradiction|reflexivity].
Qed.

Lemma not_gt_true (c : ascii) : not_gt c = true <-> c <> ">"%char.
Proof.
  unfold not_gt. destruct (Ascii.eqb_spec c ">"); cbn [negb]; split; congruence.
Qed.

Lemma eat_gt_none (cu : cursor) : has_gt (rest cu) = false -> eat ">" cu = None.
Proof.
  intros H. cbn [eat]. destruct (rest cu) as [|c s]; [reflexivity|].
  apply has_gt_cons_false in H. destruct H as [H _].
  destruct (Ascii.eqb_spec ">" c) as [E|_]; [|reflexivity]. symmetry in E. contradiction.
Qed.

Lemma eat_gt_some (cu : cursor) :
  String.prefix ">" (rest cu) = true ->
  exists cu', eat ">" cu = Some cu' /\ pos cu' = S (pos cu).
Proof.
  intros H. cbn [eat]. destruct (rest cu) as [|c s]; [discriminate|].
  apply prefix_gt_cons in H. subst c. rewrite Ascii.eqb_refl.
  eexists. split; reflexivity.
Qed.

Lemma eat_gt_pos (cu cu' : cursor) : eat ">" cu = Some cu' -> pos cu' = S (pos cu).
Proof.
  cbn [eat]. destruct (rest cu) as [|c s]; [discriminate|].
  destruct (Ascii.eqb ">" c); [|discriminate]. intros E. injection E as <-. reflexivity.
Qed.

Lemma eat_lt (pv : option ascii) (n : nat) (s : string) (cu' : cursor) :
  eat "<" {| prev := pv; pos := n; rest := s |} = Some cu' ->
  exists s', s = String "<" s' /\ cu' = {| prev := Some "<"%char; pos := S n; rest := s' |}.
Proof.
  cbn [eat rest]. destruct s as [|c s]; [discriminate|].
  destruct (Ascii.eqb_spec "<" c) as [E|_]; [|discriminate].
  subst c. intros E. injection E as <-. exists s. split; reflexivity.
Qed.

Lemma plus_run_no_gt {R : Type} (s : string) (pv : option ascii) (n : nat)
      (k : string -> cursor -> option R) :
  has_gt s = false ->
  (forall t cu, has_gt (rest cu) = false -> k t cu = None) ->
  plus_run not_gt s pv n k = None.
Proof.
  revert pv n k. induction s as [|c s IH]; intros pv n k H Hk; [reflexivity|].
  apply has_gt_cons_false in H. destruct H as [Hc Hs].
  cbn [plus_run]. destruct (not_gt c); [|reflexivity].
  rewrite IH; [|exact Hs|intros t cu Hcu; apply Hk; exact Hcu].
  apply Hk. exact Hs.
Qed.

Lemma plus_run_some {R : Type} (p : ascii -> bool) (s : string) (pv : option ascii)
      (n : nat) (k : string -> cursor -> option R) (x : R) :
  plus_run p s pv n k = Some x ->
  exists t cu, k t cu = Some x /\ n < pos cu.
Proof.
  revert pv n k. induction s as [|c s IH]; intros pv n k H; [discriminate|].
  cbn [plus_run] in H. destruct (p c); [|discriminate].
  destruct (plus_run p s (Some c) (S n) (fun t cu => k (String c t) cu)) as [y|] eqn:E.
  - injection H as ->. destruct (IH _ _ _ E) as (t & cu & Hk & Hpos).
    exists (String c t), cu. split; [exact Hk|lia].
  - eexists _, _. split; [exact H|]. cbn [pos]. lia.
Qed.

Lemma plus_run_reaches {R : Type} (s : string) (pv : option ascii) (n : nat)
      (k : string -> cursor -> option R) :
  has_gt s = true -> String.prefix ">" s = false ->
  (forall t cu, String.prefix ">" (rest cu) = true -> k t cu <> None) ->
  plus_run not_gt s pv n k <> None.
Proof.
  revert pv n k. induction s as [|c s IH]; intros pv n k Hgt Hpre Hk; [discriminate|].
  assert (c <> ">"%char) as Hc.
  { intros E. apply (proj2 (prefix_gt_cons c s)) in E. congruence. }
  cbn [has_gt] in Hgt. destruct (Ascii.eqb_spec c ">") as [E|_]; [contradiction|].
  cbn [orb] in Hgt.
  cbn [plus_run]. rewrite (proj2 (not_gt_true c) Hc).
  destruct (String.prefix ">" s) eqn:P.
  - destruct s as [|c2 s]; [discriminate|].
    apply prefix_gt_cons in P. subst c2. cbn [plus_run].
    change (not_gt ">") with false. cbv iota.
    apply Hk. cbn [rest]. apply prefix_gt_cons. reflexivity.
  - pose proof (IH (Some c) (S n) (fun t cu => k (String c t) cu) Hgt eq_refl
                   (fun t cu Hcu => Hk (String c t) cu Hcu)) as Hin.
    destruct (plus_run not_gt s (Some c) (S n) (fun t cu => k (String c t) cu));
      [discriminate|contradiction].
Qed.

(** No tag starts at a character other than [<], at a [<] followed at once
    by [>], or at a [<] with no [>] after it. *)
Lemma tag_fails {R : Type} (pv : option ascii) (n : nat) (s : string) (g : option string)
      (k : string -> cursor -> option string -> option R) :
  match s with
  | EmptyString => true
  | String c s' =>
      if Ascii.eqb c "<" then (String.prefix ">" s' || negb (has_gt s'))%bool else true
  end = true ->
  rmatch TAG_PATTERN {| prev := pv; pos := n; rest := s |} g k = None.
Proof.
  intros H. unfold TAG_PATTERN. cbn [rmatch].
  destruct (eat "<" {| prev := pv; pos := n; rest := s |}) as [cu1|] eqn:E; [|reflexivity].
  apply eat_lt in E. destruct E as (s' & -> & ->).
  rewrite Ascii.eqb_refl in H. cbn [rest prev pos].
  apply orb_true_iff in H. destruct H as [H|H].
  - destruct s' as [|c2 s']; [discriminate|].
    apply prefix_gt_cons in H. subst c2. reflexivity.
  - apply negb_true_iff in H. apply plus_run_no_gt; [exact H|].
    intros t cu Hcu. rewrite (eat_gt_none cu Hcu). reflexivity.
Qed.

Lemma attempt_tag_positive (pv : option ascii) (n : nat) (s : string) (e : nat) :
  ReSub.attempt TAG_PATTERN false {| prev := pv; pos := n; rest := s |} = Some e -> n < e.
Proof.
  unfold ReSub.attempt, TAG_PATTERN. cbn [rmatch andb].
  destruct (eat "<" {| prev := pv; pos := n; rest := s |}) as [cu1|] eqn:E; [|discriminate].
  apply eat_lt in E. destruct E as (s' & -> & ->). cbn [rest prev pos].
  intros H. apply plus_run_some in H. destruct H as (t & cu & Hk & Hpos).
  destruct (eat ">" cu) as [cu3|] eqn:E3; [|discriminate].
  injection Hk as <-. rewrite (eat_gt_pos _ _ E3). lia.
Qed.

Lemma attempt_tag_opens (pv : option ascii) (n : nat) (s : string) :
  has_gt s = true -> String.prefix ">" s = false ->
  ReSub.attempt TAG_PATTERN false {| prev := pv; pos := n; rest := String "<" s |} <> None.
Proof.
  intros Hgt Hpre. unfold ReSub.attempt, TAG_PATTERN. cbn [rmatch andb].
  replace (eat "<" {| prev := pv; pos := n; rest := String "<" s |})
    with (Some {| prev := Some "<"%char; pos := S n; rest := s |}) by reflexivity.
  cbn [rest prev pos].
  apply plus_run_reaches; [exact Hgt|exact Hpre|].
  intros t cu Hcu. destruct (eat_gt_some cu Hcu) as (cu' & -> & _). discriminate.
Qed.

Lemma tagless_cons (c : ascii) (s : string) :
  tagless (String c s) = true <->
  (c = "<"%char -> String.prefix ">" s = true \/ has_gt s = false) /\ tagless s = true.
Proof.
  cbn [tagless]. rewrite andb_true_iff. split; intros [H1 H2]; split; try exact H2.
  - intros ->. rewrite Ascii.eqb_refl in H1. apply orb_true_iff in H1.
    destruct H1 as [H1|H1]; [left; exact H1|right; apply negb_true_iff; exact H1].
  - destruct (Ascii.eqb_spec c "<") as [E|_]; [|reflexivity].
    apply orb_true_iff. destruct (H1 E) as [H|H]; [left; exact H|right].
    apply negb_true_iff. exact H.
Qed.

(** What copying the head of the subject and rewriting its tail keeps. *)
Lemma copy_keeps (c : ascii) (s out : string) :
  (c = "<"%char -> String.prefix ">" s = true \/ has_gt s = false) ->
  tagless out = true ->
  (has_gt out = true -> has_gt s = true) ->
  (String.prefix ">" s = true -> String.prefix ">" out = true) ->
  tagless (String c out) = true /\
  (has_gt (String c out) = true -> has_gt (String c s) = true) /\
  (String.prefix ">" (String c s) = true -> String.prefix ">" (String c out) = true).
Proof.
  intros Hhead Ht Hg Hp. split; [|split].
  - apply tagless_cons. split; [|exact Ht].
    intros E. destruct (Hhead E) as [H|H]; [left; exact (Hp H)|right].
    destruct (has_gt out); [|reflexivity]. rewrite (Hg eq_refl) in H. discriminate.
  - cbn [has_gt]. intros H. apply orb_true_iff in H. apply orb_true_iff.
    destruct H as [H|H]; [left; exact H|right; exact (Hg H)].
  - intros H. apply prefix_gt_cons in H. apply prefix_gt_cons. exact H.
Qed.

(** What putting a blank for a match and rewriting the rest keeps. *)
Lemma blank_keeps (c : ascii) (s out : string) :
  c <> ">"%char ->
  tagless out = true ->
  (has_gt out = true -> has_gt s = true) ->
  tagless (String " " out) = true /\
  (has_gt (String " " out) = true -> has_gt (String c s) = true) /\
  (String.prefix ">" (String c s) = true -> String.prefix ">" (String " " out) = true).
Proof.
  intros Hc Ht Hg. split; [exact Ht|split].
  - intros H. cbn [has_gt]. apply orb_true_iff. right. exact (Hg H).
  - intros H. apply prefix_gt_cons in H. contradiction.
Qed.

Lemma sub_tag_tagless (s : string) :
  forall pv n inside,
    tagless (ReSub.sub_from TAG_PATTERN " " pv n s inside) = true /\
    (has_gt (ReSub.sub_from TAG_PATTERN " " pv n s inside) = true -> has_gt s = true) /\
    (inside = 0 -> String.prefix ">" s = true ->
     String.prefix ">" (ReSub.sub_from TAG_PATTERN " " pv n s inside) = true).
Proof.
  induction s as [|c s IH]; intros pv n inside.
  - rewrite sub_from_end. destruct inside; [|repeat split; discriminate].
    unfold ReSub.attempt. rewrite tag_fails by reflexivity.
    repeat split; discriminate.
  - destruct inside as [|k].
    + destruct (IH (Some c) (S n) 0) as (I1 & I2 & I3).
      destruct (ReSub.attempt TAG_PATTERN false {| prev := pv; pos := n; rest := String c s |})
        as [e|] eqn:Ha.
      * pose proof (attempt_tag_positive _ _ _ _ Ha) as Hlt.
        rewrite (sub_from_replace _ _ _ _ _ _ _ Ha Hlt). cbn [String.append].
        destruct (IH (Some c) (S n) (e - n - 1)) as (J1 & J2 & _).
        assert (c <> ">"%char) as Hc.
        { intros ->. unfold ReSub.attempt in Ha. rewrite tag_fails in Ha by reflexivity.
          discriminate. }
        destruct (blank_keeps c s _ Hc J1 J2) as (K1 & K2 & K3).
        split; [exact K1|split; [exact K2|intros _; exact K3]].
      * rewrite (sub_from_copy _ _ _ _ _ _ Ha).
        assert (c = "<"%char -> String.prefix ">" s = true \/ has_gt s = false) as Hhead.
        { intros ->. destruct (String.prefix ">" s) eqn:P; [left; reflexivity|right].
          destruct (has_gt s) eqn:G; [|reflexivity].
          exfalso. exact (attempt_tag_opens pv n s G P Ha). }
        destruct (copy_keeps c s _ Hhead I1 I2 (I3 eq_refl)) as (K1 & K2 & K3).
        split; [exact K1|split; [exact K2|intros _; exact K3]].
    + rewrite sub_from_inside. destruct (IH (Some c) (S n) k) as (I1 & I2 & _).
      split; [exact I1|split; [|discriminate]].
      intros H. cbn [has_gt]. rewrite (I2 H). apply orb_true_r.
Qed.

Lemma space_not_gt (c : ascii) : PyStr.is_space c = true -> c <> ">"%char.
Proof. intros H ->. discriminate. Qed.

Lemma sub_space_tagless (s : string) :
  forall pv n inside,
    (tagless s = true ->
     tagless (ReSub.sub_from SPACE_PATTERN " " pv n s inside) = true) /\
    (has_gt (ReSub.sub_from SPACE_PATTERN " " pv n s inside) = true -> has_gt s = true) /\
    (inside = 0 -> String.prefix ">" s = true ->
     String.prefix ">" (ReSub.sub_from SPACE_PATTERN " " pv n s inside) = true).
Proof.
  induction s as [|c s IH]; intros pv n inside.
  - rewrite sub_from_end. destruct inside; [|repeat split; discriminate].
    rewrite attempt_space. repeat split; discriminate.
  - destruct inside as [|k].
    + pose proof (attempt_space pv n (String c s)) as Ha. cbn [run] in Ha.
      destruct (PyStr.is_space c) eqn:Hc.
      * rewrite (sub_from_replace _ _ _ _ _ _ _ Ha) by lia. cbn [String.append].
        destruct (IH (Some c) (S n) (n + S (run PyStr.is_space s) - n - 1)) as (J1 & J2 & _).
        split; [|split].
        -- intros H. apply tagless_cons in H. destruct H as [_ H].
           apply tagless_cons. split; [discriminate|exact (J1 H)].
        -- intros H. cbn [has_gt]. apply orb_true_iff. right. exact (J2 H).
        -- intros _ H. apply prefix_gt_cons in H. exfalso. exact (space_not_gt c Hc H).
      * rewrite (sub_from_copy _ _ _ _ _ _ Ha).
        destruct (IH (Some c) (S n) 0) as (I1 & I2 & I3).
        split; [|split].
        -- intros H. apply tagless_cons in H. destruct H as [Hhead H].
           exact (proj1 (copy_keeps c s _ Hhead (I1 H) I2 (I3 eq_refl))).
        -- cbn [has_gt]. intros H. apply orb_true_iff in H. apply orb_true_iff.
           destruct H as [H|H]; [left; exact H|right; exact (I2 H)].
        -- intros _ H. apply prefix_gt_cons in H. apply prefix_gt_cons. exact H.
    + rewrite sub_from_inside. destruct (IH (Some c) (S n) k) as (I1 & I2 & _).
      split; [|split; [|discriminate]].
      * intros H. apply tagless_cons in H. exact (I1 (proj2 H)).
      * intros H. cbn [has_gt]. rewrite (I2 H). apply orb_true_r.
Qed.

Lemma tagless_lstrip (s : string) : tagless s = true -> tagless (PyStr.lstrip s) = true.
Proof.
  induction s as [|c s IH]; intros H; [reflexivity|].
  cbn [PyStr.lstrip]. destruct (PyStr.is_space c); [|exact H].
  apply IH. apply tagless_cons in H. exact (proj2 H).
Qed.

Lemma has_gt_rstrip (s : string) : has_gt (PyStr.rstrip s) = true -> has_gt s = true.
Proof.
  induction s as [|c s IH]; [discriminate|].
  rewrite rstrip_unfold. destruct (PyStr.rstrip s) as [|a r] eqn:E.
  - destruct (PyStr.is_space c); [discriminate|].
    cbn [has_gt]. rewrite orb_false_r. intros ->. reflexivity.
  - intros H. cbn [has_gt] in H. apply orb_true_iff in H. cbn [has_gt].
    apply orb_true_iff. destruct H as [H|H]; [left; exact H|right; exact (IH H)].
Qed.

Lemma prefix_gt_rstrip (s : string) :
  String.prefix ">" s = true -> String.prefix ">" (PyStr.rstrip s) = true.
Proof.
  destruct s as [|c s]; [discriminate|]. intros H. apply prefix_gt_cons in H. subst c.
  rewrite rstrip_cons by reflexivity. apply prefix_gt_cons. reflexivity.
Qed.

Lemma tagless_rstrip (s : string) : tagless s = true -> tagless (PyStr.rstrip s) = true.
Proof.
  induction s as [|c s IH]; intros H; [reflexivity|].
  apply tagless_cons in H. destruct H as [Hhead H]. specialize (IH H).
  rewrite rstrip_unfold. destruct (PyStr.rstrip s) as [|a r] eqn:E.
  - destruct (PyStr.is_space c); [reflexivity|].
    apply tagless_cons. split; [|reflexivity]. intros _. right. reflexivity.
  - rewrite <- E in *. apply tagless_cons. split; [|exact IH].
    intros Hc. destruct (Hhead Hc) as [Hp|Hg]; [left; exact (prefix_gt_rstrip s Hp)|right].
    destruct (has_gt (PyStr.rstrip s)) eqn:G; [|reflexivity].
    rewrite (has_gt_rstrip s G) in Hg. discriminate.
Qed.

Lemma clean_text_tagless (value : option string) : tagless (clean_text value) = true.
Proof.
  unfold clean_text, PyStr.strip, ReSub.sub.
  apply tagless_rstrip, tagless_lstrip, sub_space_tagless, sub_tag_tagless.
Qed.

Lemma tagless_no_match (s : string) :
  tagless s = true -> forall pv n, search_from TAG_PATTERN pv n s = None.
Proof.
  induction s as [|c s IH]; intros H pv n.
  - cbn [search_from]. unfold match_here. rewrite tag_fails by reflexivity. reflexivity.
  - cbn [search_from]. unfold match_here. cbn [tagless] in H.
    apply andb_true_iff in H. destruct H as [Hhead H].
    rewrite tag_fails by exact Hhead. apply IH. exact H.
Qed.

(** X25 (clean_text): the cleaned text contains no markup tag any more: the
    tag pattern of [clean_text] finds no match in it. *)
Theorem clean_text_no_markup (value : option string) :
  search TAG_PATTERN (clean_text value) = None.
Proof.
  unfold search. apply tagless_no_match. apply clean_text_tagless.
Qed.

(** *** Cleaning twice *)

Lemma sub_tag_id (s : string) :
  tagless s = true -> forall pv n, ReSub.sub_from TAG_PATTERN " " pv n s 0 = s.
Proof.
  induction s as [|c s IH]; intros H pv n.
  - rewrite sub_from_end. unfold ReSub.attempt. rewrite tag_fails by reflexivity.
    reflexivity.
  - cbn [tagless] in H. apply andb_true_iff in H. destruct H as [Hhead H].
    rewrite sub_from_copy.
    + rewrite (IH H). reflexivity.
    + unfold ReSub.attempt. apply tag_fails. exact Hhead.
Qed.

Lemma spaced_true_run (s : string) : spaced true s = true -> run PyStr.is_space s = 0.
Proof.
  destruct s as [|c s]; [reflexivity|]. cbn [spaced run].
  destruct (PyStr.is_space c); [|reflexivity].
  cbn [negb]. rewrite andb_false_r. discriminate.
Qed.

Lemma sub_space_id (s : string) :
  forall b pv n, spaced b s = true -> ReSub.sub_from SPACE_PATTERN " " pv n s 0 = s.
Proof.
  induction s as [|c s IH]; intros b pv n H.
  - rewrite sub_from_end, attempt_space. reflexivity.
  - pose proof (attempt_space pv n (String c s)) as Ha. cbn [run] in Ha.
    cbn [spaced] in H. destruct (PyStr.is_space c) eqn:Hc.
    + apply andb_true_iff in H. destruct H as [H1 H2].
      apply andb_true_iff in H1. destruct H1 as [H1 _]. apply Ascii.eqb_eq in H1.
      rewrite (spaced_true_run s H2) in Ha.
      rewrite (sub_from_replace _ _ _ _ _ _ _ Ha) by lia.
      replace (n + 1 - n - 1) with 0 by lia.
      rewrite (IH true _ _ H2). cbn [String.append]. rewrite H1. reflexivity.
    + rewrite (sub_from_copy _ _ _ _ _ _ Ha). rewrite (IH false _ _ H). reflexivity.
Qed.

(** X26 (clean_text): cleaning is idempotent; a text that has been cleaned
    is left as it is by a second cleaning. *)
Theorem clean_text_idempotent (value : option string) :
  clean_text (Some (clean_text value)) = clean_text value.
Proof.
  unfold clean_text at 1. cbv zeta. unfold ReSub.sub.
  rewrite (sub_tag_id _ (clean_text_tagless value)).
  rewrite (sub_space_id _ false _ _ (clean_text_spaced value)).
  apply strip_strip.
Qed.

End SubFacts.
